(** * release-sync: a shallow embedding of the publishing engine

    The development follows the JavaScript sources:

    - [src/utils/fileHandler.js] : [resolveAssetFiles], [getFileInfo]
    - [src/platforms/github.js]  : [publishGitHubRelease]
    - [src/platforms/gitee.js]   : [publishGiteeRelease]
    - [src/platforms/index.js]   : the [platforms] table
    - [src/index.js]             : [main]

    JavaScript strings are read as sequences of code units in the range
    U+0000..U+00FF, which is what [Ascii.ascii] enumerates.  Asynchronous
    functions are run to completion one after the other (the sources await
    every call), so a promise is modelled by its completion. *)

From Stdlib Require Import String Ascii List ZArith Bool Arith Lia.
Import ListNotations.
Local Open Scope string_scope.
Local Open Scope list_scope.

Set Implicit Arguments.

(* ===================================================================== *)
(** ** JavaScript string primitives used by the sources *)
(* ===================================================================== *)

(** [WhiteSpace] and [LineTerminator] code units below U+0100: the set that
    [String.prototype.trim] strips and that the regular expression class
    [\s] matches. *)
Definition is_space (c : ascii) : bool :=
  let n := nat_of_ascii c in
  (((9 <=? n) && (n <=? 13)) || (n =? 32) || (n =? 160))%nat.

(** Code units that [toLowerCase] changes: A-Z and the Latin-1 capitals
    U+00C0..U+00DE without the multiplication sign U+00D7. *)
Definition is_upper (c : ascii) : bool :=
  let n := nat_of_ascii c in
  (((65 <=? n) && (n <=? 90)) ||
   ((192 <=? n) && (n <=? 222) && negb (n =? 215)))%nat.

Definition lower_char (c : ascii) : ascii :=
  if is_upper c then ascii_of_nat (nat_of_ascii c + 32) else c.

(** [s.toLowerCase()] *)
Fixpoint toLowerCase (s : string) : string :=
  match s with
  | EmptyString => EmptyString
  | String c s' => String (lower_char c) (toLowerCase s')
  end.

Fixpoint trimStart (s : string) : string :=
  match s with
  | EmptyString => EmptyString
  | String c s' => if is_space c then trimStart s' else s
  end.

Fixpoint trimEnd (s : string) : string :=
  match s with
  | EmptyString => EmptyString
  | String c s' =>
      match trimEnd s' with
      | EmptyString => if is_space c then EmptyString else String c EmptyString
      | r => String c r
      end
  end.

(** [s.trim()] *)
Definition trim (s : string) : string := trimEnd (trimStart s).

(** Truthiness of a string: [Boolean(s)], [!s] is its negation. *)
Definition truthy (s : string) : bool :=
  match s with EmptyString => false | String _ _ => true end.

(** Put a code unit in front of the first piece of a split. *)
Definition cons_head (c : ascii) (pieces : list string) : list string :=
  match pieces with
  | [] => [String c EmptyString]
  | w :: ws => String c w :: ws
  end.

(** [s.split(sep)] for a separator of one code unit. *)
Fixpoint split_char (sep : ascii) (s : string) : list string :=
  match s with
  | EmptyString => [EmptyString]
  | String c s' =>
      if Ascii.eqb c sep then EmptyString :: split_char sep s'
      else cons_head c (split_char sep s')
  end.

(** [s.split(/\s+/)]: a maximal run of white space is one separator.
    [in_sep] tells that the previous code unit belonged to a separator. *)
Fixpoint split_ws_from (in_sep : bool) (s : string) : list string :=
  match s with
  | EmptyString => [EmptyString]
  | String c s' =>
      if is_space c then
        if in_sep then split_ws_from true s'
        else EmptyString :: split_ws_from true s'
      else cons_head c (split_ws_from false s')
  end.

Definition split_ws (s : string) : list string := split_ws_from false s.

(** [pieces.join(sep)] for a separator of one code unit. *)
Fixpoint join_char (sep : ascii) (pieces : list string) : string :=
  match pieces with
  | [] => EmptyString
  | [w] => w
  | w :: ws => w ++ String sep (join_char sep ws)
  end.

Fixpoint contains_char (c : ascii) (s : string) : bool :=
  match s with
  | EmptyString => false
  | String d s' => Ascii.eqb d c || contains_char c s'
  end.

Fixpoint last_char (s : string) : option ascii :=
  match s with
  | EmptyString => None
  | String c EmptyString => Some c
  | String _ s' => last_char s'
  end.

Definition first_char (s : string) : option ascii :=
  match s with
  | EmptyString => None
  | String c _ => Some c
  end.

Definition opt_space (o : option ascii) : bool :=
  match o with Some c => is_space c | None => false end.

(** No white space at either end. *)
Definition is_trimmed (s : string) : bool :=
  negb (opt_space (first_char s)) && negb (opt_space (last_char s)).

Fixpoint has_upper (s : string) : bool :=
  match s with
  | EmptyString => false
  | String c s' => is_upper c || has_upper s'
  end.

(** [arr.indexOf(x)], with [-1] when [x] does not occur. *)
Fixpoint indexOf_from (i : Z) (self : list string) (x : string) : Z :=
  match self with
  | [] => (-1)%Z
  | y :: ys => if String.eqb y x then i else indexOf_from (i + 1)%Z ys x
  end.

Definition indexOf (self : list string) (x : string) : Z := indexOf_from 0%Z self x.

(** [arr.filter((x, index) => f x index)] *)
Fixpoint filter_index_from {A : Type} (f : A -> Z -> bool) (i : Z) (l : list A) : list A :=
  match l with
  | [] => []
  | x :: xs =>
      if f x i then x :: filter_index_from f (i + 1)%Z xs
      else filter_index_from f (i + 1)%Z xs
  end.

Definition filter_index {A : Type} (f : A -> Z -> bool) (l : list A) : list A :=
  filter_index_from f 0%Z l.

(** [path.basename(p)] on POSIX paths: trailing slashes are ignored and the
    last component is returned. *)
Fixpoint basename_rev (started : bool) (rev_path : list ascii) : list ascii :=
  match rev_path with
  | [] => []
  | c :: cs =>
      if Ascii.eqb c "/"%char then
        if started then [] else basename_rev false cs
      else c :: basename_rev true cs
  end.

Definition basename (p : string) : string :=
  string_of_list_ascii
    (rev (basename_rev false (rev (list_ascii_of_string p)))).

Definition is_absolute (p : string) : bool :=
  match p with
  | String c _ => Ascii.eqb c "/"%char
  | EmptyString => false
  end.

(* ===================================================================== *)
(** ** Thrown values *)
(* ===================================================================== *)

(** A thrown value.  [err_status] is [error.response.status] when the error
    carries a response ([None] for network errors, time-outs and plain
    [Error] objects). *)
Record JsError := {
  err_status : option Z;
  err_message : string
}.

(** The completion of a call: it returns or it throws. *)
Inductive Completion (A : Type) : Type :=
| Resolved (a : A)
| Rejected (e : JsError).
Arguments Resolved {A} a.
Arguments Rejected {A} e.

(* ===================================================================== *)
(** ** src/utils/fileHandler.js: the asset resolver *)
(* ===================================================================== *)

(** The file system as [resolveAssetFiles] observes it: the answer of
    [glob.sync(pattern, { absolute: true, nodir: true })], which throws on a
    pattern that it refuses (a pattern of more than 65536 characters is
    "too long"), and the answer of [fsExtra.existsSync], which does not
    throw. *)
Record FileSystem := {
  glob_sync : string -> Completion (list string);
  exists_sync : string -> bool
}.

(** The patterns of the raw input:
    [assetInput.split(/\s+/).map(item => item.trim()).filter(Boolean)]. *)
Definition assetPatterns (assetInput : string) : list string :=
  filter truthy (map trim (split_ws assetInput)).

(** The callback of the final [filter]: a path is kept when it exists and
    its first occurrence in [self] is at [index].  The existence test comes
    first in the source; both tests only log. *)
Definition keep_asset (fs : FileSystem) (self : list string)
    (filePath : string) (index : Z) : bool :=
  let isUnique := Z.eqb (indexOf self filePath) index in
  let fileExists := exists_sync fs filePath in
  if negb fileExists then false
  else if negb isUnique then false
  else true.

(** [assetPatterns.flatMap(pattern => glob.sync(pattern, ...))]: the
    patterns are searched in their order; the source has no [try] around
    the call, so the first error of [glob.sync] leaves the function. *)
Fixpoint glob_all (fs : FileSystem) (patterns : list string)
    : Completion (list string) :=
  match patterns with
  | [] => Resolved []
  | pattern :: rest =>
      match glob_sync fs pattern with
      | Rejected e => Rejected e
      | Resolved matchedFiles =>
          match glob_all fs rest with
          | Rejected e => Rejected e
          | Resolved more => Resolved (matchedFiles ++ more)
          end
      end
  end.

(** [resolveAssetFiles(assetInput)]; the [core.info] and [core.warning]
    lines have no effect on the result and are not traced. *)
Definition resolveAssetFiles (fs : FileSystem) (assetInput : string)
    : Completion (list string) :=
  if negb (truthy assetInput) then Resolved []
  else
    match glob_all fs (assetPatterns assetInput) with
    | Rejected e => Rejected e
    | Resolved self => Resolved (filter_index (keep_asset fs self) self)
    end.

(** The order of a list is kept in a sub-sequence of it. *)
Inductive Subseq {A : Type} : list A -> list A -> Prop :=
| Subseq_nil : Subseq [] []
| Subseq_skip : forall x l1 l2, Subseq l1 l2 -> Subseq l1 (x :: l2)
| Subseq_keep : forall x l1 l2, Subseq l1 l2 -> Subseq (x :: l1) (x :: l2).

(** Two file systems that answer alike. *)
Definition fs_agree (fs1 fs2 : FileSystem) : Prop :=
  (forall pat, glob_sync fs1 pat = glob_sync fs2 pat) /\
  (forall p, exists_sync fs1 p = exists_sync fs2 p).

(** [glob.sync] was asked for absolute paths. *)
Definition glob_absolute (fs : FileSystem) : Prop :=
  forall pat matchedFiles p,
    glob_sync fs pat = Resolved matchedFiles -> In p matchedFiles ->
    is_absolute p = true.

(** The [TypeError] of [glob] for a pattern of more than 65536 characters. *)
Definition pattern_too_long : JsError :=
  {| err_status := None; err_message := "pattern is too long" |}.

Definition example_fs : FileSystem :=
  {| glob_sync := fun pat =>
       if Z.ltb 65536 (Z.of_nat (String.length pat)) then Rejected pattern_too_long
       else if String.eqb pat "dist/*.txt"
       then Resolved ["/w/dist/a.txt"; "/w/dist/b.txt"]
       else if String.eqb pat "dist/a.txt" then Resolved ["/w/dist/a.txt"]
       else if String.eqb pat "dist/gone.txt" then Resolved ["/w/dist/gone.txt"]
       else Resolved [];
     exists_sync := fun p => negb (String.eqb p "/w/dist/gone.txt") |}.

Fixpoint repeat_char (c : ascii) (n : nat) : string :=
  match n with
  | O => EmptyString
  | S n' => String c (repeat_char c n')
  end.

(** One pattern of 65537 characters. *)
Definition long_pattern : string := repeat_char "a" (N.to_nat 65537).

(* ===================================================================== *)
(** ** Effects: errors, outbound calls, the log *)
(* ===================================================================== *)

(** A [Date] object: a valid one is given by its ISO string. *)
Inductive JsDate :=
| DateValue (iso : string)
| InvalidDate.

(** [Date.prototype.toISOString]: a [RangeError] on an invalid date. *)
Definition toISOString (d : JsDate) : Completion string :=
  match d with
  | DateValue iso => Resolved iso
  | InvalidDate =>
      Rejected {| err_status := None; err_message := "Invalid time value" |}
  end.

(** The [fs.Stats] object as far as [getFileInfo] reads it. *)
Record Stats := {
  stat_size : Z;
  stat_mtime : JsDate
}.

(** The object [getFileInfo] returns. *)
Record FileInfo := {
  fi_name : string;
  fi_size : Z;
  fi_content : string
}.

(** [releaseResponse.data] of [octokit.rest.repos.createRelease]. *)
Record GitHubRelease := {
  gh_id : Z;
  gh_html_url : string
}.

(** The [data] of an axios response as far as the adapter reads it: the
    body may be missing, and so may its [id]. *)
Record ResponseData := { data_id : option Z }.
Record AxiosResponse := { resp_data : option ResponseData }.

Inductive Level := Info | Debug | Warning | Error.

(** The log lines that are traced.  Progress lines that are not listed
    here have no effect on the control flow and are left out. *)
Inductive Message :=
(* src/index.js *)
| MsgUnsupportedPlatform (platform : string)
| MsgGitHubTokenMissing
| MsgGiteeParamsMissing
| MsgProcessingPlatform (platform : string)
| MsgPlatformCompleted (platform : string)
| MsgUnexpectedPlatform (platform : string)
| MsgWorkflowCompleted
| MsgSyncFailed (error : JsError)
(* src/utils/fileHandler.js *)
| MsgFileInfoFailed (filePath : string)
(* src/platforms/github.js *)
| MsgGitHubInit
| MsgGitHubProcessingAsset (index total : nat) (filePath : string)
| MsgGitHubSkipAsset (filePath : string)
| MsgGitHubAssetUploaded (index total : nat) (name : string)
| MsgGitHubFailed (error : JsError)
(* src/platforms/gitee.js *)
| MsgGiteeStart
| MsgGiteeTagExists
| MsgGiteeTagNotFound
| MsgGiteeTagCreated
| MsgGiteeTagError (error : JsError)
| MsgGiteeReleaseCreated
| MsgGiteeReleaseError (error : JsError)
| MsgGiteeReleaseId (releaseId : Z)
| MsgGiteeLookupError (error : JsError)
| MsgGiteeProcessingAsset (index total : nat) (filePath : string)
| MsgGiteeSkipAsset (filePath : string)
| MsgGiteeAssetUploaded (name : string)
| MsgGiteeAssetFailed (filePath : string) (error : JsError)
| MsgGiteeSummary (successCount skipCount failCount : nat)
| MsgGiteeNoAssets
| MsgGiteeSuccess
| MsgGiteeFatal (error : JsError).

(** What a run does to the outside, in the order it does it. *)
Inductive Event :=
(* @actions/core and console *)
| EvLog (level : Level) (m : Message)
| EvSetFailed (m : Message)
(* fs.promises *)
| EvStat (filePath : string)
| EvReadFile (filePath : string)
(* octokit.rest.repos *)
| EvOctokitCreateRelease (owner repo tag_name name body : string)
    (draft prerelease : bool)
| EvOctokitUploadReleaseAsset (owner repo : string) (release_id : Z)
    (name data : string)
(* axios, on https://gitee.com/api/v5/repos/owner/repo *)
| EvGiteeGetTag (owner repo tag access_token : string)
| EvGiteePostTag (owner repo access_token tag_name refs : string)
| EvGiteePostRelease (owner repo access_token tag_name name body : string)
    (prerelease : bool) (target_commitish : string)
| EvGiteeGetReleaseByTag (owner repo tag access_token : string)
| EvGiteeAttachFile (owner repo : string) (releaseId : Z)
    (access_token : string) (file : FileInfo).

Definition History := list Event.

(** The outside world.  Every answer may depend on everything that
    happened before, the request included: the oracles receive the history
    whose last event is the request they answer. *)
Record World := {
  w_fs : FileSystem;
  (** [github.getOctokit(token)]: the construction of the client may throw *)
  w_getOctokit : string -> Completion unit;
  (** [github.context.repo] *)
  w_context_repo : Completion (string * string);
  (** [fs.stat(filePath)] *)
  w_stat : History -> Completion Stats;
  w_readFile : History -> Completion string;
  w_createRelease : History -> Completion GitHubRelease;
  w_uploadReleaseAsset : History -> Completion unit;
  w_axios : History -> Completion AxiosResponse
}.

(** An action reads the history so far and yields a completion together
    with the events it added. *)
Definition Act (A : Type) : Type := History -> Completion A * list Event.

Definition ret {A : Type} (a : A) : Act A := fun _ => (Resolved a, []).

Definition throw {A : Type} (e : JsError) : Act A := fun _ => (Rejected e, []).

Definition bind {A B : Type} (m : Act A) (k : A -> Act B) : Act B :=
  fun h =>
    match m h with
    | (Resolved a, out1) =>
        let (r, out2) := k a (h ++ out1) in (r, out1 ++ out2)
    | (Rejected e, out1) => (Rejected e, out1)
    end.

(** [try { m } catch (error) { handler error }] *)
Definition try_catch {A : Type} (m : Act A) (handler : JsError -> Act A) : Act A :=
  fun h =>
    match m h with
    | (Resolved a, out1) => (Resolved a, out1)
    | (Rejected e, out1) =>
        let (r, out2) := handler e (h ++ out1) in (r, out1 ++ out2)
    end.

Definition emit (e : Event) : Act unit := fun _ => (Resolved tt, [e]).

(** Send a request and await the answer. *)
Definition ask {A : Type} (oracle : History -> Completion A) (request : Event) : Act A :=
  fun h => (oracle (h ++ [request]), [request]).

(** Read an ambient value whose getter may throw. *)
Definition lift {A : Type} (c : Completion A) : Act A := fun _ => (c, []).

Declare Scope act_scope.
Delimit Scope act_scope with act.
Notation "x <- m ;; k" := (bind m (fun x => k))
  (at level 61, m at next level, right associativity) : act_scope.
Notation "m ;; k" := (bind m (fun _ => k))
  (at level 61, right associativity) : act_scope.
Local Open Scope act_scope.

Definition events {A : Type} (r : Completion A * list Event) : list Event := snd r.
Definition completion {A : Type} (r : Completion A * list Event) : Completion A := fst r.

Definition is_rejected {A : Type} (c : Completion A) : bool :=
  match c with Rejected _ => true | Resolved _ => false end.

(** [error.response && error.response.status === code] *)
Definition status_is (error : JsError) (code : Z) : bool :=
  match err_status error with
  | Some s => Z.eqb s code
  | None => false
  end.

(** Truthiness of an identifier read from a response: [undefined], [null]
    and [0] are falsy. *)
Definition truthy_id (id : option Z) : bool :=
  match id with
  | Some n => negb (Z.eqb n 0)
  | None => false
  end.

(* ===================================================================== *)
(** ** The adapters and the orchestrator *)
(* ===================================================================== *)

(** The options object of [publishGitHubRelease]. *)
Record GitHubOptions := {
  gh_token : string;
  gh_tag : string;
  gh_releaseName : string;
  gh_body : string;
  gh_draft : bool;
  gh_prerelease : bool;
  gh_assetFiles : list string
}.

(** The options object of [publishGiteeRelease]. *)
Record GiteeOptions := {
  gt_token : string;
  gt_owner : string;
  gt_repo : string;
  gt_tag : string;
  gt_releaseName : string;
  gt_body : string;
  gt_prerelease : bool;
  gt_targetCommitish : string;
  gt_assetFiles : list string
}.

(** The three counters of the Gitee upload loop. *)
Record Counters := {
  successCount : nat;
  skipCount : nat;
  failCount : nat
}.

Definition no_counts : Counters :=
  {| successCount := 0; skipCount := 0; failCount := 0 |}.

Definition incr_success (c : Counters) : Counters :=
  {| successCount := S (successCount c); skipCount := skipCount c;
     failCount := failCount c |}.

Definition incr_skip (c : Counters) : Counters :=
  {| successCount := successCount c; skipCount := S (skipCount c);
     failCount := failCount c |}.

Definition incr_fail (c : Counters) : Counters :=
  {| successCount := successCount c; skipCount := skipCount c;
     failCount := S (failCount c) |}.

Definition counted (c : Counters) : nat :=
  successCount c + skipCount c + failCount c.

(** The inputs of the action: what each call of [core.getInput] and
    [core.getBooleanInput] in step 1 of [main] yields.  Such a call throws
    when a required input is not supplied or a boolean is malformed. *)
Record Inputs := {
  in_platforms : Completion string;
  in_tag : Completion string;
  in_release_name : Completion string;
  in_release_body : Completion string;
  in_draft : Completion bool;
  in_prerelease : Completion bool;
  in_asset_files : Completion string;
  in_github_token : Completion string;
  in_gitee_token : Completion string;
  in_gitee_owner : Completion string;
  in_gitee_repo : Completion string;
  in_gitee_target_commitish : Completion string
}.

(** The constants that step 1 of [main] binds. *)
Record Settings := {
  st_syncPlatforms : list string;
  st_tag : string;
  st_releaseName : string;
  st_body : string;
  st_draft : bool;
  st_prerelease : bool;
  st_assetFiles : list string;
  st_githubToken : string;
  st_giteeToken : string;
  st_giteeOwner : string;
  st_giteeRepo : string;
  st_giteeTargetCommitish : string
}.

(** The functions exported by [src/platforms/index.js]. *)
Inductive Adapter := GitHubAdapter | GiteeAdapter.

(** What a property read on the [platforms] object yields when it is not
    [undefined]: one of the two own properties, or a member inherited from
    [Object.prototype]; the table is an object literal. *)
Inductive TableEntry :=
| OwnAdapter (a : Adapter)
| Inherited.

Definition object_prototype_keys : list string :=
  [ "constructor"; "__defineGetter__"; "__defineSetter__"; "hasOwnProperty";
    "__lookupGetter__"; "__lookupSetter__"; "isPrototypeOf";
    "propertyIsEnumerable"; "toString"; "valueOf"; "__proto__";
    "toLocaleString" ].

Definition mem_string (x : string) (l : list string) : bool :=
  existsb (String.eqb x) l.

(** [platforms[platform]]; [None] is [undefined].  Every entry is a function
    or an object, hence truthy. *)
Definition platforms_get (platform : string) : option TableEntry :=
  if String.eqb platform "github" then Some (OwnAdapter GitHubAdapter)
  else if String.eqb platform "gitee" then Some (OwnAdapter GiteeAdapter)
  else if mem_string platform object_prototype_keys then Some Inherited
  else None.

(** The identifiers the action supports (README, input [platforms]). *)
Definition supported_platform (platform : string) : bool :=
  String.eqb platform "github" || String.eqb platform "gitee".

(** [src/index.js], lines 31-34:
    [.split(',').map(item => item.trim().toLowerCase()).filter(Boolean)] *)
Definition parsePlatforms (raw : string) : list string :=
  filter truthy (map (fun item => toLowerCase (trim item)) (split_char "," raw)).

Section Engine.

Variable w : World.

(** [getFileInfo(filePath)], src/utils/fileHandler.js: whatever is thrown
    inside the [try] is caught and [null] is returned: an error of [stat]
    or of [readFile], and the [RangeError] of
    [fileStat.mtime.toISOString()] in the log line that precedes the
    [return]. *)
Definition getFileInfo (filePath : string) : Act (option FileInfo) :=
  try_catch
    (let fileName := basename filePath in
     fileStat <- ask (w_stat w) (EvStat filePath);;
     fileContent <- ask (w_readFile w) (EvReadFile filePath);;
     lift (toISOString (stat_mtime fileStat));;
     ret (Some {| fi_name := fileName; fi_size := stat_size fileStat;
                  fi_content := fileContent |}))
    (fun error =>
       emit (EvLog Warning (MsgFileInfoFailed filePath));;
       ret None).

(* --------------------------------------------------------------------- *)
(** *** src/platforms/github.js *)

(** The body of [for (const [index, filePath] of assetFiles.entries())];
    there is no [try] around the upload call. *)
Fixpoint github_upload_loop (owner repo : string) (releaseId : Z)
    (total index : nat) (files : list string) : Act unit :=
  match files with
  | [] => ret tt
  | filePath :: rest =>
      emit (EvLog Info (MsgGitHubProcessingAsset (index + 1) total filePath));;
      fileInfo <- getFileInfo filePath;;
      match fileInfo with
      | None => emit (EvLog Warning (MsgGitHubSkipAsset filePath))
      | Some info =>
          ask (w_uploadReleaseAsset w)
            (EvOctokitUploadReleaseAsset owner repo releaseId
               (fi_name info) (fi_content info));;
          emit (EvLog Info (MsgGitHubAssetUploaded (index + 1) total (fi_name info)))
      end;;
      github_upload_loop owner repo releaseId total (S index) rest
  end.

(** The statements inside the [try] of [publishGitHubRelease]: the client is
    built from the token, the repository is read from the context of the
    workflow run, the release is created, the assets are uploaded. *)
Definition github_try_body (o : GitHubOptions) : Act GitHubRelease :=
  emit (EvLog Info MsgGitHubInit);;
  lift (w_getOctokit w (gh_token o));;
  ctx <- lift (w_context_repo w);;
  let owner := fst ctx in
  let repo := snd ctx in
  releaseResponse <- ask (w_createRelease w)
    (EvOctokitCreateRelease owner repo (gh_tag o) (gh_releaseName o)
       (gh_body o) (gh_draft o) (gh_prerelease o));;
  let releaseId := gh_id releaseResponse in
  (if Nat.ltb 0 (length (gh_assetFiles o)) then
     github_upload_loop owner repo releaseId (length (gh_assetFiles o)) 0
       (gh_assetFiles o)
   else ret tt);;
  ret releaseResponse.

(** [publishGitHubRelease(options)] *)
Definition publishGitHubRelease (o : GitHubOptions) : Act GitHubRelease :=
  try_catch (github_try_body o)
    (fun error =>
       emit (EvLog Error (MsgGitHubFailed error));;
       emit (EvSetFailed (MsgGitHubFailed error));;
       throw error).

(* --------------------------------------------------------------------- *)
(** *** src/platforms/gitee.js *)

(** Step 1, lines 44-86: probe the tag; create it on a 404. *)
Definition gitee_reconcile_tag (o : GiteeOptions) : Act unit :=
  try_catch
    (ask (w_axios w)
       (EvGiteeGetTag (gt_owner o) (gt_repo o) (gt_tag o) (gt_token o));;
     emit (EvLog Info MsgGiteeTagExists))
    (fun error =>
       if status_is error 404 then
         emit (EvLog Info MsgGiteeTagNotFound);;
         ask (w_axios w)
           (EvGiteePostTag (gt_owner o) (gt_repo o) (gt_token o) (gt_tag o)
              (gt_targetCommitish o));;
         emit (EvLog Info MsgGiteeTagCreated)
       else
         emit (EvLog Error (MsgGiteeTagError error));;
         throw error).

(** Steps 2 and 3, lines 88-121: create the release. *)
Definition gitee_create_release (o : GiteeOptions) : Act unit :=
  try_catch
    (ask (w_axios w)
       (EvGiteePostRelease (gt_owner o) (gt_repo o) (gt_token o) (gt_tag o)
          (gt_releaseName o) (gt_body o) (gt_prerelease o)
          (gt_targetCommitish o));;
     emit (EvLog Info MsgGiteeReleaseCreated))
    (fun releaseError =>
       emit (EvLog Error (MsgGiteeReleaseError releaseError));;
       throw releaseError).

(** [getReleaseResponse.data && getReleaseResponse.data.id] *)
Definition response_release_id (response : AxiosResponse) : option Z :=
  match resp_data response with
  | Some d => if truthy_id (data_id d) then data_id d else None
  | None => None
  end.

Definition invalid_release_id : JsError :=
  {| err_status := None;
     err_message := "Failed to retrieve a valid Release ID from Gitee API response" |}.

(** Lines 128-152: fetch the release by tag for its identifier. *)
Definition gitee_lookup_release_id (o : GiteeOptions) : Act Z :=
  try_catch
    (getReleaseResponse <- ask (w_axios w)
       (EvGiteeGetReleaseByTag (gt_owner o) (gt_repo o) (gt_tag o) (gt_token o));;
     match response_release_id getReleaseResponse with
     | Some releaseId =>
         emit (EvLog Info (MsgGiteeReleaseId releaseId));;
         ret releaseId
     | None => throw invalid_release_id
     end)
    (fun getReleaseError =>
       emit (EvLog Error (MsgGiteeLookupError getReleaseError));;
       throw getReleaseError).

(** One iteration of the loop of lines 160-207.  The counters are local
    variables of the source; every statement that can throw comes before
    the increment of its branch, so the handler sees the counters as they
    were when the iteration began. *)
Definition gitee_upload_one (o : GiteeOptions) (releaseId : Z)
    (total i : nat) (filePath : string) (c : Counters) : Act Counters :=
  emit (EvLog Info (MsgGiteeProcessingAsset (i + 1) total filePath));;
  try_catch
    (fileInfo <- getFileInfo filePath;;
     match fileInfo with
     | None =>
         emit (EvLog Warning (MsgGiteeSkipAsset filePath));;
         ret (incr_skip c)
     | Some info =>
         ask (w_axios w)
           (EvGiteeAttachFile (gt_owner o) (gt_repo o) releaseId (gt_token o) info);;
         emit (EvLog Info (MsgGiteeAssetUploaded (fi_name info)));;
         ret (incr_success c)
     end)
    (fun uploadError =>
       emit (EvLog Error (MsgGiteeAssetFailed filePath uploadError));;
       ret (incr_fail c)).

Fixpoint gitee_upload_loop (o : GiteeOptions) (releaseId : Z)
    (total i : nat) (files : list string) (c : Counters) : Act Counters :=
  match files with
  | [] => ret c
  | filePath :: rest =>
      c' <- gitee_upload_one o releaseId total i filePath c;;
      gitee_upload_loop o releaseId total (S i) rest c'
  end.

(** Lines 154-210: the counters, the loop and the summary line. *)
Definition gitee_upload_assets (o : GiteeOptions) (releaseId : Z) : Act Counters :=
  c <- gitee_upload_loop o releaseId (length (gt_assetFiles o)) 0
         (gt_assetFiles o) no_counts;;
  emit (EvLog Info (MsgGiteeSummary (successCount c) (skipCount c) (failCount c)));;
  ret c.

(** Step 4, lines 123-213. *)
Definition gitee_assets_step (o : GiteeOptions) : Act unit :=
  if Nat.ltb 0 (length (gt_assetFiles o)) then
    releaseId <- gitee_lookup_release_id o;;
    gitee_upload_assets o releaseId;;
    ret tt
  else emit (EvLog Info MsgGiteeNoAssets).

(** The statements inside the outer [try] of [publishGiteeRelease]. *)
Definition gitee_try_body (o : GiteeOptions) : Act unit :=
  emit (EvLog Info MsgGiteeStart);;
  gitee_reconcile_tag o;;
  gitee_create_release o;;
  gitee_assets_step o;;
  emit (EvLog Info MsgGiteeSuccess).

(** [publishGiteeRelease(options)] *)
Definition publishGiteeRelease (o : GiteeOptions) : Act unit :=
  try_catch (gitee_try_body o)
    (fun error =>
       emit (EvLog Error (MsgGiteeFatal error));;
       throw error).

(* --------------------------------------------------------------------- *)
(** *** src/index.js *)

(** Step 1, lines 28-63: read the inputs, normalise the platform list and
    resolve the asset files, in the order of the source; the first call
    that throws, [resolveAssetFiles] included, leaves the step. *)
Definition read_inputs (inp : Inputs) : Act Settings :=
  platformsInput <- lift (in_platforms inp);;
  tag <- lift (in_tag inp);;
  releaseName <- lift (in_release_name inp);;
  body <- lift (in_release_body inp);;
  draft <- lift (in_draft inp);;
  prerelease <- lift (in_prerelease inp);;
  assetInput <- lift (in_asset_files inp);;
  assetFiles <- lift (resolveAssetFiles (w_fs w) assetInput);;
  githubToken <- lift (in_github_token inp);;
  giteeToken <- lift (in_gitee_token inp);;
  giteeOwner <- lift (in_gitee_owner inp);;
  giteeRepo <- lift (in_gitee_repo inp);;
  giteeTargetCommitish <- lift (in_gitee_target_commitish inp);;
  ret {| st_syncPlatforms := parsePlatforms platformsInput;
         st_tag := tag;
         st_releaseName := releaseName;
         st_body := body;
         st_draft := draft;
         st_prerelease := prerelease;
         st_assetFiles := assetFiles;
         st_githubToken := githubToken;
         st_giteeToken := giteeToken;
         st_giteeOwner := giteeOwner;
         st_giteeRepo := giteeRepo;
         st_giteeTargetCommitish := giteeTargetCommitish |}.

Definition github_options (s : Settings) : GitHubOptions :=
  {| gh_token := st_githubToken s;
     gh_tag := st_tag s;
     gh_releaseName := st_releaseName s;
     gh_body := st_body s;
     gh_draft := st_draft s;
     gh_prerelease := st_prerelease s;
     gh_assetFiles := st_assetFiles s |}.

Definition gitee_options (s : Settings) : GiteeOptions :=
  {| gt_token := st_giteeToken s;
     gt_owner := st_giteeOwner s;
     gt_repo := st_giteeRepo s;
     gt_tag := st_tag s;
     gt_releaseName := st_releaseName s;
     gt_body := st_body s;
     gt_prerelease := st_prerelease s;
     gt_targetCommitish := st_giteeTargetCommitish s;
     gt_assetFiles := st_assetFiles s |}.

Definition report_config_error (m : Message) : Act bool :=
  emit (EvLog Error m);;
  emit (EvSetFailed m);;
  ret false.

(** Step 2, lines 70-94.  The result is [false] when the loop left [main]
    through one of its [return] statements. *)
Fixpoint validate_platforms (s : Settings) (platforms : list string) : Act bool :=
  match platforms with
  | [] => ret true
  | platform :: rest =>
      match platforms_get platform with
      | None => report_config_error (MsgUnsupportedPlatform platform)
      | Some _ =>
          if String.eqb platform "github" && negb (truthy (st_githubToken s))
          then report_config_error MsgGitHubTokenMissing
          else if String.eqb platform "gitee" &&
                  (negb (truthy (st_giteeToken s)) ||
                   negb (truthy (st_giteeOwner s)) ||
                   negb (truthy (st_giteeRepo s)))
          then report_config_error MsgGiteeParamsMissing
          else validate_platforms s rest
      end
  end.

(** The [switch] of lines 106-141 for one platform. *)
Definition sync_platform (s : Settings) (platform : string) : Act unit :=
  emit (EvLog Info (MsgProcessingPlatform platform));;
  if String.eqb platform "github" then
    publishGitHubRelease (github_options s);;
    emit (EvLog Info (MsgPlatformCompleted platform))
  else if String.eqb platform "gitee" then
    publishGiteeRelease (gitee_options s);;
    emit (EvLog Info (MsgPlatformCompleted platform))
  else
    emit (EvLog Warning (MsgUnexpectedPlatform platform)).

(** Step 3, lines 103-142. *)
Fixpoint sync_platforms (s : Settings) (platforms : list string) : Act unit :=
  match platforms with
  | [] => ret tt
  | platform :: rest =>
      sync_platform s platform;;
      sync_platforms s rest
  end.

(** The statements inside the [try] of [main]. *)
Definition main_try_body (inp : Inputs) : Act unit :=
  s <- read_inputs inp;;
  valid <- validate_platforms s (st_syncPlatforms s);;
  if valid then
    sync_platforms s (st_syncPlatforms s);;
    emit (EvLog Info MsgWorkflowCompleted)
  else ret tt.

(** [main()] *)
Definition main (inp : Inputs) : Act unit :=
  try_catch (main_try_body inp)
    (fun error =>
       emit (EvLog Error (MsgSyncFailed error));;
       emit (EvSetFailed (MsgSyncFailed error))).

(** What step 1 yields; it emits nothing. *)
Definition settings_of (inp : Inputs) : Completion Settings :=
  completion (read_inputs inp []).

End Engine.

(* ===================================================================== *)
(** ** Observations on a trace *)
(* ===================================================================== *)

(** Calls that leave the machine: the octokit and axios requests. *)
Definition is_network_call (ev : Event) : bool :=
  match ev with
  | EvOctokitCreateRelease _ _ _ _ _ _ _ => true
  | EvOctokitUploadReleaseAsset _ _ _ _ _ => true
  | EvGiteeGetTag _ _ _ _ => true
  | EvGiteePostTag _ _ _ _ _ => true
  | EvGiteePostRelease _ _ _ _ _ _ _ _ => true
  | EvGiteeGetReleaseByTag _ _ _ _ => true
  | EvGiteeAttachFile _ _ _ _ _ => true
  | _ => false
  end.

Definition is_gitee_call (ev : Event) : bool :=
  match ev with
  | EvGiteeGetTag _ _ _ _ => true
  | EvGiteePostTag _ _ _ _ _ => true
  | EvGiteePostRelease _ _ _ _ _ _ _ _ => true
  | EvGiteeGetReleaseByTag _ _ _ _ => true
  | EvGiteeAttachFile _ _ _ _ _ => true
  | _ => false
  end.

Definition is_tag_create (ev : Event) : bool :=
  match ev with EvGiteePostTag _ _ _ _ _ => true | _ => false end.

Definition is_release_lookup (ev : Event) : bool :=
  match ev with EvGiteeGetReleaseByTag _ _ _ _ => true | _ => false end.

Definition is_github_upload (ev : Event) : bool :=
  match ev with EvOctokitUploadReleaseAsset _ _ _ _ _ => true | _ => false end.

Definition is_set_failed (ev : Event) : bool :=
  match ev with EvSetFailed _ => true | _ => false end.

Definition network_calls (out : list Event) : list Event := filter is_network_call out.
Definition tag_creates (out : list Event) : list Event := filter is_tag_create out.
Definition release_lookups (out : list Event) : list Event := filter is_release_lookup out.

(** The first statement of each adapter is a log line of its own; it marks
    an invocation of the adapter. *)
Definition adapter_start (ev : Event) : option Adapter :=
  match ev with
  | EvLog Info MsgGitHubInit => Some GitHubAdapter
  | EvLog Info MsgGiteeStart => Some GiteeAdapter
  | _ => None
  end.

Fixpoint pick {A B : Type} (f : A -> option B) (l : list A) : list B :=
  match l with
  | [] => []
  | x :: xs =>
      match f x with
      | Some y => y :: pick f xs
      | None => pick f xs
      end
  end.

(** The adapters invoked, in the order of their invocation. *)
Definition adapters_started (out : list Event) : list Adapter := pick adapter_start out.

(** Each loop iteration starts with a "Processing asset" line. *)
Definition github_asset_mark (ev : Event) : option string :=
  match ev with
  | EvLog Info (MsgGitHubProcessingAsset _ _ filePath) => Some filePath
  | _ => None
  end.

Definition gitee_asset_mark (ev : Event) : option string :=
  match ev with
  | EvLog Info (MsgGiteeProcessingAsset _ _ filePath) => Some filePath
  | _ => None
  end.

(** The assets an adapter attempted, in order. *)
Definition github_attempted (out : list Event) : list string := pick github_asset_mark out.
Definition gitee_attempted (out : list Event) : list string := pick gitee_asset_mark out.

(** Some upload call among [out], issued after history [h], was answered
    by a rejection. *)
Fixpoint upload_rejected (w : World) (h : History) (out : list Event) : bool :=
  match out with
  | [] => false
  | ev :: rest =>
      (is_github_upload ev && is_rejected (w_uploadReleaseAsset w (h ++ [ev])))
      || upload_rejected w (h ++ [ev]) rest
  end.

(** The adapter the [switch] of [main] runs for an identifier. *)
Definition adapter_of (platform : string) : option Adapter :=
  if String.eqb platform "github" then Some GitHubAdapter
  else if String.eqb platform "gitee" then Some GiteeAdapter
  else None.

Definition requested_adapters (syncPlatforms : list string) : list Adapter :=
  pick adapter_of syncPlatforms.

(** The checks of the validation loop on one identifier. *)
Definition platform_accepted (s : Settings) (platform : string) : bool :=
  match platforms_get platform with
  | None => false
  | Some _ =>
      negb (String.eqb platform "github" && negb (truthy (st_githubToken s))) &&
      negb (String.eqb platform "gitee" &&
            (negb (truthy (st_giteeToken s)) ||
             negb (truthy (st_giteeOwner s)) ||
             negb (truthy (st_giteeRepo s))))
  end.

(** A platform whose required configuration is absent. *)
Definition missing_configuration (s : Settings) (platform : string) : bool :=
  (String.eqb platform "github" && negb (truthy (st_githubToken s))) ||
  (String.eqb platform "gitee" &&
     (negb (truthy (st_giteeToken s)) ||
      negb (truthy (st_giteeOwner s)) ||
      negb (truthy (st_giteeRepo s)))).

(** All events of an action satisfy [P], whatever the history. *)
Definition emits_only {A : Type} (P : Event -> Prop) (m : Act A) : Prop :=
  forall h, Forall P (events (m h)).

(** An action that cannot throw. *)
Definition never_throws {A : Type} (m : Act A) : Prop :=
  forall h, is_rejected (completion (m h)) = false.

(** A request of the GitHub adapter names the repository of the ambient
    context. *)
Definition targets_context_repo (w : World) (ev : Event) : Prop :=
  match ev with
  | EvOctokitCreateRelease owner repo _ _ _ _ _ =>
      w_context_repo w = Resolved (owner, repo)
  | EvOctokitUploadReleaseAsset owner repo _ _ _ =>
      w_context_repo w = Resolved (owner, repo)
  | _ => True
  end.

(** The inputs with another value for [platforms]. *)
Definition with_platforms (inp : Inputs) (raw : string) : Inputs :=
  {| in_platforms := Resolved raw;
     in_tag := in_tag inp;
     in_release_name := in_release_name inp;
     in_release_body := in_release_body inp;
     in_draft := in_draft inp;
     in_prerelease := in_prerelease inp;
     in_asset_files := in_asset_files inp;
     in_github_token := in_github_token inp;
     in_gitee_token := in_gitee_token inp;
     in_gitee_owner := in_gitee_owner inp;
     in_gitee_repo := in_gitee_repo inp;
     in_gitee_target_commitish := in_gitee_target_commitish inp |}.

(** *** Footprints: the events an action may emit *)

Definition fs_footprint (ev : Event) : Prop :=
  match ev with
  | EvStat _ => True
  | EvReadFile _ => True
  | EvLog Warning (MsgFileInfoFailed _) => True
  | _ => False
  end.

Definition github_loop_footprint (owner repo : string) (releaseId : Z)
    (ev : Event) : Prop :=
  match ev with
  | EvStat _ => True
  | EvReadFile _ => True
  | EvLog Warning (MsgFileInfoFailed _) => True
  | EvLog Info (MsgGitHubProcessingAsset _ _ _) => True
  | EvLog Warning (MsgGitHubSkipAsset _) => True
  | EvLog Info (MsgGitHubAssetUploaded _ _ _) => True
  | EvOctokitUploadReleaseAsset ow rp rid _ _ =>
      ow = owner /\ rp = repo /\ rid = releaseId
  | _ => False
  end.

(** The events of [publishGitHubRelease] after its first log line. *)
Definition github_body_footprint (w : World) (ev : Event) : Prop :=
  match ev with
  | EvStat _ => True
  | EvReadFile _ => True
  | EvLog Warning (MsgFileInfoFailed _) => True
  | EvLog Info (MsgGitHubProcessingAsset _ _ _) => True
  | EvLog Warning (MsgGitHubSkipAsset _) => True
  | EvLog Info (MsgGitHubAssetUploaded _ _ _) => True
  | EvLog Error (MsgGitHubFailed _) => True
  | EvSetFailed (MsgGitHubFailed _) => True
  | EvOctokitCreateRelease ow rp _ _ _ _ _ =>
      w_context_repo w = Resolved (ow, rp)
  | EvOctokitUploadReleaseAsset ow rp _ _ _ =>
      w_context_repo w = Resolved (ow, rp)
  | _ => False
  end.

Definition gitee_loop_footprint (ev : Event) : Prop :=
  match ev with
  | EvStat _ => True
  | EvReadFile _ => True
  | EvLog Warning (MsgFileInfoFailed _) => True
  | EvLog Info (MsgGiteeProcessingAsset _ _ _) => True
  | EvLog Warning (MsgGiteeSkipAsset _) => True
  | EvLog Info (MsgGiteeAssetUploaded _) => True
  | EvLog Error (MsgGiteeAssetFailed _ _) => True
  | EvGiteeAttachFile _ _ _ _ _ => True
  | _ => False
  end.

(** Steps 1 to 3 of [publishGiteeRelease]. *)
Definition gitee_early_footprint (ev : Event) : Prop :=
  match ev with
  | EvGiteeGetTag _ _ _ _ => True
  | EvGiteePostTag _ _ _ _ _ => True
  | EvGiteePostRelease _ _ _ _ _ _ _ _ => True
  | EvLog Info MsgGiteeTagExists => True
  | EvLog Info MsgGiteeTagNotFound => True
  | EvLog Info MsgGiteeTagCreated => True
  | EvLog Error (MsgGiteeTagError _) => True
  | EvLog Info MsgGiteeReleaseCreated => True
  | EvLog Error (MsgGiteeReleaseError _) => True
  | _ => False
  end.

(** The identifier lookup and its log lines. *)
Definition gitee_lookup_footprint (ev : Event) : Prop :=
  match ev with
  | EvGiteeGetReleaseByTag _ _ _ _ => True
  | EvLog Info (MsgGiteeReleaseId _) => True
  | EvLog Error (MsgGiteeLookupError _) => True
  | _ => False
  end.

(** The validation loop of [main] only logs and sets the failure status. *)
Definition validation_footprint (ev : Event) : Prop :=
  match ev with
  | EvLog Error (MsgUnsupportedPlatform _) => True
  | EvLog Error MsgGitHubTokenMissing => True
  | EvLog Error MsgGiteeParamsMissing => True
  | EvSetFailed (MsgUnsupportedPlatform _) => True
  | EvSetFailed MsgGitHubTokenMissing => True
  | EvSetFailed MsgGiteeParamsMissing => True
  | _ => False
  end.

(** One iteration of the Gitee loop after its "Processing asset" line. *)
Definition gitee_item_footprint (ev : Event) : Prop :=
  match ev with
  | EvStat _ => True
  | EvReadFile _ => True
  | EvLog Warning (MsgFileInfoFailed _) => True
  | EvLog Warning (MsgGiteeSkipAsset _) => True
  | EvLog Info (MsgGiteeAssetUploaded _) => True
  | EvLog Error (MsgGiteeAssetFailed _ _) => True
  | EvGiteeAttachFile _ _ _ _ _ => True
  | _ => False
  end.

(** The outcome of one iteration of the Gitee loop, read off the answers of
    the world: the history [h1] is the one in which [getFileInfo] runs. *)
Definition gitee_iteration_outcome (w : World) (o : GiteeOptions)
    (releaseId : Z) (filePath : string) (h1 : History) (c : Counters) : Counters :=
  match completion (getFileInfo w filePath h1) with
  | Resolved None => incr_skip c
  | Resolved (Some info) =>
      match w_axios w (h1 ++ events (getFileInfo w filePath h1) ++
                       [EvGiteeAttachFile (gt_owner o) (gt_repo o) releaseId
                          (gt_token o) info]) with
      | Resolved _ => incr_success c
      | Rejected _ => incr_fail c
      end
  | Rejected _ => incr_fail c
  end.

(** Step 4 of [publishGiteeRelease]. *)
Definition gitee_assets_footprint (ev : Event) : Prop :=
  gitee_lookup_footprint ev \/ gitee_loop_footprint ev \/
  match ev with
  | EvLog Info (MsgGiteeSummary _ _ _) => True
  | EvLog Info MsgGiteeNoAssets => True
  | _ => False
  end.

Definition is_attach (ev : Event) : bool :=
  match ev with EvGiteeAttachFile _ _ _ _ _ => true | _ => false end.

(* ===================================================================== *)
(** ** Statements that are examined, and concrete runs *)
(* ===================================================================== *)

Definition last_event (h : History) : option Event := last (map Some h) None.

(** The [Stats] of a file of [size] bytes, last modified at a valid date. *)
Definition stats_of (size : Z) : Stats :=
  {| stat_size := size; stat_mtime := DateValue "2024-05-01T10:00:00.000Z" |}.

(** A world whose answers depend on the request alone. *)
Definition scripted_world
    (axios : Event -> Completion AxiosResponse)
    (upload : Event -> Completion unit)
    (stat : Event -> Completion Z) : World :=
  let answer {A : Type} (f : Event -> Completion A) (dflt : Completion A) (h : History) :=
    match last_event h with
    | Some ev => f ev
    | None => dflt
    end in
  {| w_fs := example_fs;
     w_getOctokit := fun token =>
       if truthy token then Resolved tt
       else Rejected {| err_status := None;
                        err_message := "Parameter token or opts.auth is required" |};
     w_context_repo := Resolved ("octo", "demo");
     w_stat := fun h =>
       match answer stat (Resolved 0%Z) h with
       | Resolved size => Resolved (stats_of size)
       | Rejected e => Rejected e
       end;
     w_readFile := fun _ => Resolved "bytes";
     w_createRelease := fun _ =>
       Resolved {| gh_id := 7; gh_html_url := "https://github.com/octo/demo/releases/7" |};
     w_uploadReleaseAsset := answer upload (Resolved tt);
     w_axios := answer axios (Resolved {| resp_data := None |}) |}.

Definition release_42 : AxiosResponse :=
  {| resp_data := Some {| data_id := Some 42%Z |} |}.

Definition http_error (status : Z) : JsError :=
  {| err_status := Some status; err_message := "Request failed" |}.

Definition network_error : JsError :=
  {| err_status := None; err_message := "timeout of 30000ms exceeded" |}.

(** Every call succeeds. *)
Definition quiet_world : World :=
  scripted_world (fun _ => Resolved release_42) (fun _ => Resolved tt)
    (fun _ => Resolved 5%Z).

(** The tag probe is answered by a server error. *)
Definition probe_error_world : World :=
  scripted_world
    (fun ev => match ev with
               | EvGiteeGetTag _ _ _ _ => Rejected (http_error 500)
               | _ => Resolved release_42
               end)
    (fun _ => Resolved tt) (fun _ => Resolved 5%Z).

(** The upload of [b.bin] is refused, on either platform; [/d/gone.bin]
    cannot be read. *)
Definition flaky_upload_world : World :=
  scripted_world
    (fun ev => match ev with
               | EvGiteeAttachFile _ _ _ _ info =>
                   if String.eqb (fi_name info) "b.bin" then Rejected (http_error 502)
                   else Resolved release_42
               | _ => Resolved release_42
               end)
    (fun ev => match ev with
               | EvOctokitUploadReleaseAsset _ _ _ name _ =>
                   if String.eqb name "b.bin" then Rejected (http_error 502)
                   else Resolved tt
               | _ => Resolved tt
               end)
    (fun ev => match ev with
               | EvStat filePath =>
                   if String.eqb filePath "/d/gone.bin" then Rejected network_error
                   else Resolved 5%Z
               | _ => Resolved 5%Z
               end).

Definition example_gitee_options (assetFiles : list string) : GiteeOptions :=
  {| gt_token := "secret";
     gt_owner := "octo";
     gt_repo := "demo";
     gt_tag := "v1.0.0";
     gt_releaseName := "Release v1.0.0";
     gt_body := "";
     gt_prerelease := false;
     gt_targetCommitish := "master";
     gt_assetFiles := assetFiles |}.

Definition example_github_options (assetFiles : list string) : GitHubOptions :=
  {| gh_token := "secret";
     gh_tag := "v1.0.0";
     gh_releaseName := "Release v1.0.0";
     gh_body := "";
     gh_draft := false;
     gh_prerelease := false;
     gh_assetFiles := assetFiles |}.

Definition three_assets : list string := ["/d/a.bin"; "/d/b.bin"; "/d/c.bin"].



(** C2 as the specification words it: when a requested platform is not a
    supported identifier or lacks required configuration, no adapter is
    invoked and no network call is made. *)
Definition preflight_all_or_nothing (w : World) (inp : Inputs) (h : History) : Prop :=
  forall s platform,
    settings_of w inp = Resolved s ->
    In platform (st_syncPlatforms s) ->
    supported_platform platform = false \/ missing_configuration s platform = true ->
    adapters_started (events (main w inp h)) = [] /\
    network_calls (events (main w inp h)) = [].

(** The inputs of a workflow, all supplied; [gitee] tells whether the Gitee
    credentials are. *)
Definition example_inputs (platforms : string) (gitee : bool) : Inputs :=
  {| in_platforms := Resolved platforms;
     in_tag := Resolved "v1.0.0";
     in_release_name := Resolved "Release v1.0.0";
     in_release_body := Resolved "";
     in_draft := Resolved false;
     in_prerelease := Resolved false;
     in_asset_files := Resolved "";
     in_github_token := Resolved "secret";
     in_gitee_token := Resolved (if gitee then "secret" else "");
     in_gitee_owner := Resolved (if gitee then "octo" else "");
     in_gitee_repo := Resolved (if gitee then "demo" else "");
     in_gitee_target_commitish := Resolved "master" |}.

(** A platform list that names a member of [Object.prototype]. *)
Definition prototype_key_inputs : Inputs :=
  example_inputs "github,constructor" false.

(** Both platforms, fully configured. *)
Definition both_platforms_inputs : Inputs :=
  example_inputs "github,gitee" true.

(** GitHub refuses to create the release (the tag has one already). *)
Definition github_refuses_world : World :=
  {| w_fs := example_fs;
     w_getOctokit := fun _ => Resolved tt;
     w_context_repo := Resolved ("octo", "demo");
     w_stat := fun _ => Resolved (stats_of 5);
     w_readFile := fun _ => Resolved "bytes";
     w_createRelease := fun _ => Rejected (http_error 422);
     w_uploadReleaseAsset := fun _ => Resolved tt;
     w_axios := fun _ => Resolved release_42 |}.

Definition four_assets : list string :=
  ["/d/a.bin"; "/d/gone.bin"; "/d/b.bin"; "/d/c.bin"].

(* ===================================================================== *)
(** ** Further observations *)
(* ===================================================================== *)

Fixpoint has_space (s : string) : bool :=
  match s with
  | EmptyString => false
  | String c s' => is_space c || has_space s'
  end.

(** Only separators: commas and white space. *)
Fixpoint only_separators (s : string) : bool :=
  match s with
  | EmptyString => true
  | String c s' => (Ascii.eqb c "," || is_space c) && only_separators s'
  end.

Fixpoint only_spaces (s : string) : bool :=
  match s with
  | EmptyString => true
  | String c s' => is_space c && only_spaces s'
  end.

Definition is_github_create (ev : Event) : bool :=
  match ev with EvOctokitCreateRelease _ _ _ _ _ _ _ => true | _ => false end.

Definition is_gitee_release_create (ev : Event) : bool :=
  match ev with EvGiteePostRelease _ _ _ _ _ _ _ _ => true | _ => false end.

Definition is_file_read (ev : Event) : bool :=
  match ev with
  | EvStat _ => true
  | EvReadFile _ => true
  | _ => false
  end.

(** The "Skipping asset" warning of the simple adapter. *)
Definition is_github_skip (ev : Event) : bool :=
  match ev with EvLog Warning (MsgGitHubSkipAsset _) => true | _ => false end.

(** The "skipping this file" warning of the reconciling adapter. *)
Definition is_gitee_skip (ev : Event) : bool :=
  match ev with EvLog Warning (MsgGiteeSkipAsset _) => true | _ => false end.

Definition is_workflow_completed (ev : Event) : bool :=
  match ev with EvLog Info MsgWorkflowCompleted => true | _ => false end.

(** An upload request of the simple adapter goes to release [releaseId]
    under the base name of one of [files]. *)
Definition github_upload_of (files : list string) (releaseId : Z) (ev : Event) : Prop :=
  match ev with
  | EvOctokitUploadReleaseAsset _ _ rid name _ =>
      rid = releaseId /\ In name (map basename files)
  | _ => True
  end.

(** An attach request of the reconciling adapter goes to release
    [releaseId] of the configured repository, with the configured token and
    a file of [files] under its base name. *)
Definition gitee_attach_of (o : GiteeOptions) (releaseId : Z) (ev : Event) : Prop :=
  match ev with
  | EvGiteeAttachFile owner repo rid token info =>
      owner = gt_owner o /\ repo = gt_repo o /\ rid = releaseId /\
      token = gt_token o /\ In (fi_name info) (map basename (gt_assetFiles o))
  | _ => True
  end.

(** The message of the [return] statement that the validation loop takes
    for a platform it rejects: the tests come in the order of the source. *)
Definition config_error_of (s : Settings) (platform : string) : Message :=
  match platforms_get platform with
  | None => MsgUnsupportedPlatform platform
  | Some _ =>
      if String.eqb platform "github" && negb (truthy (st_githubToken s))
      then MsgGitHubTokenMissing
      else MsgGiteeParamsMissing
  end.

(** The events of [publishGiteeRelease] after its first log line. *)
Definition gitee_run_footprint (ev : Event) : Prop :=
  gitee_early_footprint ev \/ gitee_assets_footprint ev \/
  match ev with
  | EvLog Info MsgGiteeSuccess => True
  | EvLog Error (MsgGiteeFatal _) => True
  | _ => False
  end.

(** The tag is absent and cannot be created. *)
Definition tag_create_fails_world : World :=
  scripted_world
    (fun ev => match ev with
               | EvGiteeGetTag _ _ _ _ => Rejected (http_error 404)
               | EvGiteePostTag _ _ _ _ _ => Rejected (http_error 400)
               | _ => Resolved release_42
               end)
    (fun _ => Resolved tt) (fun _ => Resolved 5%Z).

(** The tag exists, and the release cannot be created. *)
Definition release_create_fails_world : World :=
  scripted_world
    (fun ev => match ev with
               | EvGiteePostRelease _ _ _ _ _ _ _ _ => Rejected (http_error 400)
               | _ => Resolved release_42
               end)
    (fun _ => Resolved tt) (fun _ => Resolved 5%Z).

(** The last log line of a successful run of the reconciling adapter. *)
Definition is_gitee_success (ev : Event) : bool :=
  match ev with EvLog Info MsgGiteeSuccess => true | _ => false end.

(** An event that neither sets the failure status nor is one of the two
    closing lines. *)
Definition plain_event (ev : Event) : Prop :=
  is_set_failed ev = false /\ is_workflow_completed ev = false /\
  is_gitee_success ev = false.

(** The events of [getFileInfo] hold no request and no line of the loops. *)
Definition no_attach_no_skip (ev : Event) : Prop :=
  is_attach ev = false /\ is_gitee_skip ev = false.

(** The identifier that the lookup of the reconciling adapter logs. *)
Definition gitee_release_id_line (ev : Event) : option Z :=
  match ev with
  | EvLog Info (MsgGiteeReleaseId releaseId) => Some releaseId
  | _ => None
  end.

(** The counters of the summary line of the reconciling adapter. *)
Definition gitee_summary_line (ev : Event) : option Counters :=
  match ev with
  | EvLog Info (MsgGiteeSummary success skip fail) =>
      Some {| successCount := success; skipCount := skip; failCount := fail |}
  | _ => None
  end.


(** The log line of [getFileInfo] cannot be built from this answer of
    [stat]: its [mtime] is an invalid date. *)
Definition mtime_rejected (stat : Completion Stats) : bool :=
  match stat with
  | Resolved fileStat => is_rejected (toISOString (stat_mtime fileStat))
  | Rejected _ => false
  end.

(** Every file can be read, and [stat] reports an invalid modification
    date. *)
Definition invalid_mtime_world : World :=
  {| w_fs := example_fs;
     w_getOctokit := fun _ => Resolved tt;
     w_context_repo := Resolved ("octo", "demo");
     w_stat := fun _ => Resolved {| stat_size := 5; stat_mtime := InvalidDate |};
     w_readFile := fun _ => Resolved "bytes";
     w_createRelease := fun _ =>
       Resolved {| gh_id := 7; gh_html_url := "https://github.com/octo/demo/releases/7" |};
     w_uploadReleaseAsset := fun _ => Resolved tt;
     w_axios := fun _ => Resolved release_42 |}.

(** The resolver as the specification describes it: on every input it
    returns a list, without repetition, of absolute paths that exist. *)
Definition resolver_best_effort (fs : FileSystem) (assetInput : string) : Prop :=
  exists r,
    resolveAssetFiles fs assetInput = Resolved r /\
    NoDup r /\
    forall p, In p r -> is_absolute p = true /\ exists_sync fs p = true.

(** The path of a [stat] call. *)
Definition stat_path (ev : Event) : option string :=
  match ev with EvStat filePath => Some filePath | _ => None end.

(** The warning of [getFileInfo] when it returns [null]. *)
Definition is_file_info_failed (ev : Event) : bool :=
  match ev with EvLog Warning (MsgFileInfoFailed _) => true | _ => false end.

(** No platform is requested, and the asset input is one pattern that
    [glob] refuses. *)
Definition long_pattern_inputs : Inputs :=
  {| in_platforms := Resolved " , ,";
     in_tag := Resolved "v1.0.0";
     in_release_name := Resolved "Release v1.0.0";
     in_release_body := Resolved "";
     in_draft := Resolved false;
     in_prerelease := Resolved false;
     in_asset_files := Resolved long_pattern;
     in_github_token := Resolved "secret";
     in_gitee_token := Resolved "";
     in_gitee_owner := Resolved "";
     in_gitee_repo := Resolved "";
     in_gitee_target_commitish := Resolved "master" |}.

(* ===================================================================== *)
(** * Properties *)
(* ===================================================================== *)

(** ** Strings *)

Lemma is_space_lower_char : forall c, is_space (lower_char c) = is_space c.
Proof. intros c. destruct c as [[] [] [] [] [] [] [] []]; reflexivity. Qed.

Lemma is_upper_lower_char : forall c, is_upper (lower_char c) = false.
Proof. intros c. destruct c as [[] [] [] [] [] [] [] []]; reflexivity. Qed.

Lemma has_upper_toLowerCase : forall s, has_upper (toLowerCase s) = false.
Proof.
  induction s as [|c s IH]; simpl; [reflexivity|].
  now rewrite is_upper_lower_char, IH.
Qed.

Lemma first_char_toLowerCase : forall s,
  opt_space (first_char (toLowerCase s)) = opt_space (first_char s).
Proof. destruct s; simpl; [reflexivity | apply is_space_lower_char]. Qed.

Lemma last_char_toLowerCase : forall s,
  opt_space (last_char (toLowerCase s)) = opt_space (last_char s).
Proof.
  induction s as [|c s IH]; [reflexivity|].
  destruct s as [|d s']; [apply is_space_lower_char|].
  exact IH.
Qed.

Lemma is_trimmed_toLowerCase : forall s, is_trimmed (toLowerCase s) = is_trimmed s.
Proof.
  intros s. unfold is_trimmed.
  now rewrite first_char_toLowerCase, last_char_toLowerCase.
Qed.

Lemma first_char_trimStart : forall s, opt_space (first_char (trimStart s)) = false.
Proof.
  induction s as [|c s IH]; simpl; [reflexivity|].
  destruct (is_space c) eqn:E; [exact IH | simpl; exact E].
Qed.

Lemma last_char_trimEnd : forall s, opt_space (last_char (trimEnd s)) = false.
Proof.
  induction s as [|c s IH]; simpl; [reflexivity|].
  destruct (trimEnd s) as [|d r] eqn:E.
  - destruct (is_space c) eqn:Ec; simpl; [reflexivity | exact Ec].
  - exact IH.
Qed.

Lemma first_char_trimEnd : forall s,
  opt_space (first_char s) = false -> opt_space (first_char (trimEnd s)) = false.
Proof.
  intros [|c s] H; simpl in *; [reflexivity|].
  destruct (trimEnd s); [rewrite H|]; simpl; auto.
Qed.

Lemma is_trimmed_trim : forall s, is_trimmed (trim s) = true.
Proof.
  intros s. unfold is_trimmed, trim.
  rewrite last_char_trimEnd, first_char_trimEnd by apply first_char_trimStart.
  reflexivity.
Qed.

Lemma split_char_no_sep : forall sep s,
  contains_char sep s = false -> split_char sep s = [s].
Proof.
  induction s as [|c s IH]; simpl; intros H; [reflexivity|].
  apply orb_false_iff in H. destruct H as [Hc Hs].
  rewrite Hc, (IH Hs). reflexivity.
Qed.

Lemma split_char_app_sep : forall sep s rest,
  contains_char sep s = false ->
  split_char sep (s ++ String sep rest) = s :: split_char sep rest.
Proof.
  induction s as [|c s IH]; simpl; intros rest H.
  - now rewrite Ascii.eqb_refl.
  - apply orb_false_iff in H. destruct H as [Hc Hs].
    rewrite Hc, (IH rest Hs). reflexivity.
Qed.

(** Splitting undoes joining when no item holds the separator. *)
Lemma split_char_join_char : forall sep items,
  items <> [] ->
  (forall i, In i items -> contains_char sep i = false) ->
  split_char sep (join_char sep items) = items.
Proof.
  intros sep items. induction items as [|w ws IH]; intros Hne Hall; [congruence|].
  destruct ws as [|w' ws'].
  - simpl. apply split_char_no_sep. apply Hall. now left.
  - change (join_char sep (w :: w' :: ws'))
      with (w ++ String sep (join_char sep (w' :: ws')))%string.
    rewrite split_char_app_sep by (apply Hall; now left).
    f_equal. apply IH; [discriminate|].
    intros i Hi. apply Hall. now right.
Qed.

Lemma parsePlatforms_entry : forall raw p,
  In p (parsePlatforms raw) ->
  truthy p = true /\ is_trimmed p = true /\ has_upper p = false.
Proof.
  intros raw p H. unfold parsePlatforms in H.
  apply filter_In in H. destruct H as [Hin Ht].
  apply in_map_iff in Hin. destruct Hin as [item [<- _]].
  split; [exact Ht|]. split.
  - rewrite is_trimmed_toLowerCase. apply is_trimmed_trim.
  - apply has_upper_toLowerCase.
Qed.

(** ** The asset resolver *)

Lemma mem_string_In : forall x l, mem_string x l = true <-> In x l.
Proof.
  intros x l. unfold mem_string. rewrite existsb_exists. split.
  - intros [y [Hy He]]. apply String.eqb_eq in He. now subst.
  - intros H. exists x. split; [exact H | apply String.eqb_refl].
Qed.

Lemma indexOf_from_first : forall pre x rest i,
  ~ In x pre ->
  indexOf_from i (pre ++ x :: rest) x = (i + Z.of_nat (length pre))%Z.
Proof.
  induction pre as [|y pre IH]; intros x rest i Hn; simpl.
  - rewrite String.eqb_refl. lia.
  - destruct (String.eqb y x) eqn:E.
    + apply String.eqb_eq in E. exfalso. apply Hn. now left.
    + rewrite IH by (intros H; apply Hn; now right). lia.
Qed.

Lemma indexOf_from_in_prefix : forall pre x rest i,
  In x pre ->
  (indexOf_from i (pre ++ rest) x < i + Z.of_nat (length pre))%Z.
Proof.
  induction pre as [|y pre IH]; intros x rest i Hin; [destruct Hin|].
  simpl. destruct (String.eqb y x) eqn:E; [lia|].
  destruct Hin as [->|Hin]; [rewrite String.eqb_refl in E; discriminate|].
  specialize (IH x rest (i + 1)%Z Hin). lia.
Qed.

(** At the position right after [pre], a path is kept exactly when it
    exists and did not occur in [pre]. *)
Lemma keep_asset_at : forall fs pre x rest,
  keep_asset fs (pre ++ x :: rest) x (Z.of_nat (length pre)) =
  exists_sync fs x && negb (mem_string x pre).
Proof.
  intros fs pre x rest. unfold keep_asset.
  destruct (exists_sync fs x); simpl; [|reflexivity].
  destruct (mem_string x pre) eqn:M; simpl.
  - apply mem_string_In in M.
    pose proof (indexOf_from_in_prefix pre x (x :: rest) 0 M) as Hlt.
    unfold indexOf.
    destruct (Z.eqb_spec (indexOf_from 0 (pre ++ x :: rest) x) (Z.of_nat (length pre)));
      [lia | reflexivity].
  - assert (Hn : ~ In x pre).
    { intros H. apply mem_string_In in H. congruence. }
    unfold indexOf. rewrite indexOf_from_first by exact Hn.
    rewrite Z.add_0_l, Z.eqb_refl. reflexivity.
Qed.

Lemma filter_index_from_scan : forall fs l pre,
  let r := filter_index_from (keep_asset fs (pre ++ l)) (Z.of_nat (length pre)) l in
  NoDup r /\
  Subseq r l /\
  (forall p, In p r <-> In p l /\ exists_sync fs p = true /\ ~ In p pre).
Proof.
  intros fs l. induction l as [|x l IH]; intros pre; simpl.
  - split; [constructor|]. split; [constructor|].
    intros p. split; [intros [] | intros [[] _]].
  - rewrite keep_asset_at.
    specialize (IH (pre ++ [x])).
    rewrite <- app_assoc in IH. simpl in IH.
    rewrite length_app in IH. simpl in IH.
    replace (Z.of_nat (length pre + 1)) with (Z.of_nat (length pre) + 1)%Z in IH by lia.
    destruct IH as [Hnd [Hsub Hin]].
    assert (Hx : ~ In x (filter_index_from (keep_asset fs (pre ++ x :: l))
                           (Z.of_nat (length pre) + 1) l)).
    { intros H. apply Hin in H. destruct H as [_ [_ H]].
      apply H. apply in_or_app. right. now left. }
    destruct (exists_sync fs x && negb (mem_string x pre)) eqn:K.
    + apply andb_true_iff in K. destruct K as [Kex Kpre].
      apply negb_true_iff in Kpre.
      split; [constructor; assumption|].
      split; [constructor; assumption|].
      intros p. simpl. rewrite Hin. split.
      * intros [<-|[Hl [He Hp]]].
        -- split; [now left|]. split; [exact Kex|].
           intros H. apply mem_string_In in H. congruence.
        -- split; [now right|]. split; [exact He|].
           intros H. apply Hp. apply in_or_app. now left.
      * intros [[<-|Hl] [He Hp]]; [now left|].
        destruct (string_dec x p) as [<-|Hne]; [now left|].
        right. split; [exact Hl|]. split; [exact He|].
        intros H. apply in_app_or in H. destruct H as [H|[H|[]]]; auto.
    + split; [assumption|].
      split; [constructor; assumption|].
      intros p. rewrite Hin. split.
      * intros [Hl [He Hp]].
        split; [now right|]. split; [exact He|].
        intros H. apply Hp. apply in_or_app. now left.
      * intros [[<-|Hl] [He Hp]].
        -- exfalso. rewrite He in K. simpl in K.
           apply negb_false_iff in K. apply mem_string_In in K. auto.
        -- split; [exact Hl|]. split; [exact He|].
           intros H. apply in_app_or in H. destruct H as [H|[H|[]]]; auto.
           subst p. rewrite He in K. simpl in K.
           apply negb_false_iff in K. apply mem_string_In in K. auto.
Qed.

Lemma filter_index_from_ext : forall (f g : string -> Z -> bool) l i,
  (forall x j, f x j = g x j) ->
  filter_index_from f i l = filter_index_from g i l.
Proof.
  intros f g l. induction l as [|x l IH]; intros i H; simpl; [reflexivity|].
  rewrite (H x i), (IH (i + 1)%Z H). reflexivity.
Qed.

(** ** Running actions *)

Lemma bind_run : forall (A B : Type) (m : Act A) (k : A -> Act B) h,
  bind m k h =
  match completion (m h) with
  | Resolved a =>
      (completion (k a (h ++ events (m h))),
       events (m h) ++ events (k a (h ++ events (m h))))
  | Rejected e => (Rejected e, events (m h))
  end.
Proof.
  intros A B m k h. unfold bind, completion, events.
  destruct (m h) as [[a|e] out1]; simpl; [|reflexivity].
  destruct (k a (h ++ out1)); reflexivity.
Qed.

Lemma try_catch_run : forall (A : Type) (m : Act A) (handler : JsError -> Act A) h,
  try_catch m handler h =
  match completion (m h) with
  | Resolved a => (Resolved a, events (m h))
  | Rejected e =>
      (completion (handler e (h ++ events (m h))),
       events (m h) ++ events (handler e (h ++ events (m h))))
  end.
Proof.
  intros A m handler h. unfold try_catch, completion, events.
  destruct (m h) as [[a|e] out1]; simpl; [reflexivity|].
  destruct (handler e (h ++ out1)); reflexivity.
Qed.

Lemma bind_emit : forall (A : Type) ev (k : unit -> Act A) h,
  bind (emit ev) k h =
  (completion (k tt (h ++ [ev])), ev :: events (k tt (h ++ [ev]))).
Proof. intros. rewrite bind_run. reflexivity. Qed.

Lemma bind_resolved : forall (A B : Type) (m : Act A) (k : A -> Act B) h a out1,
  m h = (Resolved a, out1) ->
  bind m k h = (completion (k a (h ++ out1)), out1 ++ events (k a (h ++ out1))).
Proof. intros A B m k h a out1 H. rewrite bind_run, H. reflexivity. Qed.


Lemma pick_app : forall (A B : Type) (f : A -> option B) l1 l2,
  pick f (l1 ++ l2) = pick f l1 ++ pick f l2.
Proof.
  intros A B f l1 l2. induction l1 as [|x l1 IH]; simpl; [reflexivity|].
  destruct (f x); simpl; now rewrite IH.
Qed.

Lemma pick_none : forall (A B : Type) (f : A -> option B) l,
  Forall (fun x => f x = None) l -> pick f l = [].
Proof.
  intros A B f l H. induction H as [|x l Hx _ IH]; simpl; [reflexivity|].
  now rewrite Hx.
Qed.

Lemma filter_none : forall (A : Type) (f : A -> bool) l,
  Forall (fun x => f x = false) l -> filter f l = [].
Proof.
  intros A f l H. induction H as [|x l Hx _ IH]; simpl; [reflexivity|].
  now rewrite Hx.
Qed.

(** *** What an action can emit *)

Section Footprints.

Variable P : Event -> Prop.

Lemma emits_only_ret : forall (A : Type) (a : A), emits_only P (ret a).
Proof. intros A a h. constructor. Qed.

Lemma emits_only_throw : forall (A : Type) e, emits_only P (@throw A e).
Proof. intros A e h. constructor. Qed.

Lemma emits_only_lift : forall (A : Type) (c : Completion A), emits_only P (lift c).
Proof. intros A c h. constructor. Qed.

Lemma emits_only_emit : forall ev, P ev -> emits_only P (emit ev).
Proof. intros ev H h. simpl. constructor; [exact H | constructor]. Qed.

Lemma emits_only_ask : forall (A : Type) (oracle : History -> Completion A) request,
  P request -> emits_only P (ask oracle request).
Proof. intros A oracle request H h. simpl. constructor; [exact H | constructor]. Qed.

Lemma emits_only_bind_dep : forall (A B : Type) (m : Act A) (k : A -> Act B),
  emits_only P m ->
  (forall a h, completion (m h) = Resolved a -> emits_only P (k a)) ->
  emits_only P (bind m k).
Proof.
  intros A B m k Hm Hk h. rewrite bind_run.
  destruct (completion (m h)) as [a|e] eqn:E; simpl.
  - apply Forall_app. split; [apply Hm | eapply Hk; eassumption].
  - apply Hm.
Qed.

Lemma emits_only_bind : forall (A B : Type) (m : Act A) (k : A -> Act B),
  emits_only P m ->
  (forall a, emits_only P (k a)) ->
  emits_only P (bind m k).
Proof. intros A B m k Hm Hk. apply emits_only_bind_dep; auto. Qed.

Lemma emits_only_try_catch : forall (A : Type) (m : Act A) handler,
  emits_only P m ->
  (forall e, emits_only P (handler e)) ->
  emits_only P (try_catch m handler).
Proof.
  intros A m handler Hm Hh h. rewrite try_catch_run.
  destruct (completion (m h)) as [a|e]; simpl.
  - apply Hm.
  - apply Forall_app. split; [apply Hm | apply Hh].
Qed.

End Footprints.

Lemma emits_only_weaken : forall (A : Type) (P Q : Event -> Prop) (m : Act A),
  (forall ev, P ev -> Q ev) -> emits_only P m -> emits_only Q m.
Proof. intros A P Q m H Hm h. eapply Forall_impl; [exact H | apply Hm]. Qed.

(** Walk through an action built from the primitives. *)
Ltac footprint_step :=
  first
    [ apply emits_only_ret
    | apply emits_only_throw
    | apply emits_only_lift
    | apply emits_only_emit
    | apply emits_only_ask
    | apply emits_only_bind; [|intros]
    | apply emits_only_try_catch; [|intros]
    | match goal with
      | |- emits_only _ (match ?x with _ => _ end) => destruct x
      | |- emits_only _ (if ?x then _ else _) => destruct x
      end ].

Ltac footprint := repeat footprint_step.

(** Derive a property of events from a footprint by cases on the event. *)
Ltac by_cases_on_event :=
  let ev := fresh "ev" in
  intros ev;
  destruct ev as [[] []|[]| | | | | | | | |];
  simpl; intros; try contradiction; try tauto; try reflexivity; try discriminate.

(** ** getFileInfo *)

Section FileInfo.

Variable w : World.

Lemma getFileInfo_footprint : forall filePath,
  emits_only fs_footprint (getFileInfo w filePath).
Proof. intros filePath. unfold getFileInfo. footprint; exact I. Qed.

Lemma getFileInfo_never_throws : forall filePath,
  never_throws (getFileInfo w filePath).
Proof.
  intros filePath h. unfold getFileInfo.
  unfold try_catch, bind, ask, ret, emit, completion. simpl.
  destruct (w_stat w (h ++ [EvStat filePath])) as [fileStat|e]; simpl; [|reflexivity].
  destruct (w_readFile w _); simpl; [|reflexivity].
  destruct (toISOString (stat_mtime fileStat)); reflexivity.
Qed.

Lemma getFileInfo_resolves : forall filePath h,
  exists info, completion (getFileInfo w filePath h) = Resolved info.
Proof.
  intros filePath h. pose proof (getFileInfo_never_throws filePath h) as H.
  destruct (completion (getFileInfo w filePath h)) as [info|e];
    [now exists info | discriminate].
Qed.

End FileInfo.

(** ** The Gitee upload loop *)

Section GiteeLoop.

Variable w : World.

Lemma gitee_item_is_loop_footprint : forall ev,
  gitee_item_footprint ev -> gitee_loop_footprint ev.
Proof. by_cases_on_event. Qed.

(** One iteration logs its line, never throws, and moves exactly one
    counter. *)
Lemma gitee_upload_one_run : forall o releaseId total i filePath c h,
  let mark := EvLog Info (MsgGiteeProcessingAsset (i + 1) total filePath) in
  exists out,
    gitee_upload_one w o releaseId total i filePath c h =
      (Resolved (gitee_iteration_outcome w o releaseId filePath (h ++ [mark]) c),
       mark :: out) /\
    Forall gitee_item_footprint out.
Proof.
  intros o releaseId total i filePath c h mark.
  unfold gitee_upload_one. fold mark. rewrite bind_emit.
  unfold gitee_iteration_outcome.
  pose proof (getFileInfo_footprint w filePath (h ++ [mark])) as Hfp.
  destruct (getFileInfo_resolves w filePath (h ++ [mark])) as [info Hinfo].
  rewrite try_catch_run, bind_run, Hinfo.
  assert (Hfp' : Forall gitee_item_footprint (events (getFileInfo w filePath (h ++ [mark])))).
  { eapply Forall_impl; [|exact Hfp]. by_cases_on_event. }
  destruct info as [info|].
  - rewrite !bind_run. unfold ask at 1 2 3. simpl completion. simpl events at 2 4.
    rewrite <- app_assoc.
    destruct (w_axios w _) as [resp|e]; simpl.
    + eexists. split; [reflexivity|].
      rewrite !Forall_app. repeat split; try exact Hfp'; repeat constructor.
    + eexists. split; [reflexivity|].
      rewrite !Forall_app. repeat split; try exact Hfp'; repeat constructor.
  - simpl. eexists. split; [reflexivity|].
    rewrite !Forall_app. repeat split; try exact Hfp'; repeat constructor.
Qed.

Lemma counted_iteration_outcome : forall o releaseId filePath h1 c,
  counted (gitee_iteration_outcome w o releaseId filePath h1 c) = S (counted c).
Proof.
  intros o releaseId filePath h1 c. unfold gitee_iteration_outcome.
  destruct (completion (getFileInfo w filePath h1)) as [[info|]|e];
    try destruct (w_axios w _);
    unfold counted, incr_success, incr_skip, incr_fail; simpl; lia.
Qed.

(** The loop visits every asset, whatever happens to the ones before it,
    and its counters grow by the number of assets. *)
Lemma gitee_upload_loop_run : forall o releaseId total files i c h,
  exists c' out,
    gitee_upload_loop w o releaseId total i files c h = (Resolved c', out) /\
    counted c' = counted c + length files /\
    gitee_attempted out = files /\
    Forall gitee_loop_footprint out.
Proof.
  intros o releaseId total files.
  induction files as [|filePath rest IH]; intros i c h.
  - exists c, []. simpl. repeat split; [lia | constructor].
  - simpl gitee_upload_loop.
    destruct (gitee_upload_one_run o releaseId total i filePath c h) as [out1 [Hone Hfp1]].
    rewrite (bind_resolved _ _ _ Hone).
    match goal with
    | |- context [gitee_upload_loop w o releaseId total (S i) rest ?c1 ?h1] =>
        destruct (IH (S i) c1 h1) as [c' [out2 [Hrest [Hcount [Hatt Hfp2]]]]];
        rewrite Hrest
    end.
    simpl completion. simpl events.
    eexists. eexists. split; [reflexivity|]. split; [|split].
    + rewrite Hcount, counted_iteration_outcome. simpl. lia.
    + unfold gitee_attempted in *. simpl. rewrite pick_app, Hatt.
      rewrite pick_none; [reflexivity|].
      eapply Forall_impl; [|exact Hfp1]. by_cases_on_event.
    + constructor; [exact I|]. apply Forall_app. split; [|exact Hfp2].
      eapply Forall_impl; [|exact Hfp1]. apply gitee_item_is_loop_footprint.
Qed.

Lemma gitee_upload_assets_run : forall o releaseId h,
  exists c out,
    gitee_upload_assets w o releaseId h =
      (Resolved c,
       out ++ [EvLog Info (MsgGiteeSummary (successCount c) (skipCount c) (failCount c))]) /\
    counted c = length (gt_assetFiles o) /\
    gitee_attempted out = gt_assetFiles o /\
    Forall gitee_loop_footprint out.
Proof.
  intros o releaseId h. unfold gitee_upload_assets.
  destruct (gitee_upload_loop_run o releaseId (length (gt_assetFiles o))
              (gt_assetFiles o) 0 no_counts h) as [c [out [Hloop [Hcount [Hatt Hfp]]]]].
  exists c, out. rewrite (bind_resolved _ _ _ Hloop), bind_emit. simpl.
  repeat split; assumption.
Qed.

(** The probe of step 1 decides what the step does. *)
Lemma gitee_reconcile_tag_run : forall o h,
  let probe := EvGiteeGetTag (gt_owner o) (gt_repo o) (gt_tag o) (gt_token o) in
  let create := EvGiteePostTag (gt_owner o) (gt_repo o) (gt_token o) (gt_tag o)
                  (gt_targetCommitish o) in
  gitee_reconcile_tag w o h =
  match w_axios w (h ++ [probe]) with
  | Resolved _ => (Resolved tt, [probe; EvLog Info MsgGiteeTagExists])
  | Rejected error =>
      if status_is error 404 then
        match w_axios w (h ++ [probe; EvLog Info MsgGiteeTagNotFound; create]) with
        | Resolved _ =>
            (Resolved tt,
             [probe; EvLog Info MsgGiteeTagNotFound; create; EvLog Info MsgGiteeTagCreated])
        | Rejected e => (Rejected e, [probe; EvLog Info MsgGiteeTagNotFound; create])
        end
      else (Rejected error, [probe; EvLog Error (MsgGiteeTagError error)])
  end.
Proof.
  intros o h probe create. unfold gitee_reconcile_tag. fold probe. fold create.
  unfold try_catch, bind, ask, emit, throw. simpl.
  destruct (w_axios w (h ++ [probe])) as [resp|error]; [reflexivity|].
  destruct (status_is error 404); [|reflexivity].
  simpl. rewrite <- !app_assoc. simpl.
  destruct (w_axios w _); reflexivity.
Qed.

Lemma gitee_create_release_run : forall o h,
  let create := EvGiteePostRelease (gt_owner o) (gt_repo o) (gt_token o) (gt_tag o)
                  (gt_releaseName o) (gt_body o) (gt_prerelease o)
                  (gt_targetCommitish o) in
  gitee_create_release w o h =
  match w_axios w (h ++ [create]) with
  | Resolved _ => (Resolved tt, [create; EvLog Info MsgGiteeReleaseCreated])
  | Rejected e => (Rejected e, [create; EvLog Error (MsgGiteeReleaseError e)])
  end.
Proof.
  intros o h create. unfold gitee_create_release. fold create.
  unfold try_catch, bind, ask, emit, throw. simpl.
  destruct (w_axios w (h ++ [create])); reflexivity.
Qed.

Lemma gitee_lookup_release_id_run : forall o h,
  let lookup := EvGiteeGetReleaseByTag (gt_owner o) (gt_repo o) (gt_tag o) (gt_token o) in
  gitee_lookup_release_id w o h =
  match w_axios w (h ++ [lookup]) with
  | Resolved response =>
      match response_release_id response with
      | Some releaseId =>
          (Resolved releaseId, [lookup; EvLog Info (MsgGiteeReleaseId releaseId)])
      | None =>
          (Rejected invalid_release_id,
           [lookup; EvLog Error (MsgGiteeLookupError invalid_release_id)])
      end
  | Rejected e => (Rejected e, [lookup; EvLog Error (MsgGiteeLookupError e)])
  end.
Proof.
  intros o h lookup. unfold gitee_lookup_release_id. fold lookup.
  unfold try_catch, bind, ask, emit, throw, ret. simpl.
  destruct (w_axios w (h ++ [lookup])) as [response|e]; [|reflexivity].
  destruct (response_release_id response); reflexivity.
Qed.


(** The adapter as the sequence of its steps: a step that throws ends the
    run with the "fatal" line, and the events of the steps before it stay. *)
Lemma publishGiteeRelease_phases : forall o h,
  let start := EvLog Info MsgGiteeStart in
  let h0 := h ++ [start] in
  let rA := gitee_reconcile_tag w o h0 in
  let rB := gitee_create_release w o (h0 ++ events rA) in
  let rC := gitee_assets_step w o ((h0 ++ events rA) ++ events rB) in
  publishGiteeRelease w o h =
  match completion rA with
  | Rejected e => (Rejected e, start :: events rA ++ [EvLog Error (MsgGiteeFatal e)])
  | Resolved _ =>
      match completion rB with
      | Rejected e =>
          (Rejected e,
           start :: events rA ++ events rB ++ [EvLog Error (MsgGiteeFatal e)])
      | Resolved _ =>
          match completion rC with
          | Rejected e =>
              (Rejected e,
               start :: events rA ++ events rB ++ events rC ++
               [EvLog Error (MsgGiteeFatal e)])
          | Resolved _ =>
              (Resolved tt,
               start :: events rA ++ events rB ++ events rC ++
               [EvLog Info MsgGiteeSuccess])
          end
      end
  end.
Proof.
  intros o h start h0 rA rB rC.
  unfold publishGiteeRelease, gitee_try_body. fold start.
  rewrite try_catch_run, bind_emit. fold h0.
  rewrite bind_run. fold rA.
  destruct (completion rA) as [[]|eA]; simpl completion; simpl events.
  - rewrite bind_run. fold rB.
    destruct (completion rB) as [[]|eB]; simpl completion; simpl events.
    + rewrite bind_run. fold rC.
      destruct (completion rC) as [[]|eC]; simpl completion; simpl events.
      * reflexivity.
      * unfold bind, emit, throw. simpl. rewrite <- !app_assoc. reflexivity.
    + unfold bind, emit, throw. simpl. rewrite <- !app_assoc. reflexivity.
  - unfold bind, emit, throw. simpl. reflexivity.
Qed.


Lemma gitee_assets_step_run : forall o h,
  let rL := gitee_lookup_release_id w o h in
  gitee_assets_step w o h =
  match gt_assetFiles o with
  | [] => (Resolved tt, [EvLog Info MsgGiteeNoAssets])
  | _ :: _ =>
      match completion rL with
      | Rejected e => (Rejected e, events rL)
      | Resolved releaseId =>
          (Resolved tt,
           events rL ++ events (gitee_upload_assets w o releaseId (h ++ events rL)))
      end
  end.
Proof.
  intros o h rL. unfold gitee_assets_step.
  destruct (gt_assetFiles o) as [|filePath rest] eqn:Hfiles; [reflexivity|].
  change (Nat.ltb 0 (length (filePath :: rest))) with true. cbv iota.
  rewrite bind_run. fold rL.
  destruct (completion rL) as [releaseId|e]; [|reflexivity].
  destruct (gitee_upload_assets_run o releaseId (h ++ events rL)) as [c [out [Hrun _]]].
  rewrite (bind_resolved _ _ _ Hrun), Hrun. simpl.
  rewrite app_nil_r. reflexivity.
Qed.

Lemma gitee_reconcile_tag_footprint : forall o,
  emits_only gitee_early_footprint (gitee_reconcile_tag w o).
Proof. intros o. unfold gitee_reconcile_tag. footprint; exact I. Qed.

Lemma gitee_create_release_footprint : forall o,
  emits_only gitee_early_footprint (gitee_create_release w o).
Proof. intros o. unfold gitee_create_release. footprint; exact I. Qed.

Lemma gitee_lookup_release_id_footprint : forall o,
  emits_only gitee_lookup_footprint (gitee_lookup_release_id w o).
Proof. intros o. unfold gitee_lookup_release_id. footprint; exact I. Qed.

Lemma gitee_assets_step_footprint : forall o,
  emits_only gitee_assets_footprint (gitee_assets_step w o).
Proof.
  intros o h. rewrite gitee_assets_step_run.
  destruct (gt_assetFiles o) as [|filePath rest].
  - simpl. constructor; [|constructor]. right. right. exact I.
  - pose proof (gitee_lookup_release_id_footprint o h) as HL.
    assert (HL' : Forall gitee_assets_footprint (events (gitee_lookup_release_id w o h))).
    { eapply Forall_impl; [|exact HL]. intros ev H. now left. }
    destruct (completion (gitee_lookup_release_id w o h)) as [releaseId|e];
      [|exact HL'].
    simpl. apply Forall_app. split; [exact HL'|].
    destruct (gitee_upload_assets_run o releaseId
                (h ++ events (gitee_lookup_release_id w o h)))
      as [c [out [Hrun [_ [_ Hfp]]]]].
    rewrite Hrun. simpl. apply Forall_app. split.
    + eapply Forall_impl; [|exact Hfp]. intros ev H. right. now left.
    + constructor; [|constructor]. right. right. exact I.
Qed.

End GiteeLoop.

(** From a footprint to a projection of the trace. *)
Lemma footprint_filter_nil : forall (A : Type) (P : Event -> Prop) (f : Event -> bool)
    (m : Act A) h,
  emits_only P m -> (forall ev, P ev -> f ev = false) ->
  filter f (events (m h)) = [].
Proof.
  intros A P f m h Hm H. apply filter_none.
  eapply Forall_impl; [exact H | apply Hm].
Qed.

Lemma footprint_pick_nil : forall (A B : Type) (P : Event -> Prop) (f : Event -> option B)
    (m : Act A) h,
  emits_only P m -> (forall ev, P ev -> f ev = None) ->
  pick f (events (m h)) = [].
Proof.
  intros A B P f m h Hm H. apply pick_none.
  eapply Forall_impl; [exact H | apply Hm].
Qed.

Lemma early_footprint_no_mark : forall ev,
  gitee_early_footprint ev -> gitee_asset_mark ev = None.
Proof. by_cases_on_event. Qed.

Lemma assets_footprint_no_tag_create : forall ev,
  gitee_assets_footprint ev -> is_tag_create ev = false.
Proof.
  intros ev [H|[H|H]]; revert H; revert ev; by_cases_on_event.
Qed.

(** ** The reconciling adapter *)

(** C3: the probe of the tag decides the tag reconciliation.  When the
    probe finds the tag, the run makes no tag-create call; when the probe
    is answered by a 404, the run makes exactly one, for the requested tag
    and anchored at [targetCommitish]; on any other probe error the run is
    fatal with that error, and the probe is the only call it made. *)
Theorem gitee_tag_reconciliation_by_probe : forall w o h,
  let probe := EvGiteeGetTag (gt_owner o) (gt_repo o) (gt_tag o) (gt_token o) in
  let create := EvGiteePostTag (gt_owner o) (gt_repo o) (gt_token o) (gt_tag o)
                  (gt_targetCommitish o) in
  let r := publishGiteeRelease w o h in
  match w_axios w (h ++ [EvLog Info MsgGiteeStart; probe]) with
  | Resolved _ => tag_creates (events r) = []
  | Rejected error =>
      if status_is error 404 then tag_creates (events r) = [create]
      else completion r = Rejected error /\
           tag_creates (events r) = [] /\
           network_calls (events r) = [probe]
  end.
Proof.
  intros w o h probe create r. subst r.
  rewrite publishGiteeRelease_phases.
  assert (HB : forall hB, tag_creates (events (gitee_create_release w o hB)) = []).
  { intros hB. rewrite gitee_create_release_run.
    destruct (w_axios w _); reflexivity. }
  assert (HC : forall hC, tag_creates (events (gitee_assets_step w o hC)) = []).
  { intros hC. unfold tag_creates.
    eapply footprint_filter_nil;
      [apply gitee_assets_step_footprint | apply assets_footprint_no_tag_create]. }
  rewrite gitee_reconcile_tag_run. fold probe. fold create.
  rewrite <- !app_assoc. simpl app.
  destruct (w_axios w (h ++ [EvLog Info MsgGiteeStart; probe])) as [resp|error].
  - simpl completion. simpl events at 1.
    match goal with
    | |- context [completion ?rB] =>
        destruct (completion rB); [|unfold tag_creates in *; simpl;
          rewrite filter_app; fold (tag_creates); rewrite HB; reflexivity]
    end.
    match goal with
    | |- context [completion ?rC] => destruct (completion rC)
    end;
    unfold tag_creates in *; simpl; rewrite !filter_app, HB, HC; reflexivity.
  - destruct (status_is error 404).
    + destruct (w_axios w _) as [resp'|e']; simpl completion; simpl events.
      * match goal with
        | |- context [completion ?rB] =>
            destruct (completion rB); [|unfold tag_creates in *; simpl;
              rewrite filter_app, HB; reflexivity]
        end.
        match goal with
        | |- context [completion ?rC] => destruct (completion rC)
        end;
        unfold tag_creates in *; simpl; rewrite !filter_app, HB, HC; reflexivity.
      * reflexivity.
    + simpl. repeat split; reflexivity.
Qed.

Lemma early_footprint_no_lookup : forall ev,
  gitee_early_footprint ev -> is_release_lookup ev = false.
Proof. by_cases_on_event. Qed.

Lemma early_footprint_no_attach : forall ev,
  gitee_early_footprint ev -> is_attach ev = false.
Proof. by_cases_on_event. Qed.




Lemma gitee_early_projections : forall w o h,
  (release_lookups (events (gitee_reconcile_tag w o h)) = [] /\
   gitee_attempted (events (gitee_reconcile_tag w o h)) = [] /\
   filter is_attach (events (gitee_reconcile_tag w o h)) = []) /\
  (release_lookups (events (gitee_create_release w o h)) = [] /\
   gitee_attempted (events (gitee_create_release w o h)) = [] /\
   filter is_attach (events (gitee_create_release w o h)) = []).
Proof.
  intros w o h. repeat split.
  - eapply footprint_filter_nil;
      [apply gitee_reconcile_tag_footprint | apply early_footprint_no_lookup].
  - eapply footprint_pick_nil;
      [apply gitee_reconcile_tag_footprint | apply early_footprint_no_mark].
  - eapply footprint_filter_nil;
      [apply gitee_reconcile_tag_footprint | apply early_footprint_no_attach].
  - eapply footprint_filter_nil;
      [apply gitee_create_release_footprint | apply early_footprint_no_lookup].
  - eapply footprint_pick_nil;
      [apply gitee_create_release_footprint | apply early_footprint_no_mark].
  - eapply footprint_filter_nil;
      [apply gitee_create_release_footprint | apply early_footprint_no_attach].
Qed.



Lemma in_events_footprint : forall (A : Type) (P : Event -> Prop) (m : Act A) h ev,
  emits_only P m -> In ev (events (m h)) -> P ev.
Proof.
  intros A P m h ev Hm Hin.
  exact (proj1 (Forall_forall P (events (m h))) (Hm h) ev Hin).
Qed.
Arguments in_events_footprint {A P m h ev} _ _.

(** C5: the counters of the upload loop add up.  One iteration moves
    exactly one counter: [skipCount] when the file cannot be read,
    [failCount] when the upload call is rejected, [successCount] when it
    is answered; after the loop the three counters sum to the number of
    assets, and this is what every summary line of a run reports. *)
Theorem gitee_counters_add_up : forall w o h,
  (forall releaseId total i filePath c,
     let h1 := h ++ [EvLog Info (MsgGiteeProcessingAsset (i + 1) total filePath)] in
     let rF := getFileInfo w filePath h1 in
     exists c',
       completion (gitee_upload_one w o releaseId total i filePath c h) = Resolved c' /\
       match completion rF with
       | Resolved None => c' = incr_skip c
       | Resolved (Some info) =>
           match w_axios w (h1 ++ events rF ++
                            [EvGiteeAttachFile (gt_owner o) (gt_repo o) releaseId
                               (gt_token o) info]) with
           | Resolved _ => c' = incr_success c
           | Rejected _ => c' = incr_fail c
           end
       | Rejected _ => False
       end) /\
  (forall releaseId, exists c out,
     gitee_upload_assets w o releaseId h =
       (Resolved c,
        out ++ [EvLog Info (MsgGiteeSummary (successCount c) (skipCount c) (failCount c))]) /\
     successCount c + skipCount c + failCount c = length (gt_assetFiles o)) /\
  (forall s k f,
     In (EvLog Info (MsgGiteeSummary s k f)) (events (publishGiteeRelease w o h)) ->
     s + k + f = length (gt_assetFiles o)).
Proof.
  intros w o h. split; [|split].
  - intros releaseId total i filePath c h1 rF.
    destruct (gitee_upload_one_run w o releaseId total i filePath c h) as [out [Hrun _]].
    rewrite Hrun. eexists. split; [reflexivity|].
    unfold gitee_iteration_outcome. fold h1. fold rF.
    destruct (getFileInfo_resolves w filePath h1) as [info Hinfo]. fold rF in Hinfo.
    rewrite Hinfo. destruct info as [info|]; [|reflexivity].
    destruct (w_axios w _); reflexivity.
  - intros releaseId.
    destruct (gitee_upload_assets_run w o releaseId h) as [c [out [Hrun [Hcount _]]]].
    exists c, out. split; [exact Hrun | exact Hcount].
  - intros s k f Hin. rewrite publishGiteeRelease_phases in Hin.
    set (start := EvLog Info MsgGiteeStart) in *.
    set (rA := gitee_reconcile_tag w o (h ++ [start])) in *.
    set (rB := gitee_create_release w o ((h ++ [start]) ++ events rA)) in *.
    set (hB := ((h ++ [start]) ++ events rA) ++ events rB) in *.
    assert (HA : ~ In (EvLog Info (MsgGiteeSummary s k f)) (events rA)).
    { intros H. apply (in_events_footprint (gitee_reconcile_tag_footprint w o)) in H.
      exact H. }
    assert (HB : ~ In (EvLog Info (MsgGiteeSummary s k f)) (events rB)).
    { intros H. apply (in_events_footprint (gitee_create_release_footprint w o)) in H.
      exact H. }
    assert (HC : In (EvLog Info (MsgGiteeSummary s k f)) (events (gitee_assets_step w o hB)) ->
                 s + k + f = length (gt_assetFiles o)).
    { rewrite gitee_assets_step_run.
      destruct (gt_assetFiles o) as [|filePath rest] eqn:Hfiles.
      - simpl. intuition discriminate.
      - assert (HL : ~ In (EvLog Info (MsgGiteeSummary s k f))
                        (events (gitee_lookup_release_id w o hB))).
        { intros H. apply (in_events_footprint (gitee_lookup_release_id_footprint w o)) in H.
          exact H. }
        destruct (completion (gitee_lookup_release_id w o hB)) as [releaseId|e];
          [|intros H; contradiction].
        simpl. intros H. apply in_app_or in H. destruct H as [H|H]; [contradiction|].
        destruct (gitee_upload_assets_run w o releaseId
                    (hB ++ events (gitee_lookup_release_id w o hB)))
          as [c [out [Hrun [Hcount [_ Hfp]]]]].
        rewrite Hrun in H. simpl in H. apply in_app_or in H. destruct H as [H|H].
        + apply (proj1 (Forall_forall _ _) Hfp) in H. contradiction.
        + simpl in H. destruct H as [H|[]]. injection H as <- <- <-.
          rewrite Hfiles in Hcount. exact Hcount. }
    destruct (completion rA) as [[]|eA].
    + destruct (completion rB) as [[]|eB].
      * destruct (completion (gitee_assets_step w o hB)) as [[]|eC];
          simpl in Hin; destruct Hin as [Hin|Hin]; try discriminate;
          apply in_app_or in Hin; destruct Hin as [Hin|Hin]; try contradiction;
          apply in_app_or in Hin; destruct Hin as [Hin|Hin]; try contradiction;
          apply in_app_or in Hin; destruct Hin as [Hin|Hin]; auto;
          simpl in Hin; intuition discriminate.
      * simpl in Hin; destruct Hin as [Hin|Hin]; try discriminate;
          apply in_app_or in Hin; destruct Hin as [Hin|Hin]; try contradiction;
          apply in_app_or in Hin; destruct Hin as [Hin|Hin]; try contradiction;
          simpl in Hin; intuition discriminate.
    + simpl in Hin; destruct Hin as [Hin|Hin]; try discriminate;
        apply in_app_or in Hin; destruct Hin as [Hin|Hin]; try contradiction;
        simpl in Hin; intuition discriminate.
Qed.

Lemma lookup_footprint_no_mark : forall ev,
  gitee_lookup_footprint ev -> gitee_asset_mark ev = None.
Proof. by_cases_on_event. Qed.

(** ** The simple adapter *)

Section GitHubLoop.

Variable w : World.

Lemma upload_rejected_app : forall out1 out2 h,
  upload_rejected w h (out1 ++ out2) =
  upload_rejected w h out1 || upload_rejected w (h ++ out1) out2.
Proof.
  induction out1 as [|ev out1 IH]; intros out2 h; simpl.
  - now rewrite app_nil_r.
  - rewrite IH, <- app_assoc, orb_assoc. reflexivity.
Qed.

Lemma upload_rejected_none : forall out h,
  Forall (fun ev => is_github_upload ev = false) out ->
  upload_rejected w h out = false.
Proof.
  induction out as [|ev out IH]; intros h H; simpl; [reflexivity|].
  inversion H as [|? ? Hev Hout]; subst.
  rewrite Hev, IH by assumption. reflexivity.
Qed.

Lemma fs_footprint_no_upload : forall ev,
  fs_footprint ev -> is_github_upload ev = false.
Proof. by_cases_on_event. Qed.

Lemma fs_footprint_no_github_mark : forall ev,
  fs_footprint ev -> github_asset_mark ev = None.
Proof. by_cases_on_event. Qed.

Lemma fs_is_github_loop_footprint : forall owner repo releaseId ev,
  fs_footprint ev -> github_loop_footprint owner repo releaseId ev.
Proof. intros owner repo releaseId. by_cases_on_event. Qed.

Lemma github_upload_loop_footprint : forall owner repo releaseId total files index,
  emits_only (github_loop_footprint owner repo releaseId)
    (github_upload_loop w owner repo releaseId total index files).
Proof.
  intros owner repo releaseId total files.
  induction files as [|filePath rest IH]; intros index; simpl.
  - apply emits_only_ret.
  - apply emits_only_bind; [apply emits_only_emit; exact I | intros _].
    apply emits_only_bind.
    { eapply emits_only_weaken; [|apply getFileInfo_footprint].
      apply fs_is_github_loop_footprint. }
    intros [info|]; (apply emits_only_bind; [|intros; apply IH]).
    + footprint; simpl; auto.
    + footprint. exact I.
Qed.

Lemma github_loop_extend : forall files filePath h pre_ev
    (rR : Completion unit * list Event),
  upload_rejected w h pre_ev = false ->
  github_attempted pre_ev = [filePath] ->
  match completion rR with
  | Resolved _ =>
      upload_rejected w (h ++ pre_ev) (events rR) = false /\
      github_attempted (events rR) = files
  | Rejected e =>
      upload_rejected w (h ++ pre_ev) (events rR) = true /\
      exists pre fp post,
        files = pre ++ fp :: post /\
        github_attempted (events rR) = pre ++ [fp]
  end ->
  match completion rR with
  | Resolved _ =>
      upload_rejected w h (pre_ev ++ events rR) = false /\
      github_attempted (pre_ev ++ events rR) = filePath :: files
  | Rejected e =>
      upload_rejected w h (pre_ev ++ events rR) = true /\
      exists pre fp post,
        filePath :: files = pre ++ fp :: post /\
        github_attempted (pre_ev ++ events rR) = pre ++ [fp]
  end.
Proof.
  intros files filePath h pre_ev rR Hrej Hatt H.
  unfold github_attempted in *.
  destruct (completion rR) as [[]|e].
  - destruct H as [H1 H2]. rewrite upload_rejected_app, Hrej, H1, pick_app, Hatt, H2.
    split; reflexivity.
  - destruct H as [H1 [pre [fp [post [Hsplit H2]]]]].
    rewrite upload_rejected_app, Hrej, H1, pick_app, Hatt, H2.
    split; [reflexivity|].
    exists (filePath :: pre), fp, post. split; [simpl; now rewrite Hsplit | reflexivity].
Qed.

(** The loop stops at the first rejected upload call; until then it
    attempts the assets in order. *)
Lemma github_upload_loop_run : forall owner repo releaseId total files index h,
  let r := github_upload_loop w owner repo releaseId total index files h in
  match completion r with
  | Resolved _ =>
      upload_rejected w h (events r) = false /\
      github_attempted (events r) = files
  | Rejected e =>
      upload_rejected w h (events r) = true /\
      exists pre filePath post,
        files = pre ++ filePath :: post /\
        github_attempted (events r) = pre ++ [filePath]
  end.
Proof.
  intros owner repo releaseId total files.
  induction files as [|filePath rest IH]; intros index h; simpl.
  - split; reflexivity.
  - rewrite bind_emit.
    set (mark := EvLog Info (MsgGitHubProcessingAsset (index + 1) total filePath)).
    rewrite bind_run.
    destruct (getFileInfo_resolves w filePath (h ++ [mark])) as [info Hinfo].
    pose proof (getFileInfo_footprint w filePath (h ++ [mark])) as Hfp.
    set (evF := events (getFileInfo w filePath (h ++ [mark]))) in *.
    assert (HF1 : forall h', upload_rejected w h' evF = false).
    { intros h'. apply upload_rejected_none.
      eapply Forall_impl; [|exact Hfp]. apply fs_footprint_no_upload. }
    assert (HF2 : github_attempted evF = []).
    { apply pick_none. eapply Forall_impl; [|exact Hfp].
      apply fs_footprint_no_github_mark. }
    rewrite Hinfo. destruct info as [info|].
    + rewrite bind_run, bind_run. unfold ask, emit. cbn [completion events fst snd].
      set (req := EvOctokitUploadReleaseAsset owner repo releaseId
                    (fi_name info) (fi_content info)).
      set (done := EvLog Info (MsgGitHubAssetUploaded (index + 1) total (fi_name info))).
      destruct (w_uploadReleaseAsset w (((h ++ [mark]) ++ evF) ++ [req])) as [[]|e] eqn:E;
        cbn [completion events fst snd].
      * set (pre_ev := mark :: evF ++ [req; done]).
        replace (((h ++ [mark]) ++ evF) ++ [req] ++ [done]) with (h ++ pre_ev)
          by (unfold pre_ev; rewrite <- !app_assoc; reflexivity).
        set (rR := github_upload_loop w owner repo releaseId total (S index) rest
                     (h ++ pre_ev)).
        replace (mark :: evF ++ ([req] ++ [done]) ++ events rR)
          with (pre_ev ++ events rR)
          by (unfold pre_ev; simpl; rewrite <- !app_assoc; reflexivity).
        apply github_loop_extend.
        -- unfold pre_ev. simpl. rewrite upload_rejected_app, HF1. simpl.
           rewrite E. reflexivity.
        -- unfold pre_ev, github_attempted in *. simpl.
           rewrite pick_app, HF2. reflexivity.
        -- apply (IH (S index) (h ++ pre_ev)).
      * split.
        -- simpl. rewrite upload_rejected_app, HF1. simpl. rewrite E. reflexivity.
        -- exists [], filePath, rest. split; [reflexivity|].
           unfold github_attempted in *. simpl. rewrite pick_app, HF2. reflexivity.
    + rewrite bind_emit. cbn [completion events fst snd].
      set (skip := EvLog Warning (MsgGitHubSkipAsset filePath)).
      set (pre_ev := mark :: evF ++ [skip]).
      replace (((h ++ [mark]) ++ evF) ++ [skip]) with (h ++ pre_ev)
        by (unfold pre_ev; rewrite <- !app_assoc; reflexivity).
      set (rR := github_upload_loop w owner repo releaseId total (S index) rest
                   (h ++ pre_ev)).
      replace (mark :: evF ++ skip :: events rR) with (pre_ev ++ events rR)
        by (unfold pre_ev; simpl; rewrite <- !app_assoc; reflexivity).
      apply github_loop_extend.
      * unfold pre_ev. simpl. rewrite upload_rejected_app, HF1. reflexivity.
      * unfold pre_ev, github_attempted in *. simpl.
        rewrite pick_app, HF2. reflexivity.
      * apply (IH (S index) (h ++ pre_ev)).
Qed.


(** The adapter as the sequence of its steps: whatever throws inside the
    [try] reaches the [catch], which sets the failure status and throws the
    error again. *)
Lemma publishGitHubRelease_phases : forall o h,
  let init := EvLog Info MsgGitHubInit in
  let failed := fun e => [EvLog Error (MsgGitHubFailed e); EvSetFailed (MsgGitHubFailed e)] in
  publishGitHubRelease w o h =
  match w_getOctokit w (gh_token o) with
  | Rejected e => (Rejected e, init :: failed e)
  | Resolved _ =>
      match w_context_repo w with
      | Rejected e => (Rejected e, init :: failed e)
      | Resolved ctx =>
          let create := EvOctokitCreateRelease (fst ctx) (snd ctx) (gh_tag o)
                          (gh_releaseName o) (gh_body o) (gh_draft o) (gh_prerelease o) in
          match w_createRelease w (h ++ [init; create]) with
          | Rejected e => (Rejected e, init :: create :: failed e)
          | Resolved releaseResponse =>
              let rU := github_upload_loop w (fst ctx) (snd ctx) (gh_id releaseResponse)
                          (length (gh_assetFiles o)) 0 (gh_assetFiles o)
                          (h ++ [init; create]) in
              match completion rU with
              | Rejected e => (Rejected e, init :: create :: events rU ++ failed e)
              | Resolved _ => (Resolved releaseResponse, init :: create :: events rU)
              end
          end
      end
  end.
Proof.
  intros o h init failed.
  unfold publishGitHubRelease, github_try_body. fold init.
  assert (Hif : forall owner repo releaseId,
            (if Nat.ltb 0 (length (gh_assetFiles o))
             then github_upload_loop w owner repo releaseId
                    (length (gh_assetFiles o)) 0 (gh_assetFiles o)
             else ret tt) =
            github_upload_loop w owner repo releaseId
              (length (gh_assetFiles o)) 0 (gh_assetFiles o)).
  { intros. destruct (gh_assetFiles o); reflexivity. }
  unfold try_catch, bind, emit, lift, ask, throw, ret.
  destruct (w_getOctokit w (gh_token o)) as [[]|e]; [|reflexivity].
  destruct (w_context_repo w) as [ctx|e]; [|reflexivity].
  cbn [app]. rewrite <- !app_assoc. cbn [app].
  set (create := EvOctokitCreateRelease (fst ctx) (snd ctx) (gh_tag o)
                   (gh_releaseName o) (gh_body o) (gh_draft o) (gh_prerelease o)).
  destruct (w_createRelease w (h ++ [init; create])) as [releaseResponse|e];
    [|reflexivity].
  rewrite Hif. cbn [app]. rewrite <- ?app_assoc. cbn [app].
  destruct (github_upload_loop w (fst ctx) (snd ctx) (gh_id releaseResponse)
              (length (gh_assetFiles o)) 0 (gh_assetFiles o) (h ++ [init; create]))
    as [[[]|e] outU]; cbn [completion events fst snd app].
  - rewrite !app_nil_r. reflexivity.
  - reflexivity.
Qed.

End GitHubLoop.




Lemma github_loop_is_body_footprint : forall w owner repo releaseId ev,
  w_context_repo w = Resolved (owner, repo) ->
  github_loop_footprint owner repo releaseId ev ->
  github_body_footprint w ev.
Proof.
  intros w owner repo releaseId ev Hctx. revert ev.
  by_cases_on_event.
  destruct H as [-> [-> _]]. exact Hctx.
Qed.

(** A run of the simple adapter is its first log line followed by events
    of its footprint. *)
Lemma publishGitHubRelease_events : forall w o h,
  exists rest,
    events (publishGitHubRelease w o h) = EvLog Info MsgGitHubInit :: rest /\
    Forall (github_body_footprint w) rest.
Proof.
  intros w o h. rewrite publishGitHubRelease_phases.
  destruct (w_getOctokit w (gh_token o)) as [[]|e0].
  2:{ eexists. split; [reflexivity|]. repeat constructor. }
  destruct (w_context_repo w) as [[owner repo]|e0] eqn:Hctx.
  2:{ eexists. split; [reflexivity|]. repeat constructor. }
  cbv zeta. cbn [fst snd].
  destruct (w_createRelease w _) as [releaseResponse|e0].
  2:{ eexists. split; [reflexivity|].
      constructor; [exact Hctx|]. repeat constructor. }
  pose proof (github_upload_loop_footprint w owner repo (gh_id releaseResponse)
                (length (gh_assetFiles o)) (gh_assetFiles o) 0) as Hfp.
  match goal with
  | |- context [completion ?rU] =>
      assert (HU : Forall (github_body_footprint w) (events rU));
      [ eapply Forall_impl; [|apply Hfp];
        intros ev; apply github_loop_is_body_footprint; exact Hctx
      | destruct (completion rU) as [[]|e] ]
  end.
  - eexists. split; [reflexivity|]. constructor; [exact Hctx | exact HU].
  - eexists. split; [reflexivity|]. constructor; [exact Hctx|].
    apply Forall_app. split; [exact HU|]. repeat constructor.
Qed.

Lemma github_body_targets_context : forall w ev,
  github_body_footprint w ev -> targets_context_repo w ev.
Proof. intros w. by_cases_on_event; assumption. Qed.

(** C10: the simple adapter takes the repository from the ambient context.
    Every release-create and asset-upload request of a run names the owner
    and the repository that [github.context.repo] yields, whatever the
    options are (they have no field for them): once the client is built,
    the release-create request is sent to that repository, and when the
    context yields none the adapter makes no call. *)
Theorem github_repository_from_context : forall w o h,
  Forall (targets_context_repo w) (events (publishGitHubRelease w o h)) /\
  (forall owner repo,
     w_getOctokit w (gh_token o) = Resolved tt ->
     w_context_repo w = Resolved (owner, repo) ->
     exists rest,
       events (publishGitHubRelease w o h) =
       EvLog Info MsgGitHubInit ::
       EvOctokitCreateRelease owner repo (gh_tag o) (gh_releaseName o) (gh_body o)
         (gh_draft o) (gh_prerelease o) :: rest) /\
  (is_rejected (w_context_repo w) = true ->
   network_calls (events (publishGitHubRelease w o h)) = []).
Proof.
  intros w o h. split; [|split].
  - destruct (publishGitHubRelease_events w o h) as [rest [-> Hrest]].
    constructor; [exact I|].
    eapply Forall_impl; [|exact Hrest]. apply github_body_targets_context.
  - intros owner repo Hclient Hctx.
    rewrite publishGitHubRelease_phases, Hclient, Hctx.
    cbv zeta. cbn [fst snd].
    destruct (w_createRelease w _) as [releaseResponse|e0];
      [|eexists; reflexivity].
    match goal with
    | |- context [completion ?rU] => destruct (completion rU)
    end; eexists; reflexivity.
  - intros Hctx. rewrite publishGitHubRelease_phases.
    destruct (w_getOctokit w (gh_token o)) as [[]|e0]; [|reflexivity].
    destruct (w_context_repo w) as [ctx|e0]; [discriminate|]. reflexivity.
Qed.

(** ** The orchestrator *)

Section Orchestrator.

Variable w : World.

(** Step 1 emits nothing and does not look at the history. *)
Lemma read_inputs_run : forall inp h,
  read_inputs w inp h = (settings_of w inp, []).
Proof.
  intros inp h. unfold settings_of, read_inputs, bind, lift, ret, completion.
  destruct (in_platforms inp); [|reflexivity].
  destruct (in_tag inp); [|reflexivity].
  destruct (in_release_name inp); [|reflexivity].
  destruct (in_release_body inp); [|reflexivity].
  destruct (in_draft inp); [|reflexivity].
  destruct (in_prerelease inp); [|reflexivity].
  destruct (in_asset_files inp) as [assetInput|]; [|reflexivity].
  destruct (resolveAssetFiles (w_fs w) assetInput); [|reflexivity].
  destruct (in_github_token inp); [|reflexivity].
  destruct (in_gitee_token inp); [|reflexivity].
  destruct (in_gitee_owner inp); [|reflexivity].
  destruct (in_gitee_repo inp); [|reflexivity].
  destruct (in_gitee_target_commitish inp); reflexivity.
Qed.

(** The validation loop computes the conjunction of the checks, only logs,
    and is silent when every platform passes. *)
Lemma validate_platforms_run : forall s ps h,
  exists out,
    validate_platforms s ps h =
      (Resolved (forallb (platform_accepted s) ps), out) /\
    Forall validation_footprint out /\
    (forallb (platform_accepted s) ps = true -> out = []) /\
    (forallb (platform_accepted s) ps = false -> filter is_set_failed out <> []).
Proof.
  intros s ps. induction ps as [|p rest IH]; intros h.
  - exists []. simpl. repeat split; try constructor. discriminate.
  - simpl. unfold platform_accepted at 1 3 5.
    destruct (platforms_get p) as [entry|].
    + destruct (String.eqb p "github" && negb (truthy (st_githubToken s))).
      * eexists. split; [reflexivity|]. split; [repeat constructor|].
        split; [intros H; simpl in H; discriminate | intros _; discriminate].
      * destruct (String.eqb p "gitee" &&
                  (negb (truthy (st_giteeToken s)) ||
                   negb (truthy (st_giteeOwner s)) ||
                   negb (truthy (st_giteeRepo s)))).
        -- eexists. split; [reflexivity|]. split; [repeat constructor|].
           split; [intros H; simpl in H; discriminate | intros _; discriminate].
        -- simpl. apply IH.
    + eexists. split; [reflexivity|]. split; [repeat constructor|].
      split; [intros H; simpl in H; discriminate | intros _; discriminate].
Qed.

Lemma github_body_no_start : forall ev,
  github_body_footprint w ev -> adapter_start ev = None.
Proof. by_cases_on_event. Qed.

Lemma github_body_no_gitee_call : forall ev,
  github_body_footprint w ev -> is_gitee_call ev = false.
Proof. by_cases_on_event. Qed.

Lemma publishGitHubRelease_started : forall o h,
  adapters_started (events (publishGitHubRelease w o h)) = [GitHubAdapter] /\
  filter is_gitee_call (events (publishGitHubRelease w o h)) = [].
Proof.
  intros o h. destruct (publishGitHubRelease_events w o h) as [rest [-> Hrest]].
  unfold adapters_started. simpl. split.
  - rewrite pick_none; [reflexivity|].
    eapply Forall_impl; [|exact Hrest]. apply github_body_no_start.
  - apply filter_none. eapply Forall_impl; [|exact Hrest].
    apply github_body_no_gitee_call.
Qed.

Lemma gitee_early_no_start : forall ev,
  gitee_early_footprint ev -> adapter_start ev = None.
Proof. by_cases_on_event. Qed.

Lemma gitee_assets_no_start : forall ev,
  gitee_assets_footprint ev -> adapter_start ev = None.
Proof. intros ev [H|[H|H]]; revert H; revert ev; by_cases_on_event. Qed.

Lemma publishGiteeRelease_started : forall o h,
  adapters_started (events (publishGiteeRelease w o h)) = [GiteeAdapter].
Proof.
  intros o h. rewrite publishGiteeRelease_phases.
  set (h0 := h ++ [EvLog Info MsgGiteeStart]).
  set (rA := gitee_reconcile_tag w o h0).
  set (rB := gitee_create_release w o (h0 ++ events rA)).
  set (rC := gitee_assets_step w o ((h0 ++ events rA) ++ events rB)).
  assert (SA : adapters_started (events rA) = []).
  { eapply footprint_pick_nil;
      [apply gitee_reconcile_tag_footprint | apply gitee_early_no_start]. }
  assert (SB : adapters_started (events rB) = []).
  { eapply footprint_pick_nil;
      [apply gitee_create_release_footprint | apply gitee_early_no_start]. }
  assert (SC : adapters_started (events rC) = []).
  { eapply footprint_pick_nil;
      [apply gitee_assets_step_footprint | apply gitee_assets_no_start]. }
  unfold adapters_started in *.
  destruct (completion rA) as [[]|eA];
    [destruct (completion rB) as [[]|eB];
       [destruct (completion rC) as [[]|eC]|]|];
    simpl; rewrite ?pick_app, ?SA, ?SB, ?SC; reflexivity.
Qed.

(** One platform of the dispatch loop invokes the adapter of its [case]
    once, or none in the [default] case. *)
Lemma sync_platform_started : forall s platform h,
  adapters_started (events (sync_platform w s platform h)) =
  requested_adapters [platform].
Proof.
  intros s platform h.
  unfold sync_platform, requested_adapters, adapter_of. rewrite bind_emit.
  cbn [events snd]. unfold adapters_started. cbn [pick adapter_start].
  destruct (String.eqb platform "github").
  - rewrite bind_run.
    destruct (publishGitHubRelease_started (github_options s)
                (h ++ [EvLog Info (MsgProcessingPlatform platform)])) as [HS _].
    unfold adapters_started in HS.
    destruct (completion (publishGitHubRelease w _ _));
      cbn [events snd]; rewrite ?pick_app, HS; reflexivity.
  - destruct (String.eqb platform "gitee").
    + rewrite bind_run.
      pose proof (publishGiteeRelease_started (gitee_options s)
                    (h ++ [EvLog Info (MsgProcessingPlatform platform)])) as HS.
      unfold adapters_started in HS.
      destruct (completion (publishGiteeRelease w _ _));
        cbn [events snd]; rewrite ?pick_app, HS; reflexivity.
    + reflexivity.
Qed.

Lemma requested_adapters_cons : forall platform rest,
  requested_adapters (platform :: rest) =
  requested_adapters [platform] ++ requested_adapters rest.
Proof.
  intros platform rest. unfold requested_adapters. simpl.
  destruct (adapter_of platform); reflexivity.
Qed.

Lemma sync_platforms_cons : forall s platform rest h,
  let r1 := sync_platform w s platform h in
  sync_platforms w s (platform :: rest) h =
  match completion r1 with
  | Resolved _ =>
      (completion (sync_platforms w s rest (h ++ events r1)),
       events r1 ++ events (sync_platforms w s rest (h ++ events r1)))
  | Rejected e => (Rejected e, events r1)
  end.
Proof. intros. simpl. rewrite bind_run. reflexivity. Qed.

(** The adapters run in the order of the list, up to the first one that
    throws. *)
Lemma sync_platforms_started : forall s ps h,
  let r := sync_platforms w s ps h in
  exists k,
    adapters_started (events r) = firstn k (requested_adapters ps) /\
    (is_rejected (completion r) = false -> k = length (requested_adapters ps)).
Proof.
  intros s ps. induction ps as [|p rest IH]; intros h.
  - exists 0. split; reflexivity.
  - cbv zeta. rewrite sync_platforms_cons, requested_adapters_cons.
    pose proof (sync_platform_started s p h) as H1.
    destruct (completion (sync_platform w s p h)) as [[]|e].
    + destruct (IH (h ++ events (sync_platform w s p h))) as [k [Hk Hall]].
      exists (length (requested_adapters [p]) + k).
      cbn [completion events fst snd]. split.
      * unfold adapters_started in *. rewrite pick_app, H1, Hk.
        rewrite firstn_app_2. reflexivity.
      * intros Hok. rewrite length_app, (Hall Hok). reflexivity.
    + exists (length (requested_adapters [p])).
      cbn [completion events fst snd]. split; [|discriminate].
      rewrite H1, firstn_app, Nat.sub_diag, firstn_all. simpl.
      now rewrite app_nil_r.
Qed.


Lemma validation_footprint_quiet : forall ev,
  validation_footprint ev ->
  adapter_start ev = None /\ is_network_call ev = false /\ is_gitee_call ev = false.
Proof. by_cases_on_event; repeat split; reflexivity. Qed.

(** [main] reads its inputs, validates, then dispatches; whatever is
    thrown on the way is reported and sets the failure status. *)
Lemma main_run : forall inp h,
  main w inp h =
  match settings_of w inp with
  | Rejected e =>
      (Resolved tt, [EvLog Error (MsgSyncFailed e); EvSetFailed (MsgSyncFailed e)])
  | Resolved s =>
      if forallb (platform_accepted s) (st_syncPlatforms s) then
        let rS := sync_platforms w s (st_syncPlatforms s) h in
        match completion rS with
        | Resolved _ => (Resolved tt, events rS ++ [EvLog Info MsgWorkflowCompleted])
        | Rejected e =>
            (Resolved tt,
             events rS ++ [EvLog Error (MsgSyncFailed e); EvSetFailed (MsgSyncFailed e)])
        end
      else (Resolved tt, events (validate_platforms s (st_syncPlatforms s) h))
  end.
Proof.
  intros inp h. unfold main, main_try_body.
  rewrite try_catch_run, bind_run, read_inputs_run.
  cbn [completion events fst snd].
  destruct (settings_of w inp) as [s|e]; [|reflexivity].
  rewrite app_nil_r.
  destruct (validate_platforms_run s (st_syncPlatforms s) h)
    as [out [Hrun [_ [Hquiet _]]]].
  rewrite bind_run, Hrun. cbn [completion events fst snd].
  destruct (forallb (platform_accepted s) (st_syncPlatforms s)).
  - rewrite (Hquiet eq_refl), app_nil_r. rewrite bind_run.
    destruct (completion (sync_platforms w s (st_syncPlatforms s) h)) as [[]|e];
      cbn [completion events fst snd emit app]; reflexivity.
  - cbn [completion events fst snd ret app]. rewrite app_nil_r. reflexivity.
Qed.

End Orchestrator.

Lemma settings_of_platforms : forall w inp raw s,
  in_platforms inp = Resolved raw ->
  settings_of w inp = Resolved s ->
  st_syncPlatforms s = parsePlatforms raw.
Proof.
  intros w inp raw s Hraw. unfold settings_of, read_inputs, bind, lift, ret, completion.
  rewrite Hraw.
  destruct (in_tag inp); [|discriminate].
  destruct (in_release_name inp); [|discriminate].
  destruct (in_release_body inp); [|discriminate].
  destruct (in_draft inp); [|discriminate].
  destruct (in_prerelease inp); [|discriminate].
  destruct (in_asset_files inp) as [assetInput|]; [|discriminate].
  destruct (resolveAssetFiles (w_fs w) assetInput); [|discriminate].
  destruct (in_github_token inp); [|discriminate].
  destruct (in_gitee_token inp); [|discriminate].
  destruct (in_gitee_owner inp); [|discriminate].
  destruct (in_gitee_repo inp); [|discriminate].
  destruct (in_gitee_target_commitish inp); [|discriminate].
  simpl. intros H. injection H as <-. reflexivity.
Qed.

Lemma settings_of_with_platforms : forall w inp raw1 raw2,
  parsePlatforms raw1 = parsePlatforms raw2 ->
  settings_of w (with_platforms inp raw1) = settings_of w (with_platforms inp raw2).
Proof.
  intros w inp raw1 raw2 H.
  unfold settings_of, read_inputs, bind, lift, ret, completion, with_platforms.
  cbn [in_platforms in_tag in_release_name in_release_body in_draft in_prerelease
       in_asset_files in_github_token in_gitee_token in_gitee_owner in_gitee_repo
       in_gitee_target_commitish].
  rewrite H. reflexivity.
Qed.

(** C9: the platform list is normalised before it is used.  Every entry
    is non-empty, has no white space around it and no capital letter; on
    the comma-separated items of the input, the list is the trimmed,
    lowercased items without the empty ones; this list is the one that
    [main] validates and dispatches; and two inputs with the same
    normalised list are indistinguishable to [main]. *)
Theorem parsePlatforms_normalizes :
  (forall raw p, In p (parsePlatforms raw) ->
     truthy p = true /\ is_trimmed p = true /\ has_upper p = false) /\
  (forall items,
     items <> [] ->
     (forall i, In i items -> contains_char "," i = false) ->
     parsePlatforms (join_char "," items) =
     filter truthy (map (fun i => toLowerCase (trim i)) items)) /\
  parsePlatforms " GitHub ,, GITEE ," = ["github"; "gitee"] /\
  (forall w inp raw s,
     in_platforms inp = Resolved raw ->
     settings_of w inp = Resolved s ->
     st_syncPlatforms s = parsePlatforms raw) /\
  (forall w inp raw1 raw2 h,
     parsePlatforms raw1 = parsePlatforms raw2 ->
     main w (with_platforms inp raw1) h = main w (with_platforms inp raw2) h).
Proof.
  split; [exact parsePlatforms_entry|]. split; [|split; [|split]].
  - intros items Hne Hall. unfold parsePlatforms.
    now rewrite split_char_join_char.
  - reflexivity.
  - exact settings_of_platforms.
  - intros w inp raw1 raw2 h Heq.
    rewrite !main_run, (settings_of_with_platforms w inp raw1 raw2 Heq).
    reflexivity.
Qed.


(** *** Pre-flight validation *)

Lemma missing_configuration_rejected : forall s platform,
  missing_configuration s platform = true ->
  platform_accepted s platform = false.
Proof.
  intros s platform H. unfold platform_accepted, missing_configuration in *.
  destruct (platforms_get platform); [|reflexivity].
  apply orb_true_iff in H. destruct H as [H|H]; rewrite H; simpl; [reflexivity|].
  apply andb_false_r.
Qed.

Lemma unknown_key_rejected : forall s platform,
  platforms_get platform = None -> platform_accepted s platform = false.
Proof. intros s platform H. unfold platform_accepted. now rewrite H. Qed.

(** When the validation loop rejects a platform, no adapter is invoked and
    no call leaves the machine, for any platform of the list; the run is
    marked as failed. *)
Lemma preflight_rejection_is_silent : forall w inp h s,
  settings_of w inp = Resolved s ->
  forallb (platform_accepted s) (st_syncPlatforms s) = false ->
  adapters_started (events (main w inp h)) = [] /\
  network_calls (events (main w inp h)) = [] /\
  filter is_set_failed (events (main w inp h)) <> [].
Proof.
  intros w inp h s Hs Hrej. rewrite main_run, Hs, Hrej.
  destruct (validate_platforms_run s (st_syncPlatforms s) h)
    as [out [Hrun [Hfp [_ Hfailed]]]].
  rewrite Hrun. cbn [events snd].
  split; [|split; [|exact (Hfailed Hrej)]].
  - apply pick_none. eapply Forall_impl; [|exact Hfp].
    intros ev Hev. apply validation_footprint_quiet; exact Hev.
  - apply filter_none. eapply Forall_impl; [|exact Hfp].
    intros ev Hev. apply validation_footprint_quiet; exact Hev.
Qed.

(** The part of the pre-flight property that the validation loop achieves:
    a platform that is no property of the table at all, or one whose
    required configuration is missing, stops the run before any adapter,
    wherever it stands in the list. *)
Lemma preflight_stops_misconfigured : forall w inp h s platform,
  settings_of w inp = Resolved s ->
  In platform (st_syncPlatforms s) ->
  platforms_get platform = None \/ missing_configuration s platform = true ->
  adapters_started (events (main w inp h)) = [] /\
  network_calls (events (main w inp h)) = [].
Proof.
  intros w inp h s platform Hs Hin Hbad.
  assert (Hrej : forallb (platform_accepted s) (st_syncPlatforms s) = false).
  { destruct (forallb (platform_accepted s) (st_syncPlatforms s)) eqn:E;
      [|reflexivity].
    rewrite forallb_forall in E. specialize (E platform Hin).
    destruct Hbad as [Hbad|Hbad].
    - rewrite (unknown_key_rejected s platform Hbad) in E. discriminate.
    - rewrite (missing_configuration_rejected s platform Hbad) in E. discriminate. }
  destruct (preflight_rejection_is_silent w inp h Hs Hrej) as [H1 [H2 _]].
  split; assumption.
Qed.

(** C2: the validation loop reads [platforms[platform]] on an object
    literal, so an identifier that names a member of [Object.prototype]
    passes it.  With the platform list "github,constructor" and a GitHub
    token, the unsupported identifier [constructor] is accepted, the
    simple adapter is invoked, and the [default] case of the dispatch only
    warns: the pre-flight property does not hold on this input. *)
Theorem preflight_admits_prototype_keys : forall w h,
  (exists s,
     settings_of w prototype_key_inputs = Resolved s /\
     In "constructor" (st_syncPlatforms s)) /\
  supported_platform "constructor" = false /\
  adapters_started (events (main w prototype_key_inputs h)) = [GitHubAdapter] /\
  ~ preflight_all_or_nothing w prototype_key_inputs h.
Proof.
  intros w h.
  destruct (settings_of w prototype_key_inputs) as [s|e] eqn:Hs;
    [|vm_compute in Hs; discriminate].
  assert (Hps : st_syncPlatforms s = ["github"; "constructor"]).
  { vm_compute in Hs. injection Hs as <-. reflexivity. }
  assert (Hok : forallb (platform_accepted s) ["github"; "constructor"] = true).
  { vm_compute in Hs. injection Hs as <-. reflexivity. }
  assert (Hin : In "constructor" (st_syncPlatforms s)).
  { rewrite Hps. right. left. reflexivity. }
  assert (Hstart : adapters_started (events (main w prototype_key_inputs h)) = [GitHubAdapter]).
  { rewrite main_run, Hs, Hps, Hok. cbv zeta.
    rewrite sync_platforms_cons.
    pose proof (sync_platform_started w s "github" h) as H1.
    change (requested_adapters ["github"]) with [GitHubAdapter] in H1.
    destruct (completion (sync_platform w s "github" h))
      as [[]|e]; cbn [completion events fst snd].
    - match goal with
      | |- context [sync_platforms w s ["constructor"] ?h1] =>
          destruct (sync_platforms_started w s ["constructor"] h1) as [k [Hk _]];
          change (requested_adapters ["constructor"]) with (@nil Adapter) in Hk;
          rewrite firstn_nil in Hk;
          destruct (completion (sync_platforms w s ["constructor"] h1))
      end;
      cbn [completion events fst snd]; unfold adapters_started in *;
      rewrite !pick_app, H1, Hk; reflexivity.
    - unfold adapters_started in *. rewrite !pick_app, H1. reflexivity. }
  split; [exists s; split; [reflexivity | exact Hin]|].
  split; [reflexivity|]. split; [exact Hstart|].
  unfold preflight_all_or_nothing. intros H.
  destruct (H s "constructor" Hs Hin) as [H1 _]; [left; reflexivity|].
  rewrite Hstart in H1. discriminate.
Qed.

(** ** Concrete runs *)

Lemma example_fs_absolute : glob_absolute example_fs.
Proof.
  intros pat matchedFiles p Hglob Hin. unfold example_fs in Hglob. simpl in Hglob.
  destruct (Z.ltb 65536 (Z.of_nat (String.length pat))); [discriminate|].
  destruct (String.eqb pat "dist/*.txt").
  - injection Hglob as <-. destruct Hin as [<-|[<-|[]]]; reflexivity.
  - destruct (String.eqb pat "dist/a.txt").
    + injection Hglob as <-. destruct Hin as [<-|[]]; reflexivity.
    + destruct (String.eqb pat "dist/gone.txt").
      * injection Hglob as <-. destruct Hin as [<-|[]]; reflexivity.
      * injection Hglob as <-. destruct Hin.
Defined.

Lemma parsePlatforms_normalizes_witness :
  In "github" (parsePlatforms " GitHub ,gitee") /\
  (truthy "github" = true /\ is_trimmed "github" = true /\ has_upper "github" = false) /\
  parsePlatforms (join_char "," [" GitHub "; ""; "GITEE"]) = ["github"; "gitee"] /\
  main quiet_world (with_platforms both_platforms_inputs " GitHub , gitee") [] =
  main quiet_world (with_platforms both_platforms_inputs "github,gitee,") [].
Proof.
  assert (Hin : In "github" (parsePlatforms " GitHub ,gitee")) by (vm_compute; auto).
  split; [exact Hin|]. split; [|split].
  - exact (proj1 parsePlatforms_normalizes " GitHub ,gitee" "github" Hin).
  - apply (proj1 (proj2 parsePlatforms_normalizes) [" GitHub "; ""; "GITEE"]).
    + discriminate.
    + intros i [<-|[<-|[<-|[]]]]; reflexivity.
  - apply (proj2 (proj2 (proj2 (proj2 parsePlatforms_normalizes)))). reflexivity.
Defined.


Lemma gitee_counters_add_up_witness :
  In (EvLog Info (MsgGiteeSummary 2 1 1))
     (events (publishGiteeRelease flaky_upload_world (example_gitee_options four_assets) [])) /\
  2 + 1 + 1 = length four_assets.
Proof.
  assert (H : In (EvLog Info (MsgGiteeSummary 2 1 1))
                (events (publishGiteeRelease flaky_upload_world
                           (example_gitee_options four_assets) [])))
    by (vm_compute; tauto).
  split; [exact H|].
  exact (proj2 (proj2 (gitee_counters_add_up flaky_upload_world
                         (example_gitee_options four_assets) [])) 2 1 1 H).
Defined.


Lemma github_repository_from_context_witness :
  w_getOctokit quiet_world "secret" = Resolved tt /\
  w_context_repo quiet_world = Resolved ("octo", "demo") /\
  exists rest,
    events (publishGitHubRelease quiet_world (example_github_options three_assets) []) =
    EvLog Info MsgGitHubInit ::
    EvOctokitCreateRelease "octo" "demo" "v1.0.0" "Release v1.0.0" "" false false :: rest.
Proof.
  split; [reflexivity|]. split; [reflexivity|].
  exact (proj1 (proj2 (github_repository_from_context quiet_world
                         (example_github_options three_assets) []))
           "octo" "demo" eq_refl eq_refl).
Defined.

(* ===================================================================== *)
(** * Further properties of the sources *)
(* ===================================================================== *)

(** ** getFileInfo *)

(** X1: [getFileInfo] never throws.  It returns [null] exactly when it
    logged its warning, which is when [stat] failed, [readFile] failed, or
    the modification date that [stat] gave is invalid, so that the log
    line before the [return] throws; when [stat] fails the file is not
    read; and an object it returns holds the base name of the path, the
    size [stat] gave and the content [readFile] gave. *)
Theorem getFileInfo_null_on_error : forall w filePath h,
  let stat := w_stat w (h ++ [EvStat filePath]) in
  let read := w_readFile w (h ++ [EvStat filePath; EvReadFile filePath]) in
  exists r out,
    getFileInfo w filePath h = (Resolved r, out) /\
    (r = None <-> In (EvLog Warning (MsgFileInfoFailed filePath)) out) /\
    (r = None <->
     is_rejected stat || is_rejected read || mtime_rejected stat = true) /\
    (is_rejected stat = true -> ~ In (EvReadFile filePath) out) /\
    (forall info, r = Some info ->
       fi_name info = basename filePath /\
       (exists fileStat,
          stat = Resolved fileStat /\ fi_size info = stat_size fileStat) /\
       read = Resolved (fi_content info)).
Proof.
  intros w filePath h stat read. subst stat read.
  unfold getFileInfo, try_catch, bind, ask, lift, ret, emit. cbn [app].
  rewrite <- ?app_assoc. cbn [app].
  destruct (w_stat w (h ++ [EvStat filePath])) as [fileStat|e1].
  - destruct (w_readFile w (h ++ [EvStat filePath; EvReadFile filePath]))
      as [content|e2]; cbn [app].
    + cbn [mtime_rejected is_rejected orb].
      destruct (toISOString (stat_mtime fileStat)) as [iso|e3]; cbn [app is_rejected].
      * eexists. eexists. split; [reflexivity|]. repeat split; try discriminate.
        -- simpl. intros [H|[H|[]]]; discriminate.
        -- injection H as <-. reflexivity.
        -- exists fileStat. injection H as <-. split; reflexivity.
        -- injection H as <-. reflexivity.
      * eexists. eexists. split; [reflexivity|]. repeat split; try discriminate.
        simpl. auto.
    + eexists. eexists. split; [reflexivity|]. repeat split; try discriminate.
      simpl. auto.
  - eexists. eexists. split; [reflexivity|]. repeat split; try discriminate.
    + simpl. auto.
    + simpl. intros _ [H|[H|[]]]; discriminate.
Qed.

Lemma getFileInfo_null_on_error_witness :
  ~ In (EvReadFile "/d/gone.bin")
       (events (getFileInfo flaky_upload_world "/d/gone.bin" [])) /\
  completion (getFileInfo flaky_upload_world "/d/gone.bin" []) = Resolved None /\
  completion (getFileInfo invalid_mtime_world "/d/a.bin" []) = Resolved None.
Proof.
  destruct (getFileInfo_null_on_error flaky_upload_world "/d/gone.bin" [])
    as [r [out [Hrun [_ [Hnull [Hstat _]]]]]].
  destruct (getFileInfo_null_on_error invalid_mtime_world "/d/a.bin" [])
    as [r' [out' [Hrun' [_ [Hnull' _]]]]].
  rewrite Hrun, Hrun'. split; [|split].
  - apply Hstat. reflexivity.
  - cbn [completion fst]. f_equal. apply Hnull. reflexivity.
  - cbn [completion fst]. f_equal. apply Hnull'. reflexivity.
Defined.

(** ** More on the string normalisations *)

Lemma trimStart_fixed : forall s,
  opt_space (first_char s) = false -> trimStart s = s.
Proof. intros [|c s] H; simpl in *; [reflexivity|]. now rewrite H. Qed.

Lemma trimEnd_fixed : forall s,
  opt_space (last_char s) = false -> trimEnd s = s.
Proof.
  induction s as [|c s IH]; intros H; [reflexivity|].
  destruct s as [|d s'].
  - simpl in *. now rewrite H.
  - change (last_char (String c (String d s'))) with (last_char (String d s')) in H.
    change (trimEnd (String c (String d s')))
      with (match trimEnd (String d s') with
            | EmptyString => if is_space c then EmptyString else String c EmptyString
            | r => String c r
            end).
    rewrite (IH H). reflexivity.
Qed.

Lemma trim_fixed : forall s, is_trimmed s = true -> trim s = s.
Proof.
  intros s H. unfold is_trimmed in H. apply andb_true_iff in H.
  destruct H as [H1 H2]. apply negb_true_iff in H1, H2.
  unfold trim. rewrite trimStart_fixed by exact H1. apply trimEnd_fixed. exact H2.
Qed.

Lemma toLowerCase_fixed : forall s, has_upper s = false -> toLowerCase s = s.
Proof.
  induction s as [|c s IH]; simpl; intros H; [reflexivity|].
  apply orb_false_iff in H. destruct H as [Hc Hs].
  unfold lower_char. rewrite Hc, (IH Hs). reflexivity.
Qed.

Lemma split_char_nonempty : forall sep s, split_char sep s <> [].
Proof.
  intros sep s. destruct s as [|c s]; simpl; [discriminate|].
  destruct (Ascii.eqb c sep); [discriminate|].
  destruct (split_char sep s); discriminate.
Qed.

Lemma split_char_pieces : forall sep s p,
  In p (split_char sep s) -> contains_char sep p = false.
Proof.
  intros sep s. induction s as [|c s IH]; simpl; intros p Hin.
  - destruct Hin as [<-|[]]. reflexivity.
  - destruct (Ascii.eqb c sep) eqn:E.
    + destruct Hin as [<-|Hin]; [reflexivity | auto].
    + destruct (split_char sep s) as [|w ws]; simpl in Hin.
      * destruct Hin as [<-|[]]. simpl. now rewrite E.
      * destruct Hin as [<-|Hin].
        -- simpl. rewrite E. apply IH. now left.
        -- apply IH. now right.
Qed.

Lemma contains_char_trimStart : forall c s,
  contains_char c s = false -> contains_char c (trimStart s) = false.
Proof.
  intros c s. induction s as [|d s IH]; simpl; intros H; [reflexivity|].
  apply orb_false_iff in H. destruct H as [Hd Hs].
  destruct (is_space d); [auto|]. simpl. now rewrite Hd, Hs.
Qed.

Lemma contains_char_trimEnd : forall c s,
  contains_char c s = false -> contains_char c (trimEnd s) = false.
Proof.
  intros c s. induction s as [|d s IH]; simpl; intros H; [reflexivity|].
  apply orb_false_iff in H. destruct H as [Hd Hs].
  specialize (IH Hs).
  destruct (trimEnd s) as [|e r].
  - destruct (is_space d); simpl; [reflexivity|]. now rewrite Hd.
  - simpl. rewrite Hd. exact IH.
Qed.

Lemma comma_lower_char : forall c,
  Ascii.eqb (lower_char c) ","%char = Ascii.eqb c ","%char.
Proof. intros c. destruct c as [[] [] [] [] [] [] [] []]; reflexivity. Qed.

Lemma contains_comma_toLowerCase : forall s,
  contains_char "," (toLowerCase s) = contains_char "," s.
Proof.
  induction s as [|c s IH]; simpl; [reflexivity|].
  now rewrite comma_lower_char, IH.
Qed.

Lemma parsePlatforms_no_comma : forall raw p,
  In p (parsePlatforms raw) -> contains_char "," p = false.
Proof.
  intros raw p H. unfold parsePlatforms in H.
  apply filter_In in H. destruct H as [Hin _].
  apply in_map_iff in Hin. destruct Hin as [item [<- Hitem]].
  rewrite contains_comma_toLowerCase. unfold trim.
  apply contains_char_trimEnd, contains_char_trimStart.
  eapply split_char_pieces. exact Hitem.
Qed.

Lemma filter_map_fixed : forall (f : string -> string) l,
  (forall p, In p l -> truthy p = true /\ f p = p) ->
  filter truthy (map f l) = l.
Proof.
  intros f l. induction l as [|p l IH]; intros H; [reflexivity|].
  simpl. destruct (H p (or_introl eq_refl)) as [Ht Hf].
  rewrite Hf, Ht, IH; [reflexivity|].
  intros q Hq. apply H. now right.
Qed.

(** X2: normalising the platform list is idempotent: joining the normalised
    entries with commas and parsing the result gives the same list, so an
    already normalised input is left as it is. *)
Theorem parsePlatforms_idempotent : forall raw,
  parsePlatforms (join_char "," (parsePlatforms raw)) = parsePlatforms raw.
Proof.
  intros raw. destruct (parsePlatforms raw) as [|p ps] eqn:E; [reflexivity|].
  rewrite <- E. unfold parsePlatforms at 1.
  rewrite split_char_join_char.
  - apply filter_map_fixed. intros q Hq.
    destruct (parsePlatforms_entry raw q Hq) as [Ht [Htrim Hup]].
    split; [exact Ht|]. rewrite (trim_fixed q Htrim). apply toLowerCase_fixed, Hup.
  - rewrite E. discriminate.
  - apply parsePlatforms_no_comma.
Qed.

Lemma parsePlatforms_cons_space : forall c s,
  Ascii.eqb c ","%char = false -> is_space c = true ->
  parsePlatforms (String c s) = parsePlatforms s.
Proof.
  intros c s Hc Hs. unfold parsePlatforms. simpl split_char. rewrite Hc.
  destruct (split_char "," s) as [|w ws] eqn:E;
    [exfalso; exact (split_char_nonempty _ _ E)|].
  assert (Ht : trim (String c w) = trim w).
  { unfold trim. simpl trimStart. now rewrite Hs. }
  simpl. rewrite Ht. reflexivity.
Qed.

Lemma parsePlatforms_cons_comma : forall s,
  parsePlatforms (String "," s) = parsePlatforms s.
Proof. intros s. reflexivity. Qed.

(** An input made of commas and white space names no platform. *)
Lemma parsePlatforms_only_separators : forall raw,
  only_separators raw = true -> parsePlatforms raw = [].
Proof.
  induction raw as [|c s IH]; simpl; intros H; [reflexivity|].
  apply andb_true_iff in H. destruct H as [Hc Hs].
  destruct (Ascii.eqb c ",") eqn:E.
  - apply Ascii.eqb_eq in E. subst c. rewrite parsePlatforms_cons_comma. auto.
  - simpl in Hc. rewrite parsePlatforms_cons_space by assumption. auto.
Qed.

(** X3: a [platforms] input that holds only commas and white space is a
    request for no platform.  When step 1 returns (every input can be
    read and [glob] accepts the asset patterns), nothing is validated, no
    adapter is invoked and the workflow reports completion; when step 1
    throws, [main] reports that error and sets the failure status, and
    nothing else happens. *)
Theorem main_without_platforms : forall w inp raw h,
  in_platforms inp = Resolved raw ->
  only_separators raw = true ->
  main w inp h =
  match settings_of w inp with
  | Resolved _ => (Resolved tt, [EvLog Info MsgWorkflowCompleted])
  | Rejected e =>
      (Resolved tt, [EvLog Error (MsgSyncFailed e); EvSetFailed (MsgSyncFailed e)])
  end.
Proof.
  intros w inp raw h Hraw Hsep. rewrite main_run.
  destruct (settings_of w inp) as [s|e] eqn:Hs; [|reflexivity].
  pose proof (settings_of_platforms w inp Hraw Hs) as Hps.
  rewrite (parsePlatforms_only_separators raw Hsep) in Hps.
  rewrite Hps. reflexivity.
Qed.

(** ** More on the asset resolver *)

Lemma split_ws_from_pieces : forall s in_sep p,
  In p (split_ws_from in_sep s) -> has_space p = false.
Proof.
  induction s as [|c s IH]; simpl; intros in_sep p Hin.
  - destruct Hin as [<-|[]]. reflexivity.
  - destruct (is_space c) eqn:E.
    + destruct in_sep; [eauto|].
      destruct Hin as [<-|Hin]; [reflexivity | eauto].
    + destruct (split_ws_from false s) as [|w ws] eqn:Ew; simpl in Hin.
      * destruct Hin as [<-|[]]. simpl. now rewrite E.
      * destruct Hin as [<-|Hin].
        -- simpl. rewrite E. apply (IH false). rewrite Ew. now left.
        -- apply (IH false). rewrite Ew. now right.
Qed.

Lemma split_ws_from_only_spaces : forall s in_sep p,
  only_spaces s = true -> In p (split_ws_from in_sep s) -> p = EmptyString.
Proof.
  induction s as [|c s IH]; simpl; intros in_sep p Hs Hin.
  - destruct Hin as [<-|[]]. reflexivity.
  - apply andb_true_iff in Hs. destruct Hs as [Hc Hs]. rewrite Hc in Hin.
    destruct in_sep; [eauto|].
    destruct Hin as [<-|Hin]; [reflexivity | eauto].
Qed.

Lemma no_space_is_trimmed : forall s, has_space s = false -> is_trimmed s = true.
Proof.
  intros s H. unfold is_trimmed.
  assert (H1 : opt_space (first_char s) = false).
  { destruct s as [|c s]; simpl in *; [reflexivity|].
    apply orb_false_iff in H. tauto. }
  assert (H2 : opt_space (last_char s) = false).
  { induction s as [|c s IH]; [reflexivity|].
    simpl in H. apply orb_false_iff in H. destruct H as [Hc Hs].
    destruct s as [|d s']; [exact Hc|].
    apply IH; [exact Hs|]. simpl in Hs. apply orb_false_iff in Hs.
    simpl. tauto. }
  now rewrite H1, H2.
Qed.

(** X4: the patterns that [resolveAssetFiles] hands to [glob] are the
    maximal runs of non-space characters of the input: each is non-empty
    and holds no white space, so a path with a space in it is never
    searched as one pattern; and an input of white space only resolves to
    no file. *)
Theorem assetPatterns_have_no_space : forall assetInput,
  (forall pattern, In pattern (assetPatterns assetInput) ->
     truthy pattern = true /\ has_space pattern = false) /\
  (forall fs, only_spaces assetInput = true ->
     resolveAssetFiles fs assetInput = Resolved []).
Proof.
  intros assetInput. split.
  - intros pattern Hin. unfold assetPatterns in Hin.
    apply filter_In in Hin. destruct Hin as [Hin Ht]. split; [exact Ht|].
    apply in_map_iff in Hin. destruct Hin as [piece [<- Hpiece]].
    pose proof (split_ws_from_pieces assetInput false piece Hpiece) as Hns.
    rewrite (trim_fixed piece (no_space_is_trimmed piece Hns)). exact Hns.
  - intros fs Hsp. unfold resolveAssetFiles.
    destruct (negb (truthy assetInput)); [reflexivity|].
    assert (Hpat : assetPatterns assetInput = []).
    { unfold assetPatterns, split_ws.
      assert (Hall : forall p, In p (split_ws_from false assetInput) -> p = EmptyString)
        by (intros p; apply split_ws_from_only_spaces; exact Hsp).
      induction (split_ws_from false assetInput) as [|p l IH]; [reflexivity|].
      simpl. rewrite (Hall p (or_introl eq_refl)). simpl.
      apply IH. intros q Hq. apply Hall. now right. }
    rewrite Hpat. reflexivity.
Qed.

Lemma assetPatterns_have_no_space_witness :
  (truthy "dist/*.txt" = true /\ has_space "dist/*.txt" = false) /\
  resolveAssetFiles example_fs "   " = Resolved [].
Proof.
  split.
  - apply (proj1 (assetPatterns_have_no_space "dist/a.txt  dist/*.txt")).
    vm_compute. auto.
  - apply (proj2 (assetPatterns_have_no_space "   ")). reflexivity.
Defined.

(** ** More on the simple adapter *)

Section GitHubMore.

Variable w : World.

Lemma getFileInfo_name : forall filePath h info,
  completion (getFileInfo w filePath h) = Resolved (Some info) ->
  fi_name info = basename filePath.
Proof.
  intros filePath h info.
  unfold getFileInfo, try_catch, bind, ask, lift, ret, emit, completion.
  cbn [app]. destruct (w_stat w _) as [fileStat|e]; [|simpl; discriminate].
  destruct (w_readFile w _); simpl; [|discriminate].
  destruct (toISOString (stat_mtime fileStat)); simpl; [|discriminate].
  intros H. injection H as <-. reflexivity.
Qed.

(** One iteration of the loop of [publishGitHubRelease], then the rest. *)
Lemma github_upload_loop_cons : forall owner repo releaseId total index filePath rest h,
  let mark := EvLog Info (MsgGitHubProcessingAsset (index + 1) total filePath) in
  let rF := getFileInfo w filePath (h ++ [mark]) in
  let continue := fun pre =>
    (completion (github_upload_loop w owner repo releaseId total (S index) rest (h ++ pre)),
     pre ++ events (github_upload_loop w owner repo releaseId total (S index) rest (h ++ pre))) in
  github_upload_loop w owner repo releaseId total index (filePath :: rest) h =
  match completion rF with
  | Resolved None =>
      continue (mark :: events rF ++ [EvLog Warning (MsgGitHubSkipAsset filePath)])
  | Resolved (Some info) =>
      let req := EvOctokitUploadReleaseAsset owner repo releaseId
                   (fi_name info) (fi_content info) in
      match w_uploadReleaseAsset w (h ++ mark :: events rF ++ [req]) with
      | Resolved _ =>
          continue (mark :: events rF ++
                    [req; EvLog Info (MsgGitHubAssetUploaded (index + 1) total (fi_name info))])
      | Rejected e => (Rejected e, mark :: events rF ++ [req])
      end
  | Rejected e => (Rejected e, mark :: events rF)
  end.
Proof.
  intros owner repo releaseId total index filePath rest h mark rF continue.
  subst continue. simpl github_upload_loop. fold mark.
  rewrite bind_emit, bind_run. fold rF.
  destruct (completion rF) as [[info|]|e]; cbn [completion events fst snd].
  - rewrite bind_run, bind_run. unfold ask, emit. cbn [completion events fst snd].
    set (req := EvOctokitUploadReleaseAsset owner repo releaseId
                  (fi_name info) (fi_content info)).
    replace (h ++ mark :: events rF ++ [req]) with (((h ++ [mark]) ++ events rF) ++ [req])
      by (rewrite <- !app_assoc; reflexivity).
    destruct (w_uploadReleaseAsset w (((h ++ [mark]) ++ events rF) ++ [req])) as [[]|e];
      cbn [completion events fst snd].
    + set (done := EvLog Info (MsgGitHubAssetUploaded (index + 1) total (fi_name info))).
      replace (((h ++ [mark]) ++ events rF) ++ [req] ++ [done])
        with (h ++ mark :: events rF ++ [req; done])
        by (rewrite <- !app_assoc; reflexivity).
      f_equal. simpl. rewrite <- !app_assoc. reflexivity.
    + reflexivity.
  - rewrite bind_emit. cbn [completion events fst snd].
    replace (((h ++ [mark]) ++ events rF) ++ [EvLog Warning (MsgGitHubSkipAsset filePath)])
      with (h ++ mark :: events rF ++ [EvLog Warning (MsgGitHubSkipAsset filePath)])
      by (rewrite <- !app_assoc; reflexivity).
    f_equal. simpl. rewrite <- !app_assoc. reflexivity.
  - reflexivity.
Qed.


Lemma fs_footprint_projections : forall out,
  Forall fs_footprint out ->
  filter is_github_upload out = [] /\
  filter is_github_skip out = [] /\
  github_attempted out = [] /\
  filter is_set_failed out = [] /\
  network_calls out = [] /\
  (forall files releaseId, Forall (github_upload_of files releaseId) out).
Proof.
  intros out H.
  repeat split;
    try (apply filter_none; eapply Forall_impl; [|exact H]; by_cases_on_event);
    try (apply pick_none; eapply Forall_impl; [|exact H]; by_cases_on_event).
  intros files releaseId. eapply Forall_impl; [|exact H]. by_cases_on_event.
Qed.

Lemma github_upload_of_weaken : forall filePath rest releaseId out,
  Forall (github_upload_of rest releaseId) out ->
  Forall (github_upload_of (filePath :: rest) releaseId) out.
Proof.
  intros filePath rest releaseId out H. eapply Forall_impl; [|exact H].
  intros [] Hev; simpl in *; try exact I.
  destruct Hev as [Hr Hn]. split; [exact Hr | now right].
Qed.

(** What the loop of the simple adapter keeps: every attempted asset was
    skipped or had its upload call; the uploads go to the given release
    under base names of the listed files; the loop makes no other call and
    does not touch the failure status. *)
Lemma github_upload_loop_accounting : forall owner repo releaseId total files index h,
  let out := events (github_upload_loop w owner repo releaseId total index files h) in
  length (filter is_github_upload out) + length (filter is_github_skip out) =
    length (github_attempted out) /\
  length (github_attempted out) <= length files /\
  Forall (github_upload_of files releaseId) out /\
  filter is_set_failed out = [] /\
  network_calls out = filter is_github_upload out.
Proof.
  intros owner repo releaseId total files.
  induction files as [|filePath rest IH]; intros index h.
  - simpl. repeat split; auto.
  - cbv zeta. rewrite github_upload_loop_cons.
    set (mark := EvLog Info (MsgGitHubProcessingAsset (index + 1) total filePath)).
    pose proof (getFileInfo_footprint w filePath (h ++ [mark])) as Hfp.
    pose proof (getFileInfo_name filePath (h ++ [mark])) as Hname.
    set (rF := getFileInfo w filePath (h ++ [mark])) in *.
    destruct (fs_footprint_projections Hfp) as [F1 [F2 [F3 [F4 [F5 F6]]]]].
    unfold github_attempted, network_calls in *.
    destruct (completion rF) as [[info|]|e] eqn:Ecomp; cbv zeta.
    + specialize (Hname info eq_refl).
      assert (Hreq : forall data, github_upload_of (filePath :: rest) releaseId
                (EvOctokitUploadReleaseAsset owner repo releaseId (fi_name info) data)).
      { intros data. split; [reflexivity | left; symmetry; exact Hname]. }
      destruct (w_uploadReleaseAsset w _) as [[]|e]; cbn [completion events fst snd].
      * match goal with
        | |- context [github_upload_loop w owner repo releaseId total (S index) rest ?h1] =>
            destruct (IH (S index) h1) as [I1 [I2 [I3 [I4 I5]]]]
        end.
        simpl. rewrite !filter_app, !pick_app, F1, F2, F3, F4, F5. simpl.
        split; [lia|]. split; [lia|]. split; [|split; [exact I4 | now rewrite I5]].
        constructor; [exact I|]. rewrite !Forall_app.
        split; [split; [apply F6|]|apply github_upload_of_weaken; exact I3].
        constructor; [apply Hreq|]. constructor; [exact I | constructor].
      * simpl. rewrite !filter_app, !pick_app, F1, F2, F3, F4, F5. simpl.
        split; [lia|]. split; [lia|]. split; [|split; reflexivity].
        constructor; [exact I|]. rewrite !Forall_app. split; [apply F6|].
        constructor; [apply Hreq | constructor].
    + cbn [completion events fst snd].
      match goal with
      | |- context [github_upload_loop w owner repo releaseId total (S index) rest ?h1] =>
          destruct (IH (S index) h1) as [I1 [I2 [I3 [I4 I5]]]]
      end.
      simpl. rewrite !filter_app, !pick_app, F1, F2, F3, F4, F5. simpl.
      split; [lia|]. split; [lia|]. split; [|split; [exact I4 | exact I5]].
      constructor; [exact I|]. rewrite !Forall_app.
      split; [split; [apply F6|]|apply github_upload_of_weaken; exact I3].
      constructor; [exact I | constructor].
    + exfalso. pose proof (getFileInfo_never_throws w filePath (h ++ [mark])) as Hnt.
      fold rF in Hnt. rewrite Ecomp in Hnt. discriminate.
Qed.

End GitHubMore.

Lemma forallb_filter_same : forall (A : Type) (f : A -> bool) l,
  forallb f (filter f l) = true.
Proof.
  intros A f l. induction l as [|x l IH]; simpl; [reflexivity|].
  destruct (f x) eqn:E; simpl; [now rewrite E|exact IH].
Qed.

(** X5: the simple adapter creates the release before anything else.  Its
    first network call, if it makes one, is the release-create call for the
    repository of the context; every later call is an upload, at most one
    per asset; and when the creation is rejected the run is fatal with no
    upload and no file read. *)
Theorem github_creates_before_uploading : forall w o h,
  let r := publishGitHubRelease w o h in
  network_calls (events r) = [] \/
  exists ctx uploads,
    let create := EvOctokitCreateRelease (fst ctx) (snd ctx) (gh_tag o)
                    (gh_releaseName o) (gh_body o) (gh_draft o) (gh_prerelease o) in
    w_context_repo w = Resolved ctx /\
    network_calls (events r) = create :: uploads /\
    forallb is_github_upload uploads = true /\
    length uploads <= length (gh_assetFiles o) /\
    (forall e,
       w_createRelease w (h ++ [EvLog Info MsgGitHubInit; create]) = Rejected e ->
       uploads = [] /\ filter is_file_read (events r) = [] /\
       completion r = Rejected e).
Proof.
  intros w o h r. subst r. rewrite publishGitHubRelease_phases.
  destruct (w_getOctokit w (gh_token o)) as [[]|e0]; [|left; reflexivity].
  destruct (w_context_repo w) as [ctx|e0]; [|left; reflexivity].
  right. exists ctx. cbv zeta.
  set (create := EvOctokitCreateRelease (fst ctx) (snd ctx) (gh_tag o)
                   (gh_releaseName o) (gh_body o) (gh_draft o) (gh_prerelease o)).
  destruct (w_createRelease w (h ++ [EvLog Info MsgGitHubInit; create]))
    as [releaseResponse|e0].
  2:{ exists []. split; [reflexivity|]. split; [reflexivity|].
      split; [reflexivity|]. split; [simpl; lia|].
      intros e1 He. injection He as <-. repeat split. }
  destruct (github_upload_loop_accounting w (fst ctx) (snd ctx) (gh_id releaseResponse)
              (length (gh_assetFiles o)) (gh_assetFiles o) 0
              (h ++ [EvLog Info MsgGitHubInit; create])) as [I1 [I2 [_ [_ I5]]]].
  set (rU := github_upload_loop w (fst ctx) (snd ctx) (gh_id releaseResponse)
               (length (gh_assetFiles o)) 0 (gh_assetFiles o)
               (h ++ [EvLog Info MsgGitHubInit; create])) in *.
  exists (filter is_github_upload (events rU)).
  split; [reflexivity|].
  split.
  { unfold network_calls in *.
    destruct (completion rU); cbn [events snd]; simpl;
      rewrite ?filter_app, I5; simpl; rewrite ?app_nil_r; reflexivity. }
  split; [apply forallb_filter_same|]. split; [lia|].
  intros e1 He. discriminate.
Qed.

(** X6: the uploads of the simple adapter go to the release that the
    creation call returned, each under the base name of one of the asset
    files, and a successful run returns the data of the creation
    response. *)
Theorem github_uploads_target_created_release : forall w o h ctx releaseResponse,
  let create := EvOctokitCreateRelease (fst ctx) (snd ctx) (gh_tag o)
                  (gh_releaseName o) (gh_body o) (gh_draft o) (gh_prerelease o) in
  let r := publishGitHubRelease w o h in
  w_getOctokit w (gh_token o) = Resolved tt ->
  w_context_repo w = Resolved ctx ->
  w_createRelease w (h ++ [EvLog Info MsgGitHubInit; create]) = Resolved releaseResponse ->
  Forall (github_upload_of (gh_assetFiles o) (gh_id releaseResponse)) (events r) /\
  (forall data, completion r = Resolved data -> data = releaseResponse).
Proof.
  intros w o h ctx releaseResponse create r Hclient Hctx Hcreate. subst r.
  rewrite publishGitHubRelease_phases, Hclient, Hctx. cbv zeta. fold create.
  rewrite Hcreate.
  destruct (github_upload_loop_accounting w (fst ctx) (snd ctx) (gh_id releaseResponse)
              (length (gh_assetFiles o)) (gh_assetFiles o) 0
              (h ++ [EvLog Info MsgGitHubInit; create])) as [_ [_ [I3 _]]].
  destruct (completion (github_upload_loop w (fst ctx) (snd ctx) (gh_id releaseResponse)
              (length (gh_assetFiles o)) 0 (gh_assetFiles o)
              (h ++ [EvLog Info MsgGitHubInit; create]))) as [[]|e];
    cbn [completion events fst snd].
  - split; [|intros data H; injection H as <-; reflexivity].
    constructor; [exact I|]. constructor; [exact I | exact I3].
  - split; [|intros data H; discriminate].
    constructor; [exact I|]. constructor; [exact I|].
    apply Forall_app. split; [exact I3|]. repeat constructor.
Qed.

Lemma github_uploads_target_created_release_witness :
  Forall (github_upload_of three_assets 7)
    (events (publishGitHubRelease quiet_world (example_github_options three_assets) [])).
Proof.
  exact (proj1 (@github_uploads_target_created_release quiet_world
                  (example_github_options three_assets) [] ("octo", "demo")
                  {| gh_id := 7; gh_html_url := "https://github.com/octo/demo/releases/7" |}
                  eq_refl eq_refl eq_refl)).
Defined.

Lemma github_creates_before_uploading_witness :
  network_calls (events (publishGitHubRelease github_refuses_world
                           (example_github_options three_assets) [])) =
  [EvOctokitCreateRelease "octo" "demo" "v1.0.0" "Release v1.0.0" "" false false] /\
  filter is_file_read (events (publishGitHubRelease github_refuses_world
                                 (example_github_options three_assets) [])) = [].
Proof.
  destruct (github_creates_before_uploading github_refuses_world
              (example_github_options three_assets) [])
    as [Hnone|[ctx [uploads [Hctx [Hcalls [_ [_ Hrej]]]]]]].
  - vm_compute in Hnone. discriminate.
  - injection Hctx as <-. cbn [fst snd] in Hcalls, Hrej.
    destruct (Hrej (http_error 422) eq_refl) as [Hup [Hread _]].
    rewrite Hcalls, Hup. split; [reflexivity | exact Hread].
Defined.

(** X7: the simple adapter sets the failure status exactly when it throws:
    a fatal run calls [core.setFailed] once, with the error it throws, and
    a successful run does not call it. *)
Theorem github_sets_failed_iff_fatal : forall w o h,
  let r := publishGitHubRelease w o h in
  match completion r with
  | Rejected e => filter is_set_failed (events r) = [EvSetFailed (MsgGitHubFailed e)]
  | Resolved _ => filter is_set_failed (events r) = []
  end.
Proof.
  intros w o h r. subst r. rewrite publishGitHubRelease_phases.
  destruct (w_getOctokit w (gh_token o)) as [[]|e0]; [|reflexivity].
  destruct (w_context_repo w) as [ctx|e0]; [|reflexivity].
  cbv zeta.
  destruct (w_createRelease w _) as [releaseResponse|e0]; [|reflexivity].
  match goal with
  | |- context [completion ?rU] =>
      match rU with
      | github_upload_loop w ?ow ?rp ?rid ?total ?i ?files ?h1 =>
          destruct (github_upload_loop_accounting w ow rp rid total files i h1)
            as [_ [_ [_ [I4 _]]]]
      end;
      destruct (completion rU)
  end; cbn [completion events fst snd]; simpl; rewrite ?filter_app, I4; reflexivity.
Qed.

(** X8: the simple adapter accounts for every asset it attempts: each one
    is either skipped with a warning or has its upload call, and in a run
    that is not fatal the uploads and the skips add up to the number of
    assets. *)
Theorem github_assets_accounted : forall w o h,
  let out := events (publishGitHubRelease w o h) in
  length (filter is_github_upload out) + length (filter is_github_skip out) =
    length (github_attempted out) /\
  (is_rejected (completion (publishGitHubRelease w o h)) = false ->
   length (filter is_github_upload out) + length (filter is_github_skip out) =
     length (gh_assetFiles o)).
Proof.
  intros w o h out. subst out. rewrite publishGitHubRelease_phases.
  destruct (w_getOctokit w (gh_token o)) as [[]|e0];
    [|split; [reflexivity | discriminate]].
  destruct (w_context_repo w) as [ctx|e0]; [|split; [reflexivity | discriminate]].
  cbv zeta.
  destruct (w_createRelease w _) as [releaseResponse|e0];
    [|split; [reflexivity | discriminate]].
  match goal with
  | |- context [completion ?rU] =>
      match rU with
      | github_upload_loop w ?ow ?rp ?rid ?total ?i ?files ?h1 =>
          destruct (github_upload_loop_accounting w ow rp rid total files i h1)
            as [I1 _];
          pose proof (github_upload_loop_run w ow rp rid total files i h1) as Hrun;
          cbv zeta in Hrun
      end;
      destruct (completion rU)
  end; cbn [completion events fst snd]; unfold github_attempted in *; simpl;
    rewrite ?filter_app, ?pick_app, ?length_app; simpl.
  - destruct Hrun as [_ Hatt]. split; [exact I1|]. intros _. rewrite I1, Hatt. reflexivity.
  - split; [lia | discriminate].
Qed.

Lemma github_assets_accounted_witness :
  length (filter is_github_upload
            (events (publishGitHubRelease flaky_upload_world
                       (example_github_options ["/d/a.bin"; "/d/gone.bin"; "/d/c.bin"]) []))) +
  length (filter is_github_skip
            (events (publishGitHubRelease flaky_upload_world
                       (example_github_options ["/d/a.bin"; "/d/gone.bin"; "/d/c.bin"]) []))) =
  3.
Proof.
  exact (proj2 (github_assets_accounted flaky_upload_world
                  (example_github_options ["/d/a.bin"; "/d/gone.bin"; "/d/c.bin"]) [])
           eq_refl).
Defined.

(** ** More on the reconciling adapter *)

(** X9: when the tag probe answers 404 and the tag-create call then fails,
    the run is fatal with the error of the tag-create call: the release is
    not created and no asset is attempted. *)
Theorem gitee_tag_creation_failure_is_fatal : forall w o h error e,
  let probe := EvGiteeGetTag (gt_owner o) (gt_repo o) (gt_tag o) (gt_token o) in
  let create := EvGiteePostTag (gt_owner o) (gt_repo o) (gt_token o) (gt_tag o)
                  (gt_targetCommitish o) in
  let r := publishGiteeRelease w o h in
  w_axios w (h ++ [EvLog Info MsgGiteeStart; probe]) = Rejected error ->
  status_is error 404 = true ->
  w_axios w (h ++ [EvLog Info MsgGiteeStart; probe; EvLog Info MsgGiteeTagNotFound; create]) =
    Rejected e ->
  completion r = Rejected e /\
  network_calls (events r) = [probe; create] /\
  gitee_attempted (events r) = [].
Proof.
  intros w o h error e probe create r Hprobe H404 Hcreate. subst r.
  rewrite publishGiteeRelease_phases, gitee_reconcile_tag_run.
  fold probe. fold create. rewrite <- !app_assoc. cbn [app].
  rewrite Hprobe, H404, Hcreate. repeat split.
Qed.

Lemma gitee_tag_creation_failure_is_fatal_witness :
  completion (publishGiteeRelease tag_create_fails_world
                (example_gitee_options three_assets) []) = Rejected (http_error 400) /\
  network_calls (events (publishGiteeRelease tag_create_fails_world
                           (example_gitee_options three_assets) [])) =
    [EvGiteeGetTag "octo" "demo" "v1.0.0" "secret";
     EvGiteePostTag "octo" "demo" "secret" "v1.0.0" "master"] /\
  gitee_attempted (events (publishGiteeRelease tag_create_fails_world
                             (example_gitee_options three_assets) [])) = [].
Proof.
  exact (@gitee_tag_creation_failure_is_fatal tag_create_fails_world
           (example_gitee_options three_assets) [] (http_error 404) (http_error 400)
           eq_refl eq_refl eq_refl).
Defined.

Lemma assets_footprint_no_release_create : forall ev,
  gitee_assets_footprint ev -> is_gitee_release_create ev = false.
Proof. intros ev [H|[H|H]]; revert H; revert ev; by_cases_on_event. Qed.

Lemma assets_footprint_calls : forall ev,
  gitee_assets_footprint ev -> is_network_call ev = true ->
  is_release_lookup ev || is_attach ev = true.
Proof. intros ev [H|[H|H]]; revert H; revert ev; by_cases_on_event. Qed.

Lemma assets_network_calls : forall out,
  Forall gitee_assets_footprint out ->
  forallb (fun ev => is_release_lookup ev || is_attach ev) (network_calls out) = true.
Proof.
  intros out H. apply forallb_forall. intros ev Hev.
  unfold network_calls in Hev. apply filter_In in Hev. destruct Hev as [Hin Hcall].
  apply assets_footprint_calls; [|exact Hcall].
  exact (proj1 (Forall_forall _ _) H ev Hin).
Qed.

(** X10: the reconciling adapter always begins with the tag probe; the
    only call that can follow it before the release is created is the
    tag-create call.  When the tag reconciliation succeeded, the next call
    is the release-create call, which is issued exactly once, and every
    call after it is the identifier lookup or an attach call: the adapter
    does not first ask whether a release for the tag exists.  When the tag
    reconciliation failed, no release is created. *)
Theorem gitee_creates_release_once : forall w o h,
  let h0 := h ++ [EvLog Info MsgGiteeStart] in
  let rA := gitee_reconcile_tag w o h0 in
  let probe := EvGiteeGetTag (gt_owner o) (gt_repo o) (gt_tag o) (gt_token o) in
  let tag_create := EvGiteePostTag (gt_owner o) (gt_repo o) (gt_token o) (gt_tag o)
                      (gt_targetCommitish o) in
  let create := EvGiteePostRelease (gt_owner o) (gt_repo o) (gt_token o) (gt_tag o)
                  (gt_releaseName o) (gt_body o) (gt_prerelease o)
                  (gt_targetCommitish o) in
  let r := publishGiteeRelease w o h in
  (exists tag_calls,
     (tag_calls = [] \/ tag_calls = [tag_create]) /\
     if is_rejected (completion rA)
     then network_calls (events r) = probe :: tag_calls
     else exists rest,
            network_calls (events r) = probe :: tag_calls ++ create :: rest /\
            forallb (fun ev => is_release_lookup ev || is_attach ev) rest = true) /\
  filter is_gitee_release_create (events r) =
    (if is_rejected (completion rA) then [] else [create]).
Proof.
  intros w o h h0 rA probe tag_create create r. subst r.
  rewrite publishGiteeRelease_phases. fold h0. fold rA.
  set (rB := gitee_create_release w o (h0 ++ events rA)).
  assert (HA : exists tag_calls,
                 (tag_calls = [] \/ tag_calls = [tag_create]) /\
                 network_calls (events rA) = probe :: tag_calls /\
                 filter is_gitee_release_create (events rA) = []).
  { subst rA. rewrite gitee_reconcile_tag_run. fold probe. fold tag_create.
    destruct (w_axios w (h0 ++ [probe])) as [resp|error].
    - exists []. split; [now left|]. split; reflexivity.
    - destruct (status_is error 404); [destruct (w_axios w _)|].
      + exists [tag_create]. split; [now right|]. split; reflexivity.
      + exists [tag_create]. split; [now right|]. split; reflexivity.
      + exists []. split; [now left|]. split; reflexivity. }
  destruct HA as [tag_calls [Hshape [HA1 HA2]]].
  assert (HB : network_calls (events rB) = [create] /\
               filter is_gitee_release_create (events rB) = [create]).
  { subst rB. rewrite gitee_create_release_run. fold create.
    destruct (w_axios w _); split; reflexivity. }
  destruct HB as [HB1 HB2].
  set (rC := gitee_assets_step w o ((h0 ++ events rA) ++ events rB)).
  pose proof (gitee_assets_step_footprint w o ((h0 ++ events rA) ++ events rB)) as FC.
  fold rC in FC.
  assert (HC : filter is_gitee_release_create (events rC) = []).
  { apply filter_none. eapply Forall_impl; [|exact FC].
    apply assets_footprint_no_release_create. }
  pose proof (assets_network_calls FC) as HC1.
  unfold network_calls in *.
  destruct (completion rA) as [[]|eA]; cbn [is_rejected].
  - destruct (completion rB) as [[]|eB];
      [destruct (completion rC) as [[]|eC]|]; cbn [completion events fst snd]; simpl;
      rewrite !filter_app, HA1, HA2, HB1, HB2, ?HC; simpl;
      (split; [|reflexivity]); exists tag_calls; (split; [exact Hshape|]).
    + exists (filter is_network_call (events rC)).
      rewrite app_nil_r. split; [reflexivity | exact HC1].
    + exists (filter is_network_call (events rC)).
      rewrite app_nil_r. split; [reflexivity | exact HC1].
    + exists []. split; reflexivity.
  - cbn [completion events fst snd]. simpl.
    rewrite !filter_app, HA1, HA2. simpl. rewrite app_nil_r.
    split; [|reflexivity]. exists tag_calls. split; [exact Hshape | reflexivity].
Qed.

(** X11: when the tag reconciliation succeeded and the release-create call
    fails, the run is fatal with the error of that call: the release is
    not looked up, nothing is attached and no asset is attempted. *)
Theorem gitee_release_creation_failure_is_fatal : forall w o h e,
  let h0 := h ++ [EvLog Info MsgGiteeStart] in
  let rA := gitee_reconcile_tag w o h0 in
  let rB := gitee_create_release w o (h0 ++ events rA) in
  let r := publishGiteeRelease w o h in
  completion rA = Resolved tt ->
  completion rB = Rejected e ->
  completion r = Rejected e /\
  release_lookups (events r) = [] /\
  filter is_attach (events r) = [] /\
  gitee_attempted (events r) = [].
Proof.
  intros w o h e h0 rA rB r HrA HrB. subst r.
  rewrite publishGiteeRelease_phases. fold h0. fold rA. fold rB.
  destruct (gitee_early_projections w o h0) as [[LA [MA TA]] _].
  destruct (gitee_early_projections w o (h0 ++ events rA)) as [_ [LB [MB TB]]].
  fold rA in LA, MA, TA. fold rB in LB, MB, TB.
  rewrite HrA, HrB. cbn [completion events fst snd].
  unfold release_lookups, gitee_attempted in *. simpl.
  rewrite !filter_app, !pick_app, LA, LB, MA, MB, TA, TB. simpl.
  repeat split.
Qed.

Lemma gitee_release_creation_failure_is_fatal_witness :
  completion (publishGiteeRelease release_create_fails_world
                (example_gitee_options three_assets) []) = Rejected (http_error 400) /\
  release_lookups (events (publishGiteeRelease release_create_fails_world
                             (example_gitee_options three_assets) [])) = [] /\
  filter is_attach (events (publishGiteeRelease release_create_fails_world
                              (example_gitee_options three_assets) [])) = [] /\
  gitee_attempted (events (publishGiteeRelease release_create_fails_world
                             (example_gitee_options three_assets) [])) = [].
Proof.
  exact (@gitee_release_creation_failure_is_fatal release_create_fails_world
           (example_gitee_options three_assets) [] (http_error 400)
           eq_refl eq_refl).
Defined.

(** ** How a run reports its outcome *)

Lemma plain_events_filters : forall out,
  Forall plain_event out ->
  filter is_set_failed out = [] /\ filter is_workflow_completed out = [] /\
  filter is_gitee_success out = [].
Proof.
  intros out H.
  repeat split; apply filter_none; (eapply Forall_impl; [|exact H]);
    intros ev Hev; apply Hev.
Qed.

Lemma gitee_early_plain : forall ev, gitee_early_footprint ev -> plain_event ev.
Proof. unfold plain_event. by_cases_on_event; repeat split; reflexivity. Qed.

Lemma gitee_assets_plain : forall ev, gitee_assets_footprint ev -> plain_event ev.
Proof.
  unfold plain_event.
  intros ev [H|[H|H]]; revert H; revert ev; by_cases_on_event; repeat split; reflexivity.
Qed.

Lemma last_event_snoc : forall h ev, last_event (h ++ [ev]) = Some ev.
Proof.
  intros h ev. unfold last_event. rewrite map_app. simpl. apply last_last.
Qed.

Lemma publishGiteeRelease_outcome : forall w o h,
  let r := publishGiteeRelease w o h in
  filter is_set_failed (events r) = [] /\
  filter is_workflow_completed (events r) = [] /\
  filter is_gitee_success (events r) =
    (if is_rejected (completion r) then [] else [EvLog Info MsgGiteeSuccess]) /\
  last_event (events r) =
    Some (match completion r with
          | Resolved _ => EvLog Info MsgGiteeSuccess
          | Rejected e => EvLog Error (MsgGiteeFatal e)
          end).
Proof.
  intros w o h r. subst r. rewrite publishGiteeRelease_phases.
  set (h0 := h ++ [EvLog Info MsgGiteeStart]).
  set (rA := gitee_reconcile_tag w o h0).
  set (rB := gitee_create_release w o (h0 ++ events rA)).
  set (rC := gitee_assets_step w o ((h0 ++ events rA) ++ events rB)).
  destruct (@plain_events_filters (events rA)) as [A1 [A2 A3]].
  { eapply Forall_impl; [apply gitee_early_plain | apply gitee_reconcile_tag_footprint]. }
  destruct (@plain_events_filters (events rB)) as [B1 [B2 B3]].
  { eapply Forall_impl; [apply gitee_early_plain | apply gitee_create_release_footprint]. }
  destruct (@plain_events_filters (events rC)) as [C1 [C2 C3]].
  { eapply Forall_impl; [apply gitee_assets_plain | apply gitee_assets_step_footprint]. }
  destruct (completion rA) as [[]|eA];
    [destruct (completion rB) as [[]|eB];
       [destruct (completion rC) as [[]|eC]|]|];
    cbn [completion events fst snd is_rejected]; simpl;
    rewrite ?filter_app, ?A1, ?A2, ?A3, ?B1, ?B2, ?B3, ?C1, ?C2, ?C3; simpl;
    (split; [reflexivity|]); (split; [reflexivity|]); (split; [reflexivity|]);
    rewrite ?app_assoc, app_comm_cons; apply last_event_snoc.
Qed.

(** X12: the reconciling adapter never sets the failure status itself; it
    reports a fatal error by throwing.  Its last event is the success line
    when it returns and the error line of the thrown error when it throws,
    and the success line occurs in no run that throws. *)
Theorem gitee_reports_by_throwing : forall w o h,
  let r := publishGiteeRelease w o h in
  filter is_set_failed (events r) = [] /\
  match completion r with
  | Resolved _ =>
      last_event (events r) = Some (EvLog Info MsgGiteeSuccess) /\
      filter is_gitee_success (events r) = [EvLog Info MsgGiteeSuccess]
  | Rejected e =>
      last_event (events r) = Some (EvLog Error (MsgGiteeFatal e)) /\
      filter is_gitee_success (events r) = []
  end.
Proof.
  intros w o h r.
  destruct (publishGiteeRelease_outcome w o h) as [H1 [_ [H3 H4]]]. fold r in H1, H3, H4.
  split; [exact H1|].
  destruct (completion r); cbn [is_rejected] in H3; split; assumption.
Qed.

Lemma github_body_not_completed : forall w ev,
  github_body_footprint w ev -> is_workflow_completed ev = false.
Proof. intros w. by_cases_on_event. Qed.

Lemma publishGitHubRelease_outcome : forall w o h,
  let r := publishGitHubRelease w o h in
  filter is_workflow_completed (events r) = [] /\
  (is_rejected (completion r) = false -> filter is_set_failed (events r) = []).
Proof.
  intros w o h r. subst r. split.
  - destruct (publishGitHubRelease_events w o h) as [rest [-> Hrest]].
    simpl. apply filter_none. eapply Forall_impl; [|exact Hrest].
    apply github_body_not_completed.
  - rewrite publishGitHubRelease_phases.
    destruct (w_getOctokit w (gh_token o)) as [[]|e0]; [|discriminate].
    destruct (w_context_repo w) as [ctx|e0]; [|discriminate].
    cbv zeta.
    destruct (w_createRelease w _) as [releaseResponse|e0]; [|discriminate].
    match goal with
    | |- context [completion ?rU] =>
        match rU with
        | github_upload_loop w ?ow ?rp ?rid ?total ?i ?files ?h1 =>
            destruct (github_upload_loop_accounting w ow rp rid total files i h1)
              as [_ [_ [_ [I4 _]]]]
        end;
        destruct (completion rU)
    end; cbn [completion events fst snd]; [|discriminate].
    intros _. simpl. exact I4.
Qed.

Lemma sync_platform_outcome : forall w s platform h,
  let r := sync_platform w s platform h in
  filter is_workflow_completed (events r) = [] /\
  (is_rejected (completion r) = false -> filter is_set_failed (events r) = []).
Proof.
  intros w s platform h r. subst r.
  unfold sync_platform. rewrite bind_emit. cbn [completion events fst snd].
  set (h1 := h ++ [EvLog Info (MsgProcessingPlatform platform)]).
  destruct (String.eqb platform "github").
  - rewrite bind_run.
    destruct (publishGitHubRelease_outcome w (github_options s) h1) as [G1 G2].
    destruct (completion (publishGitHubRelease w (github_options s) h1));
      cbn [completion events fst snd is_rejected]; simpl;
      rewrite ?filter_app, G1; (split; [reflexivity|]); [|discriminate].
    intros _. rewrite (G2 eq_refl). reflexivity.
  - destruct (String.eqb platform "gitee").
    + rewrite bind_run.
      destruct (publishGiteeRelease_outcome w (gitee_options s) h1) as [G1 [G2 _]].
      destruct (completion (publishGiteeRelease w (gitee_options s) h1));
        cbn [completion events fst snd is_rejected]; simpl;
        rewrite ?filter_app, G1, G2; split; reflexivity.
    + split; reflexivity.
Qed.

Lemma sync_platforms_outcome : forall w s ps h,
  let r := sync_platforms w s ps h in
  filter is_workflow_completed (events r) = [] /\
  (is_rejected (completion r) = false -> filter is_set_failed (events r) = []).
Proof.
  intros w s ps. induction ps as [|p rest IH]; intros h.
  - split; reflexivity.
  - cbv zeta. rewrite sync_platforms_cons.
    destruct (sync_platform_outcome w s p h) as [P1 P2].
    destruct (completion (sync_platform w s p h)) as [[]|e];
      cbn [completion events fst snd].
    + destruct (IH (h ++ events (sync_platform w s p h))) as [R1 R2].
      rewrite !filter_app, P1, R1, (P2 eq_refl). split; [reflexivity|].
      intros Hok. now rewrite (R2 Hok).
    + split; [exact P1 | discriminate].
Qed.

Lemma validation_not_completed : forall ev,
  validation_footprint ev -> is_workflow_completed ev = false.
Proof. by_cases_on_event. Qed.

(** X13: [main] never throws, and it reports its outcome in exactly one of
    two ways: either the completion line is logged, once, and the failure
    status is never set, or the failure status is set and the completion
    line is not logged. *)
Theorem main_reports_outcome : forall w inp h,
  let r := main w inp h in
  completion r = Resolved tt /\
  ((filter is_workflow_completed (events r) = [EvLog Info MsgWorkflowCompleted] /\
    filter is_set_failed (events r) = []) \/
   (filter is_workflow_completed (events r) = [] /\
    filter is_set_failed (events r) <> [])).
Proof.
  intros w inp h r. subst r. rewrite main_run.
  destruct (settings_of w inp) as [s|e].
  2:{ split; [reflexivity|]. right. split; [reflexivity | discriminate]. }
  destruct (validate_platforms_run s (st_syncPlatforms s) h)
    as [out [Hrun [Hfp [_ Hfailed]]]].
  destruct (forallb (platform_accepted s) (st_syncPlatforms s)).
  - cbv zeta.
    destruct (sync_platforms_outcome w s (st_syncPlatforms s) h) as [S1 S2].
    destruct (completion (sync_platforms w s (st_syncPlatforms s) h)) as [[]|e];
      cbn [completion events fst snd]; (split; [reflexivity|]);
      rewrite !filter_app, S1; simpl.
    + left. rewrite (S2 eq_refl). split; reflexivity.
    + right. split; [reflexivity|].
      intros H. apply app_eq_nil in H. destruct H as [_ H]. discriminate.
  - rewrite Hrun. cbn [completion events fst snd]. split; [reflexivity|].
    right. split; [|exact (Hfailed eq_refl)].
    apply filter_none. eapply Forall_impl; [|exact Hfp].
    apply validation_not_completed.
Qed.

(** X14: a run of [main] that logs the completion line has read all its
    inputs, found every requested platform acceptable, and invoked the
    adapter of every [github] and [gitee] entry of the list, duplicates
    included, in the order of the list, each returning without throwing. *)
Theorem completed_run_invoked_all : forall w inp h,
  filter is_workflow_completed (events (main w inp h)) <> [] ->
  exists s,
    settings_of w inp = Resolved s /\
    forallb (platform_accepted s) (st_syncPlatforms s) = true /\
    completion (sync_platforms w s (st_syncPlatforms s) h) = Resolved tt /\
    adapters_started (events (main w inp h)) = requested_adapters (st_syncPlatforms s).
Proof.
  intros w inp h. rewrite main_run.
  destruct (settings_of w inp) as [s|e]; [|intros H; now elim H].
  destruct (validate_platforms_run s (st_syncPlatforms s) h)
    as [out [Hrun [Hfp _]]].
  destruct (forallb (platform_accepted s) (st_syncPlatforms s)) eqn:Hvalid.
  - cbv zeta.
    destruct (sync_platforms_outcome w s (st_syncPlatforms s) h) as [S1 _].
    destruct (sync_platforms_started w s (st_syncPlatforms s) h) as [k [Hk Hall]].
    destruct (completion (sync_platforms w s (st_syncPlatforms s) h)) as [[]|e] eqn:Hsync;
      cbn [completion events fst snd]; rewrite filter_app, S1; simpl; intros H.
    + exists s. split; [reflexivity|]. split; [exact Hvalid|]. split; [exact Hsync|].
      unfold adapters_started in *. rewrite pick_app, Hk, (Hall eq_refl), firstn_all.
      simpl. apply app_nil_r.
    + now elim H.
  - rewrite Hrun. cbn [events snd]. intros H. elim H.
    apply filter_none. eapply Forall_impl; [|exact Hfp].
    apply validation_not_completed.
Qed.

Lemma completed_run_invoked_all_witness :
  exists s,
    settings_of quiet_world both_platforms_inputs = Resolved s /\
    forallb (platform_accepted s) (st_syncPlatforms s) = true /\
    completion (sync_platforms quiet_world s (st_syncPlatforms s) []) = Resolved tt /\
    adapters_started (events (main quiet_world both_platforms_inputs [])) =
      requested_adapters (st_syncPlatforms s).
Proof.
  apply (@completed_run_invoked_all quiet_world both_platforms_inputs []).
  vm_compute. discriminate.
Defined.

(** *** The validation loop *)

Lemma validate_platforms_first_offender : forall s ps1 p ps2 h,
  forallb (platform_accepted s) ps1 = true ->
  platform_accepted s p = false ->
  validate_platforms s (ps1 ++ p :: ps2) h =
  (Resolved false,
   [EvLog Error (config_error_of s p); EvSetFailed (config_error_of s p)]).
Proof.
  intros s ps1 p ps2 h. induction ps1 as [|q rest IH]; intros Hok Hbad.
  - simpl. unfold platform_accepted in Hbad. unfold config_error_of.
    destruct (platforms_get p); [|reflexivity].
    destruct (String.eqb p "github" && negb (truthy (st_githubToken s)));
      [reflexivity|].
    destruct (String.eqb p "gitee" &&
              (negb (truthy (st_giteeToken s)) ||
               negb (truthy (st_giteeOwner s)) ||
               negb (truthy (st_giteeRepo s)))); [reflexivity|discriminate].
  - simpl in Hok. apply andb_true_iff in Hok. destruct Hok as [Hq Hrest].
    simpl. unfold platform_accepted in Hq.
    destruct (platforms_get q); [|discriminate].
    destruct (String.eqb q "github" && negb (truthy (st_githubToken s)));
      [discriminate|].
    destruct (String.eqb q "gitee" &&
              (negb (truthy (st_giteeToken s)) ||
               negb (truthy (st_giteeOwner s)) ||
               negb (truthy (st_giteeRepo s)))); [discriminate|].
    exact (IH Hrest Hbad).
Qed.

(** X15: the validation loop stops at the first platform it rejects.  The
    whole run of [main] then consists of one error line and one
    [core.setFailed] call, both with the message of that platform's first
    failing test; the platforms after it are not examined, and [main]
    returns normally. *)
Theorem validation_reports_first_offender : forall w inp h s ps1 p ps2,
  settings_of w inp = Resolved s ->
  st_syncPlatforms s = ps1 ++ p :: ps2 ->
  forallb (platform_accepted s) ps1 = true ->
  platform_accepted s p = false ->
  main w inp h =
  (Resolved tt, [EvLog Error (config_error_of s p); EvSetFailed (config_error_of s p)]).
Proof.
  intros w inp h s ps1 p ps2 Hs Hps Hok Hbad.
  rewrite main_run, Hs, Hps.
  rewrite forallb_app. simpl. rewrite Hok, Hbad. simpl.
  rewrite (validate_platforms_first_offender s ps1 p ps2 h Hok Hbad). reflexivity.
Qed.

Lemma validation_reports_first_offender_witness :
  main quiet_world (example_inputs "github,bitbucket,gitee" false) [] =
  (Resolved tt,
   [EvLog Error (MsgUnsupportedPlatform "bitbucket");
    EvSetFailed (MsgUnsupportedPlatform "bitbucket")]).
Proof.
  destruct (settings_of quiet_world (example_inputs "github,bitbucket,gitee" false))
    as [s|e] eqn:Hs; [|vm_compute in Hs; discriminate].
  pose proof (@validation_reports_first_offender quiet_world
                (example_inputs "github,bitbucket,gitee" false) [] s
                ["github"] "bitbucket" ["gitee"] Hs) as H.
  vm_compute in Hs. injection Hs as <-.
  exact (H eq_refl eq_refl eq_refl).
Defined.

(** *** What the validation lets through *)

Lemma has_upper_false_not : forall p key,
  has_upper p = false -> has_upper key = true -> String.eqb p key = false.
Proof.
  intros p key Hp Hkey. destruct (String.eqb p key) eqn:E; [|reflexivity].
  apply String.eqb_eq in E. subst p. congruence.
Qed.

(** X16: of the identifiers that the normalised platform list can hold,
    the validation accepts, besides [github] and [gitee], exactly two that
    the action does not support: [constructor] and [__proto__], the only
    members of [Object.prototype] spelled without a capital letter.  Both
    are accepted whatever the configuration. *)
Theorem validation_admits_two_strays : forall raw s p,
  In p (parsePlatforms raw) ->
  platform_accepted s p = true ->
  supported_platform p = false ->
  (p = "constructor" \/ p = "__proto__") /\
  platform_accepted s "constructor" = true /\
  platform_accepted s "__proto__" = true /\
  parsePlatforms "constructor,__proto__" = ["constructor"; "__proto__"].
Proof.
  intros raw s p Hin Hacc Hsup.
  split; [|repeat split].
  destruct (parsePlatforms_entry raw p Hin) as [_ [_ Hup]].
  unfold platform_accepted, platforms_get in Hacc.
  unfold supported_platform in Hsup. apply orb_false_iff in Hsup.
  destruct Hsup as [Hgh Hgt]. rewrite Hgh, Hgt in Hacc.
  destruct (mem_string p object_prototype_keys) eqn:Hmem; [|discriminate].
  unfold mem_string, object_prototype_keys in Hmem. cbn [existsb] in Hmem.
  rewrite
    (@has_upper_false_not p "__defineGetter__" Hup eq_refl),
    (@has_upper_false_not p "__defineSetter__" Hup eq_refl),
    (@has_upper_false_not p "hasOwnProperty" Hup eq_refl),
    (@has_upper_false_not p "__lookupGetter__" Hup eq_refl),
    (@has_upper_false_not p "__lookupSetter__" Hup eq_refl),
    (@has_upper_false_not p "isPrototypeOf" Hup eq_refl),
    (@has_upper_false_not p "propertyIsEnumerable" Hup eq_refl),
    (@has_upper_false_not p "toString" Hup eq_refl),
    (@has_upper_false_not p "valueOf" Hup eq_refl),
    (@has_upper_false_not p "toLocaleString" Hup eq_refl) in Hmem.
  destruct (String.eqb p "constructor") eqn:E1.
  - left. now apply String.eqb_eq.
  - destruct (String.eqb p "__proto__") eqn:E2.
    + right. now apply String.eqb_eq.
    + simpl in Hmem. discriminate.
Qed.

Lemma validation_admits_two_strays_witness :
  ("constructor" = "constructor" \/ "constructor" = "__proto__") /\
  platform_accepted
    {| st_syncPlatforms := ["github"; "constructor"];
       st_tag := "v1.0.0"; st_releaseName := "Release v1.0.0"; st_body := "";
       st_draft := false; st_prerelease := false; st_assetFiles := [];
       st_githubToken := "secret"; st_giteeToken := ""; st_giteeOwner := "";
       st_giteeRepo := ""; st_giteeTargetCommitish := "master" |} "constructor" = true.
Proof.
  destruct (@validation_admits_two_strays "github,constructor"
              {| st_syncPlatforms := ["github"; "constructor"];
                 st_tag := "v1.0.0"; st_releaseName := "Release v1.0.0"; st_body := "";
                 st_draft := false; st_prerelease := false; st_assetFiles := [];
                 st_githubToken := "secret"; st_giteeToken := ""; st_giteeOwner := "";
                 st_giteeRepo := ""; st_giteeTargetCommitish := "master" |}
              "constructor"
              (or_intror (or_introl eq_refl)) eq_refl eq_refl) as [H1 [H2 _]].
  split; assumption.
Defined.

(** ** The attach calls of the reconciling adapter *)

Lemma fs_footprint_gitee_projections : forall o releaseId out,
  Forall fs_footprint out ->
  filter is_attach out = [] /\
  filter is_gitee_skip out = [] /\
  Forall (gitee_attach_of o releaseId) out.
Proof.
  intros o releaseId out H.
  repeat split;
    try (apply filter_none; eapply Forall_impl; [|exact H]; by_cases_on_event).
  eapply Forall_impl; [|exact H]. by_cases_on_event.
Qed.

Lemma gitee_upload_one_accounting : forall w o releaseId total i filePath c h,
  In filePath (gt_assetFiles o) ->
  let r := gitee_upload_one w o releaseId total i filePath c h in
  exists c',
    completion r = Resolved c' /\
    successCount c' + failCount c' =
      successCount c + failCount c + length (filter is_attach (events r)) /\
    skipCount c' = skipCount c + length (filter is_gitee_skip (events r)) /\
    Forall (gitee_attach_of o releaseId) (events r).
Proof.
  intros w o releaseId total i filePath c h Hin r. subst r.
  unfold gitee_upload_one. rewrite bind_emit.
  set (mark := EvLog Info (MsgGiteeProcessingAsset (i + 1) total filePath)).
  pose proof (getFileInfo_footprint w filePath (h ++ [mark])) as Hfp.
  pose proof (@getFileInfo_name w filePath (h ++ [mark])) as Hname.
  destruct (fs_footprint_gitee_projections o releaseId Hfp) as [F1 [F2 F3]].
  rewrite try_catch_run, bind_run.
  destruct (completion (getFileInfo w filePath (h ++ [mark]))) as [[info|]|e] eqn:Ecomp.
  - specialize (Hname info eq_refl).
    rewrite !bind_run. unfold ask at 1 2 3. simpl completion. simpl events at 2 4.
    rewrite <- app_assoc.
    assert (Hreq : gitee_attach_of o releaseId
              (EvGiteeAttachFile (gt_owner o) (gt_repo o) releaseId (gt_token o) info)).
    { simpl. repeat split. rewrite Hname. now apply in_map. }
    destruct (w_axios w _) as [resp|e]; cbn [completion events fst snd].
    + exists (incr_success c). split; [reflexivity|].
      simpl. rewrite !filter_app, F1, F2. simpl. split; [lia|]. split; [lia|].
      constructor; [exact I|]. rewrite ?Forall_app.
      repeat first [exact F3 | exact Hreq | exact I | constructor].
    + exists (incr_fail c). split; [reflexivity|].
      simpl. rewrite !filter_app, F1, F2. simpl. split; [lia|]. split; [lia|].
      constructor; [exact I|]. rewrite ?Forall_app.
      repeat first [exact F3 | exact Hreq | exact I | constructor].
  - simpl. exists (incr_skip c). split; [reflexivity|].
    rewrite !filter_app, F1, F2. simpl. split; [lia|]. split; [lia|].
    constructor; [exact I|]. apply Forall_app. split; [exact F3|].
    constructor; [exact I|constructor].
  - pose proof (getFileInfo_never_throws w filePath (h ++ [mark])) as Hnt.
    rewrite Ecomp in Hnt. discriminate.
Qed.

Lemma gitee_upload_loop_accounting : forall w o releaseId total files i c h,
  incl files (gt_assetFiles o) ->
  let r := gitee_upload_loop w o releaseId total i files c h in
  exists c',
    completion r = Resolved c' /\
    successCount c' + failCount c' =
      successCount c + failCount c + length (filter is_attach (events r)) /\
    skipCount c' = skipCount c + length (filter is_gitee_skip (events r)) /\
    Forall (gitee_attach_of o releaseId) (events r).
Proof.
  intros w o releaseId total files.
  induction files as [|filePath rest IH]; intros i c h Hincl.
  - exists c. simpl. repeat split; try lia. constructor.
  - cbv zeta. simpl gitee_upload_loop. rewrite bind_run.
    destruct (@gitee_upload_one_accounting w o releaseId total i filePath c h)
      as [c1 [H1 [H2 [H3 H4]]]].
    { apply Hincl. now left. }
    rewrite H1.
    destruct (IH (S i) c1 (h ++ events (gitee_upload_one w o releaseId total i filePath c h)))
      as [c2 [G1 [G2 [G3 G4]]]].
    { intros f Hf. apply Hincl. now right. }
    exists c2. cbn [completion events fst snd]. split; [exact G1|].
    rewrite !filter_app, !length_app. split; [lia|]. split; [lia|].
    apply Forall_app. split; assumption.
Qed.

Lemma gitee_upload_assets_accounting : forall w o releaseId h,
  exists c out,
    gitee_upload_assets w o releaseId h =
      (Resolved c,
       out ++ [EvLog Info (MsgGiteeSummary (successCount c) (skipCount c) (failCount c))]) /\
    counted c = length (gt_assetFiles o) /\
    Forall gitee_loop_footprint out /\
    length (filter is_attach out) = successCount c + failCount c /\
    length (filter is_gitee_skip out) = skipCount c /\
    Forall (gitee_attach_of o releaseId) out.
Proof.
  intros w o releaseId h. unfold gitee_upload_assets.
  destruct (gitee_upload_loop_run w o releaseId (length (gt_assetFiles o))
              (gt_assetFiles o) 0 no_counts h) as [c [out [Hloop [Hcount [_ Hfp]]]]].
  destruct (@gitee_upload_loop_accounting w o releaseId (length (gt_assetFiles o))
              (gt_assetFiles o) 0 no_counts h (incl_refl _))
    as [c' [G1 [G2 [G3 G4]]]].
  rewrite Hloop in G1, G2, G3, G4. cbn [completion events fst snd] in G1, G2, G3, G4.
  injection G1 as <-. simpl in G2, G3.
  exists c, out. rewrite (bind_resolved _ _ _ Hloop), bind_emit. simpl.
  repeat split; try assumption; lia.
Qed.

Lemma response_release_id_nonzero : forall response releaseId,
  response_release_id response = Some releaseId -> releaseId <> 0%Z.
Proof.
  intros response releaseId. unfold response_release_id.
  destruct (resp_data response) as [d|]; [|discriminate].
  destruct (data_id d) as [n|]; simpl; [|discriminate].
  destruct (Z.eqb n 0) eqn:E; simpl; [discriminate|].
  intros H. injection H as <-. now apply Z.eqb_neq.
Qed.

Lemma gitee_early_no_attach : forall o releaseId out,
  Forall gitee_early_footprint out ->
  pick gitee_release_id_line out = [] /\
  pick gitee_summary_line out = [] /\
  filter is_attach out = [] /\
  filter is_gitee_skip out = [] /\
  Forall (gitee_attach_of o releaseId) out.
Proof.
  intros o releaseId out H.
  repeat split;
    try (apply filter_none; eapply Forall_impl; [|exact H]; by_cases_on_event);
    try (apply pick_none; eapply Forall_impl; [|exact H]; by_cases_on_event).
  eapply Forall_impl; [|exact H]. by_cases_on_event.
Qed.

Lemma gitee_loop_no_lines : forall out,
  Forall gitee_loop_footprint out ->
  pick gitee_release_id_line out = [] /\ pick gitee_summary_line out = [].
Proof.
  intros out H.
  split; apply pick_none; (eapply Forall_impl; [|exact H]); by_cases_on_event.
Qed.

(** What step 4 of the reconciling adapter shows of its calls. *)
Lemma gitee_assets_step_accounting : forall w o h,
  let out := events (gitee_assets_step w o h) in
  match pick gitee_release_id_line out with
  | [] => filter is_attach out = [] /\ pick gitee_summary_line out = []
  | [releaseId] =>
      releaseId <> 0%Z /\
      Forall (gitee_attach_of o releaseId) out /\
      exists c,
        pick gitee_summary_line out = [c] /\
        length (filter is_attach out) = successCount c + failCount c /\
        length (filter is_gitee_skip out) = skipCount c /\
        counted c = length (gt_assetFiles o)
  | _ => False
  end.
Proof.
  intros w o h out. subst out. rewrite gitee_assets_step_run.
  destruct (gt_assetFiles o) as [|filePath rest] eqn:Hfiles.
  { split; reflexivity. }
  rewrite gitee_lookup_release_id_run.
  destruct (w_axios w _) as [response|e]; [|split; reflexivity].
  destruct (response_release_id response) as [releaseId|] eqn:Hid;
    [|split; reflexivity].
  cbn [completion events fst snd].
  set (lookup := EvGiteeGetReleaseByTag (gt_owner o) (gt_repo o) (gt_tag o) (gt_token o)).
  destruct (gitee_upload_assets_accounting w o releaseId
              (h ++ [lookup; EvLog Info (MsgGiteeReleaseId releaseId)]))
    as [c [outU [Hrun [Hcount [Hfp [Hatt [Hskip Hof]]]]]]].
  rewrite Hrun. cbn [completion events fst snd].
  destruct (gitee_loop_no_lines Hfp) as [L1 L2].
  simpl. rewrite !pick_app, !filter_app, L1, L2. simpl.
  split; [exact (response_release_id_nonzero response Hid)|].
  split.
  - constructor; [exact I|]. constructor; [exact I|].
    apply Forall_app. split; [exact Hof|]. constructor; [exact I|constructor].
  - exists c. rewrite !length_app. simpl. rewrite Hfiles in Hcount.
    destruct c as [sc kc fc]. simpl in *.
    repeat split; lia.
Qed.

(** X17: every attach call of the reconciling adapter goes to the release
    whose identifier the lookup logged, which is not zero, in the
    configured repository with the configured token, and carries an asset
    under its base name; without a logged identifier nothing is attached.
    The summary line agrees with the calls: uploaded plus failed is the
    number of attach calls (each asset is attached at most once, with no
    retry), skipped is the number of skip warnings, and the three counters
    add up to the number of assets. *)
Theorem gitee_summary_matches_calls : forall w o h,
  let out := events (publishGiteeRelease w o h) in
  match pick gitee_release_id_line out with
  | [] => filter is_attach out = [] /\ pick gitee_summary_line out = []
  | [releaseId] =>
      releaseId <> 0%Z /\
      Forall (gitee_attach_of o releaseId) out /\
      exists c,
        pick gitee_summary_line out = [c] /\
        length (filter is_attach out) = successCount c + failCount c /\
        length (filter is_gitee_skip out) = skipCount c /\
        counted c = length (gt_assetFiles o)
  | _ => False
  end.
Proof.
  intros w o h out. subst out. rewrite publishGiteeRelease_phases.
  set (h0 := h ++ [EvLog Info MsgGiteeStart]).
  set (rA := gitee_reconcile_tag w o h0).
  set (rB := gitee_create_release w o (h0 ++ events rA)).
  set (rC := gitee_assets_step w o ((h0 ++ events rA) ++ events rB)).
  pose proof (gitee_reconcile_tag_footprint w o h0) as FA. fold rA in FA.
  pose proof (gitee_create_release_footprint w o (h0 ++ events rA)) as FB. fold rB in FB.
  destruct (gitee_early_no_attach o 0%Z FA) as [A1 [A2 [A3 [A4 _]]]].
  destruct (gitee_early_no_attach o 0%Z FB) as [B1 [B2 [B3 [B4 _]]]].
  pose proof (gitee_assets_step_accounting w o ((h0 ++ events rA) ++ events rB)) as HC.
  cbv zeta in HC. fold rC in HC.
  destruct (completion rA) as [[]|eA];
    [destruct (completion rB) as [[]|eB]|];
    [destruct (completion rC) as [[]|eC]| |];
    cbn [completion events fst snd]; simpl;
    rewrite ?pick_app, ?filter_app, ?A1, ?A2, ?A3, ?A4, ?B1, ?B2, ?B3, ?B4; simpl;
    try (split; reflexivity).
  all: rewrite !app_nil_r;
    destruct (pick gitee_release_id_line (events rC)) as [|releaseId [|]];
    [ destruct HC as [HC1 HC2]; rewrite HC1, HC2; split; reflexivity
    | | contradiction ].
  all: destruct HC as [Hnz [Hof [c [HC1 [HC2 [HC3 HC4]]]]]];
    (split; [exact Hnz|]); split.
  all: try (exists c; rewrite ?length_app, ?HC1, ?HC2, ?HC3; simpl;
            repeat split; first [exact HC4 | lia | reflexivity]).
  all: constructor; [exact I|]; rewrite ?app_nil_r;
    rewrite !Forall_app;
    repeat split;
    try exact Hof;
    try exact (proj2 (proj2 (proj2 (proj2 (gitee_early_no_attach o releaseId FA)))));
    try exact (proj2 (proj2 (proj2 (proj2 (gitee_early_no_attach o releaseId FB)))));
    repeat first [exact I | constructor].
Qed.

(** ** The order of the resolved assets *)

Lemma indexOf_from_lower : forall l x i,
  In x l -> (i <= indexOf_from i l x)%Z.
Proof.
  induction l as [|y l IH]; intros x i Hin; [destruct Hin|].
  simpl. destruct (String.eqb y x) eqn:E; [lia|].
  destruct Hin as [->|Hin]; [rewrite String.eqb_refl in E; discriminate|].
  specialize (IH x (i + 1)%Z Hin). lia.
Qed.

Lemma filter_index_from_order : forall fs l pre i j p q,
  let r := filter_index_from (keep_asset fs (pre ++ l)) (Z.of_nat (length pre)) l in
  In p r -> In q r ->
  (indexOf_from i l p < indexOf_from i l q)%Z ->
  (indexOf_from j r p < indexOf_from j r q)%Z.
Proof.
  intros fs l. induction l as [|x l IH]; intros pre i j p q; simpl.
  - intros [].
  - rewrite keep_asset_at.
    pose proof (IH (pre ++ [x]) (i + 1)%Z j p q) as IH0.
    specialize (IH (pre ++ [x]) (i + 1)%Z (j + 1)%Z p q).
    destruct (filter_index_from_scan fs l (pre ++ [x])) as [_ [_ Hin]].
    rewrite <- app_assoc in IH, IH0, Hin. simpl in IH, IH0, Hin.
    rewrite length_app in IH, IH0, Hin. simpl in IH, IH0, Hin.
    replace (Z.of_nat (length pre + 1)) with (Z.of_nat (length pre) + 1)%Z
      in IH, IH0, Hin by lia.
    set (r' := filter_index_from (keep_asset fs (pre ++ x :: l))
                 (Z.of_nat (length pre) + 1) l) in *.
    assert (Hx : ~ In x r').
    { intros H. apply Hin in H. destruct H as [_ [_ H]].
      apply H. apply in_or_app. right. now left. }
    assert (Htail : forall y, In y r' -> In y l) by (intros y Hy; now apply Hin in Hy).
    destruct (exists_sync fs x && negb (mem_string x pre)).
    + simpl. intros Hp Hq.
      destruct (String.eqb x p) eqn:Ep; destruct (String.eqb x q) eqn:Eq.
      * lia.
      * intros _. destruct Hq as [Hq|Hq]; [subst; rewrite String.eqb_refl in Eq; discriminate|].
        pose proof (indexOf_from_lower r' q (j + 1)%Z Hq). lia.
      * intros Hlt. destruct Hp as [Hp|Hp]; [subst; rewrite String.eqb_refl in Ep; discriminate|].
        pose proof (indexOf_from_lower l p (i + 1)%Z (Htail p Hp)). lia.
      * destruct Hp as [Hp|Hp]; [subst; rewrite String.eqb_refl in Ep; discriminate|].
        destruct Hq as [Hq|Hq]; [subst; rewrite String.eqb_refl in Eq; discriminate|].
        exact (IH Hp Hq).
    + intros Hp Hq.
      assert (Ep : String.eqb x p = false).
      { destruct (String.eqb x p) eqn:E; [|reflexivity].
        apply String.eqb_eq in E. subst p. contradiction. }
      assert (Eq : String.eqb x q = false).
      { destruct (String.eqb x q) eqn:E; [|reflexivity].
        apply String.eqb_eq in E. subst q. contradiction. }
      rewrite Ep, Eq. exact (IH0 Hp Hq).
Qed.

(** X18: the resolver lists the assets in the order of their first match:
    of two paths of a list it returns, the one that [glob] reported first,
    over all patterns in the order of the input, comes first in the
    result, also when a later pattern matches it again. *)
Theorem resolveAssetFiles_first_match_order : forall fs assetInput found r p q,
  glob_all fs (assetPatterns assetInput) = Resolved found ->
  resolveAssetFiles fs assetInput = Resolved r ->
  In p r -> In q r ->
  (indexOf found p < indexOf found q)%Z ->
  (indexOf r p < indexOf r q)%Z.
Proof.
  intros fs assetInput found r p q Hfound. unfold resolveAssetFiles.
  destruct (negb (truthy assetInput)).
  - intros H. injection H as <-. intros [].
  - rewrite Hfound. intros H. injection H as <-.
    unfold filter_index, indexOf.
    exact (filter_index_from_order fs found [] 0 0 p q).
Qed.

Lemma resolveAssetFiles_first_match_order_witness :
  resolveAssetFiles example_fs "dist/gone.txt dist/*.txt dist/a.txt" =
    Resolved ["/w/dist/a.txt"; "/w/dist/b.txt"] /\
  (indexOf ["/w/dist/a.txt"; "/w/dist/b.txt"] "/w/dist/a.txt" <
   indexOf ["/w/dist/a.txt"; "/w/dist/b.txt"] "/w/dist/b.txt")%Z.
Proof.
  split; [reflexivity|].
  apply (@resolveAssetFiles_first_match_order example_fs
           "dist/gone.txt dist/*.txt dist/a.txt"
           ["/w/dist/gone.txt"; "/w/dist/a.txt"; "/w/dist/b.txt"; "/w/dist/a.txt"]
           ["/w/dist/a.txt"; "/w/dist/b.txt"] "/w/dist/a.txt" "/w/dist/b.txt").
  - reflexivity.
  - reflexivity.
  - now left.
  - right. now left.
  - reflexivity.
Defined.

(** ** What the requests of a run carry *)

Section Requests.

Variable w : World.
Variable s : Settings.








End Requests.




(** ** The asset resolver *)

Lemma split_ws_from_no_space : forall w,
  has_space w = false -> split_ws_from false w = [w].
Proof.
  induction w as [|c w IH]; simpl; intros H; [reflexivity|].
  apply orb_false_iff in H. destruct H as [Hc Hw].
  rewrite Hc, (IH Hw). reflexivity.
Qed.

Lemma split_ws_from_item : forall w sep rest,
  has_space w = false -> is_space sep = true ->
  split_ws_from false (w ++ String sep rest) = w :: split_ws_from true rest.
Proof.
  induction w as [|c w IH]; simpl; intros sep rest H Hsep; [now rewrite Hsep|].
  apply orb_false_iff in H. destruct H as [Hc Hw].
  rewrite Hc, (IH sep rest Hw Hsep). reflexivity.
Qed.

Lemma split_ws_from_after_sep : forall s,
  truthy s = true -> has_space s = false ->
  split_ws_from true s = split_ws_from false s.
Proof.
  intros [|c s] Ht Hs; [discriminate|].
  simpl in Hs. apply orb_false_iff in Hs. destruct Hs as [Hc _].
  simpl. rewrite Hc. reflexivity.
Qed.

Lemma join_char_head : forall sep w ws,
  truthy w = true -> has_space w = false ->
  exists c s, join_char sep (w :: ws) = String c s /\ is_space c = false.
Proof.
  intros sep [|c w] ws Ht Hs; [discriminate|].
  simpl in Hs. apply orb_false_iff in Hs. destruct Hs as [Hc _].
  destruct ws; simpl; eauto.
Qed.

Lemma split_ws_join_char : forall items,
  items <> [] ->
  (forall i, In i items -> truthy i = true /\ has_space i = false) ->
  split_ws (join_char " " items) = items.
Proof.
  unfold split_ws.
  induction items as [|w ws IH]; intros Hne Hall; [congruence|].
  destruct (Hall w (or_introl eq_refl)) as [Htw Hsw].
  destruct ws as [|w' ws'].
  - simpl. now apply split_ws_from_no_space.
  - change (join_char " " (w :: w' :: ws'))
      with (w ++ String " " (join_char " " (w' :: ws')))%string.
    rewrite split_ws_from_item by (exact Hsw || reflexivity).
    destruct (Hall w' (or_intror (or_introl eq_refl))) as [Htw' Hsw'].
    destruct (@join_char_head " "%char w' ws' Htw' Hsw') as [c [s [Hj Hc]]].
    assert (Hrest : split_ws_from true (join_char " " (w' :: ws')) =
                    split_ws_from false (join_char " " (w' :: ws'))).
    { rewrite Hj. simpl. rewrite Hc. reflexivity. }
    rewrite Hrest, IH; [reflexivity | discriminate |].
    intros i Hi. apply Hall. now right.
Qed.

(** The patterns of an input whose items are separated by one space are
    these items. *)
Lemma assetPatterns_join_char : forall items,
  (forall i, In i items -> truthy i = true /\ has_space i = false) ->
  assetPatterns (join_char " " items) = items.
Proof.
  intros items Hall. destruct items as [|w ws]; [reflexivity|].
  unfold assetPatterns. rewrite split_ws_join_char; [|discriminate|exact Hall].
  apply filter_map_fixed. intros p Hp. destruct (Hall p Hp) as [Ht Hs].
  split; [exact Ht|]. apply trim_fixed. now apply no_space_is_trimmed.
Qed.

(** White space in front of a piece, or a separator already open, does
    not change the patterns. *)
Lemma patterns_after_sep : forall s,
  filter truthy (map trim (split_ws_from true s)) =
  filter truthy (map trim (split_ws_from false s)).
Proof.
  intros [|c s]; [reflexivity|]. simpl. destruct (is_space c); reflexivity.
Qed.

Lemma assetPatterns_cons_space : forall c s,
  is_space c = true -> assetPatterns (String c s) = assetPatterns s.
Proof.
  intros c s Hc. unfold assetPatterns, split_ws. simpl. rewrite Hc. simpl.
  apply patterns_after_sep.
Qed.

Lemma assetPatterns_word : forall w,
  truthy w = true -> has_space w = false -> assetPatterns w = [w].
Proof.
  intros w Ht Hs. apply (assetPatterns_join_char [w]). intros i [<-|[]]. now split.
Qed.

Lemma assetPatterns_item : forall w c s,
  truthy w = true -> has_space w = false -> is_space c = true ->
  assetPatterns (w ++ String c s) = w :: assetPatterns s.
Proof.
  intros w c s Ht Hs Hc. unfold assetPatterns, split_ws.
  rewrite split_ws_from_item by assumption. simpl.
  rewrite (trim_fixed w (no_space_is_trimmed w Hs)), Ht.
  f_equal. apply patterns_after_sep.
Qed.

(** [glob_all] throws the error of the first pattern that [glob] refuses. *)
Lemma glob_all_rejected : forall fs patterns e,
  glob_all fs patterns = Rejected e <->
  exists pre pattern post,
    patterns = pre ++ pattern :: post /\
    Forall (fun q => is_rejected (glob_sync fs q) = false) pre /\
    glob_sync fs pattern = Rejected e.
Proof.
  intros fs patterns. induction patterns as [|p rest IH]; intros e.
  - split; [discriminate|].
    intros [pre [pattern [post [H _]]]]. destruct pre; discriminate.
  - simpl. destruct (glob_sync fs p) as [matchedFiles|e0] eqn:Hp.
    + split.
      * intros H.
        assert (Hr : glob_all fs rest = Rejected e).
        { destruct (glob_all fs rest); [discriminate | exact H]. }
        apply IH in Hr. destruct Hr as [pre [pattern [post [-> [Hf He]]]]].
        exists (p :: pre), pattern, post.
        split; [reflexivity|]. split; [|exact He].
        constructor; [now rewrite Hp | exact Hf].
      * intros [pre [pattern [post [H [Hf He]]]]].
        destruct pre as [|q pre]; simpl in H; injection H as H1 H2.
        -- subst pattern. rewrite Hp in He. discriminate.
        -- subst q rest.
           assert (Hr : glob_all fs (pre ++ pattern :: post) = Rejected e).
           { apply IH. exists pre, pattern, post.
             split; [reflexivity|]. split; [now inversion Hf | exact He]. }
           rewrite Hr. reflexivity.
    + split.
      * intros H. injection H as <-. exists [], p, rest.
        split; [reflexivity|]. split; [constructor | exact Hp].
      * intros [pre [pattern [post [H [Hf He]]]]].
        destruct pre as [|q pre]; simpl in H; injection H as H1 H2.
        -- subst pattern. rewrite Hp in He. exact He.
        -- subst q. inversion Hf as [|? ? Hq _]. rewrite Hp in Hq. discriminate.
Qed.

(** When it returns, [glob_all] returns the matches of the patterns, one
    after the other. *)
Lemma glob_all_resolved : forall fs patterns found,
  glob_all fs patterns = Resolved found ->
  exists matches,
    Forall2 (fun pattern matchedFiles => glob_sync fs pattern = Resolved matchedFiles)
      patterns matches /\
    found = concat matches.
Proof.
  intros fs patterns. induction patterns as [|p rest IH]; intros found; simpl.
  - intros H. injection H as <-. exists []. split; [constructor | reflexivity].
  - destruct (glob_sync fs p) as [matchedFiles|e0] eqn:Hp; [|discriminate].
    destruct (glob_all fs rest) as [more|e0]; [|discriminate].
    intros H. injection H as <-.
    destruct (IH more eq_refl) as [matches [HF ->]].
    exists (matchedFiles :: matches). split; [constructor; assumption | reflexivity].
Qed.

Lemma glob_matches_absolute : forall fs patterns matches p,
  glob_absolute fs ->
  Forall2 (fun pattern matchedFiles => glob_sync fs pattern = Resolved matchedFiles)
    patterns matches ->
  In p (concat matches) -> is_absolute p = true.
Proof.
  intros fs patterns matches p Habs HF.
  induction HF as [|pattern matchedFiles patterns matches Hm _ IH]; simpl; [intros []|].
  intros Hin. apply in_app_or in Hin. destruct Hin as [Hin|Hin]; [|exact (IH Hin)].
  exact (Habs pattern matchedFiles p Hm Hin).
Qed.

Lemma glob_all_agree : forall fs fs' patterns,
  (forall pat, glob_sync fs pat = glob_sync fs' pat) ->
  glob_all fs' patterns = glob_all fs patterns.
Proof.
  intros fs fs' patterns H. induction patterns as [|p rest IH]; simpl; [reflexivity|].
  rewrite <- (H p), IH. reflexivity.
Qed.

Lemma resolveAssetFiles_run : forall fs assetInput,
  resolveAssetFiles fs assetInput =
  match glob_all fs (assetPatterns assetInput) with
  | Rejected e => Rejected e
  | Resolved self => Resolved (filter_index (keep_asset fs self) self)
  end.
Proof.
  intros fs [|c s]; reflexivity.
Qed.

(** C8: the resolver fails exactly when [glob] refuses one of the patterns
    of the input, and then with the error of the first pattern refused;
    the patterns are the items of the input between runs of white space
    (the four equations determine them for every input).  When it
    returns, it returns, in the order the patterns and their matches come,
    the paths that some pattern matches and that exist, each once; they
    are absolute when [glob] answers with absolute paths; a pattern
    without a match and a match that does not exist contribute nothing.
    File systems that answer alike give the same outcome. *)
Theorem resolveAssetFiles_spec : forall fs assetInput,
  glob_absolute fs ->
  (assetPatterns EmptyString = [] /\
   (forall c s, is_space c = true -> assetPatterns (String c s) = assetPatterns s) /\
   (forall w, truthy w = true -> has_space w = false -> assetPatterns w = [w]) /\
   (forall w c s,
      truthy w = true -> has_space w = false -> is_space c = true ->
      assetPatterns (w ++ String c s) = w :: assetPatterns s)) /\
  (forall e,
     resolveAssetFiles fs assetInput = Rejected e <->
     exists pre pattern post,
       assetPatterns assetInput = pre ++ pattern :: post /\
       Forall (fun q => is_rejected (glob_sync fs q) = false) pre /\
       glob_sync fs pattern = Rejected e) /\
  (forall r,
     resolveAssetFiles fs assetInput = Resolved r ->
     exists matches,
       Forall2 (fun pattern matchedFiles => glob_sync fs pattern = Resolved matchedFiles)
         (assetPatterns assetInput) matches /\
       NoDup r /\
       Subseq r (concat matches) /\
       (forall p, In p r <-> In p (concat matches) /\ exists_sync fs p = true) /\
       (forall p, In p r -> is_absolute p = true)) /\
  (forall fs', fs_agree fs fs' ->
     resolveAssetFiles fs' assetInput = resolveAssetFiles fs assetInput).
Proof.
  intros fs assetInput Habs.
  split.
  { split; [reflexivity|]. split; [exact assetPatterns_cons_space|].
    split; [exact assetPatterns_word | exact assetPatterns_item]. }
  split; [|split].
  - intros e. rewrite resolveAssetFiles_run, <- glob_all_rejected.
    destruct (glob_all fs (assetPatterns assetInput)); split; congruence.
  - intros r. rewrite resolveAssetFiles_run.
    destruct (glob_all fs (assetPatterns assetInput)) as [found|e] eqn:Hfound;
      [|discriminate].
    intros H. injection H as <-.
    destruct (@glob_all_resolved fs _ found Hfound) as [matches [HF ->]].
    exists matches. split; [exact HF|].
    unfold filter_index.
    destruct (filter_index_from_scan fs (concat matches) []) as [Hnd [Hsub Hin]].
    simpl in Hnd, Hsub, Hin.
    split; [exact Hnd|]. split; [exact Hsub|].
    assert (Hmem : forall p,
              In p (filter_index_from (keep_asset fs (concat matches)) 0 (concat matches)) <->
              In p (concat matches) /\ exists_sync fs p = true).
    { intros p. rewrite Hin. tauto. }
    split; [exact Hmem|].
    intros p Hp. apply Hmem in Hp. destruct Hp as [Hp _].
    exact (@glob_matches_absolute fs _ matches p Habs HF Hp).
  - intros fs' [Hglob Hex]. rewrite !resolveAssetFiles_run.
    rewrite (@glob_all_agree fs fs' _ Hglob).
    destruct (glob_all fs (assetPatterns assetInput)) as [found|e]; [|reflexivity].
    f_equal. unfold filter_index. apply filter_index_from_ext.
    intros x j. unfold keep_asset. rewrite Hex. reflexivity.
Qed.

Lemma resolveAssetFiles_spec_witness :
  glob_absolute example_fs /\
  resolveAssetFiles example_fs "dist/a.txt dist/*.txt  dist/gone.txt nothing/*" =
    Resolved ["/w/dist/a.txt"; "/w/dist/b.txt"] /\
  NoDup ["/w/dist/a.txt"; "/w/dist/b.txt"] /\
  (forall p, In p ["/w/dist/a.txt"; "/w/dist/b.txt"] -> is_absolute p = true) /\
  assetPatterns "dist/a.txt  dist/*.txt" = ["dist/a.txt"; "dist/*.txt"].
Proof.
  destruct (@resolveAssetFiles_spec example_fs
              "dist/a.txt dist/*.txt  dist/gone.txt nothing/*" example_fs_absolute)
    as [[_ [Hspace [Hword Hitem]]] [_ [Hres _]]].
  destruct (Hres ["/w/dist/a.txt"; "/w/dist/b.txt"] eq_refl)
    as [matches [_ [Hnd [_ [_ Habs]]]]].
  split; [exact example_fs_absolute|]. split; [reflexivity|].
  split; [exact Hnd|]. split; [exact Habs|].
  change (assetPatterns ("dist/a.txt" ++ String " " (String " " "dist/*.txt")) =
          ["dist/a.txt"; "dist/*.txt"]).
  rewrite (Hitem "dist/a.txt" " "%char (String " " "dist/*.txt") eq_refl eq_refl eq_refl).
  rewrite (Hspace " "%char "dist/*.txt" eq_refl).
  rewrite (Hword "dist/*.txt" eq_refl eq_refl). reflexivity.
Defined.

Lemma repeat_char_length : forall c n, String.length (repeat_char c n) = n.
Proof. intros c n. induction n as [|n IH]; simpl; congruence. Qed.

Lemma repeat_char_no_space : forall c n,
  is_space c = false -> has_space (repeat_char c n) = false.
Proof.
  intros c n Hc. induction n as [|n IH]; simpl; [reflexivity|].
  now rewrite Hc, IH.
Qed.

Lemma repeat_char_truthy : forall c n, 0 < n -> truthy (repeat_char c n) = true.
Proof. intros c [|n] H; [lia | reflexivity]. Qed.

Lemma example_fs_refuses : forall pat,
  (65536 < Z.of_nat (String.length pat))%Z ->
  glob_sync example_fs pat = Rejected pattern_too_long.
Proof.
  intros pat H. apply Z.ltb_lt in H. cbn [glob_sync example_fs].
  rewrite H. reflexivity.
Qed.

(** An input of one pattern that [glob] refuses. *)
Lemma resolveAssetFiles_refused : forall fs pat e,
  truthy pat = true -> has_space pat = false ->
  glob_sync fs pat = Rejected e ->
  resolveAssetFiles fs pat = Rejected e.
Proof.
  intros fs pat e Ht Hs Hglob.
  assert (Hpat : assetPatterns pat = [pat]).
  { apply (assetPatterns_join_char [pat]). intros i [<-|[]]. now split. }
  rewrite resolveAssetFiles_run, Hpat. cbn [glob_all]. rewrite Hglob. reflexivity.
Qed.

(** The resolver fails on a pattern that [glob] refuses: the claim that it
    never fails does not hold. *)
Lemma resolveAssetFiles_fails_on_long_pattern :
  ~ resolver_best_effort example_fs long_pattern.
Proof.
  intros [r [H _]].
  assert (Hrun : resolveAssetFiles example_fs long_pattern = Rejected pattern_too_long).
  { apply resolveAssetFiles_refused.
    - apply repeat_char_truthy. lia.
    - now apply repeat_char_no_space.
    - apply example_fs_refuses. unfold long_pattern.
      rewrite repeat_char_length, N_nat_Z. reflexivity. }
  rewrite Hrun in H. clear Hrun. discriminate H.
Qed.

(** ** The simple adapter: unreadable assets and refused uploads *)




(** ** The reconciling adapter: what an iteration of the loop does *)

(** [getFileInfo] asks for the status of the file first; it logs its
    warning exactly when it returns [null]. *)
Lemma getFileInfo_reads : forall w filePath h,
  let rF := getFileInfo w filePath h in
  pick stat_path (events rF) = [filePath] /\
  length (filter is_file_info_failed (events rF)) =
    match completion rF with
    | Resolved (Some _) => 0
    | _ => 1
    end.
Proof.
  intros w filePath h rF. subst rF.
  unfold getFileInfo, try_catch, bind, ask, lift, ret, emit. cbn [app].
  destruct (w_stat w _) as [fileStat|e1]; [|split; reflexivity].
  destruct (w_readFile w _) as [content|e2]; [|split; reflexivity].
  destruct (toISOString (stat_mtime fileStat)); split; reflexivity.
Qed.

(** One iteration, event by event: the file is described, then it is
    either skipped or sent, and a refused attach call is logged; in every
    case the iteration returns. *)
Lemma gitee_upload_one_exact : forall w o releaseId total i filePath c h,
  let mark := EvLog Info (MsgGiteeProcessingAsset (i + 1) total filePath) in
  let rF := getFileInfo w filePath (h ++ [mark]) in
  gitee_upload_one w o releaseId total i filePath c h =
  match completion rF with
  | Resolved None =>
      (Resolved (incr_skip c),
       mark :: events rF ++ [EvLog Warning (MsgGiteeSkipAsset filePath)])
  | Resolved (Some info) =>
      let attach := EvGiteeAttachFile (gt_owner o) (gt_repo o) releaseId
                      (gt_token o) info in
      match w_axios w ((h ++ [mark]) ++ events rF ++ [attach]) with
      | Resolved _ =>
          (Resolved (incr_success c),
           mark :: events rF ++
           [attach; EvLog Info (MsgGiteeAssetUploaded (fi_name info))])
      | Rejected uploadError =>
          (Resolved (incr_fail c),
           mark :: events rF ++
           [attach; EvLog Error (MsgGiteeAssetFailed filePath uploadError)])
      end
  | Rejected uploadError =>
      (Resolved (incr_fail c),
       mark :: events rF ++ [EvLog Error (MsgGiteeAssetFailed filePath uploadError)])
  end.
Proof.
  intros w o releaseId total i filePath c h mark rF.
  unfold gitee_upload_one. fold mark. rewrite bind_emit.
  rewrite try_catch_run, bind_run. fold rF.
  destruct (completion rF) as [[info|]|e]; cbn [completion events fst snd].
  - rewrite !bind_run. unfold ask at 1 2 3. simpl completion. simpl events at 2 4.
    rewrite <- app_assoc.
    destruct (w_axios w _) as [resp|e]; simpl; rewrite <- ?app_assoc; reflexivity.
  - simpl. rewrite <- ?app_assoc. reflexivity.
  - simpl. rewrite <- ?app_assoc. reflexivity.
Qed.

Lemma gitee_upload_one_reads : forall w o releaseId total i filePath c h,
  let r := gitee_upload_one w o releaseId total i filePath c h in
  pick stat_path (events r) = [filePath] /\
  length (filter is_gitee_skip (events r)) =
    length (filter is_file_info_failed (events r)).
Proof.
  intros w o releaseId total i filePath c h r. subst r.
  rewrite gitee_upload_one_exact.
  set (mark := EvLog Info (MsgGiteeProcessingAsset (i + 1) total filePath)).
  destruct (getFileInfo_reads w filePath (h ++ [mark])) as [R1 R2].
  pose proof (getFileInfo_footprint w filePath (h ++ [mark])) as Hfp.
  destruct (fs_footprint_gitee_projections o releaseId Hfp) as [_ [F2 _]].
  pose proof (getFileInfo_never_throws w filePath (h ++ [mark])) as Hnt.
  set (rF := getFileInfo w filePath (h ++ [mark])) in *.
  cbv zeta in R2.
  destruct (completion rF) as [[info|]|e]; [| |discriminate].
  - cbv zeta. destruct (w_axios w _); cbn [events snd]; simpl;
      rewrite pick_app, !filter_app, !length_app, R1, F2, R2; split; reflexivity.
  - cbn [events snd]. simpl.
    rewrite pick_app, !filter_app, !length_app, R1, F2, R2. split; reflexivity.
Qed.

Lemma gitee_upload_loop_reads : forall w o releaseId total files i c h,
  let r := gitee_upload_loop w o releaseId total i files c h in
  pick stat_path (events r) = files /\
  length (filter is_gitee_skip (events r)) =
    length (filter is_file_info_failed (events r)).
Proof.
  intros w o releaseId total files.
  induction files as [|filePath rest IH]; intros i c h.
  - split; reflexivity.
  - cbv zeta. simpl gitee_upload_loop. rewrite bind_run.
    destruct (gitee_upload_one_reads w o releaseId total i filePath c h) as [R1 R2].
    destruct (gitee_upload_one_run w o releaseId total i filePath c h) as [out1 [Hone _]].
    rewrite Hone in R1, R2 |- *. cbn [completion events fst snd] in R1, R2 |- *.
    match goal with
    | |- context [gitee_upload_loop w o releaseId total (S i) rest ?c1 ?h1] =>
        destruct (IH (S i) c1 h1) as [S1 S2]
    end.
    rewrite pick_app, !filter_app, !length_app, R1, R2, S1, S2. split; reflexivity.
Qed.

Lemma gitee_upload_assets_complete : forall w o releaseId h,
  exists c out,
    gitee_upload_assets w o releaseId h =
      (Resolved c,
       out ++ [EvLog Info (MsgGiteeSummary (successCount c) (skipCount c) (failCount c))]) /\
    gitee_attempted out = gt_assetFiles o /\
    pick stat_path out = gt_assetFiles o /\
    length (filter is_attach out) + length (filter is_gitee_skip out) =
      length (gt_assetFiles o) /\
    length (filter is_gitee_skip out) = length (filter is_file_info_failed out) /\
    Forall (gitee_attach_of o releaseId) out.
Proof.
  intros w o releaseId h. unfold gitee_upload_assets.
  destruct (gitee_upload_loop_run w o releaseId (length (gt_assetFiles o))
              (gt_assetFiles o) 0 no_counts h) as [c [out [Hloop [Hcount [Hatt _]]]]].
  destruct (@gitee_upload_loop_accounting w o releaseId (length (gt_assetFiles o))
              (gt_assetFiles o) 0 no_counts h (incl_refl _))
    as [c' [G1 [G2 [G3 G4]]]].
  destruct (gitee_upload_loop_reads w o releaseId (length (gt_assetFiles o))
              (gt_assetFiles o) 0 no_counts h) as [R1 R2].
  rewrite Hloop in G1, G2, G3, G4, R1, R2.
  cbn [completion events fst snd] in G1, G2, G3, G4, R1, R2.
  injection G1 as <-. simpl in G2, G3, Hcount. unfold counted in Hcount.
  exists c, out. rewrite (bind_resolved _ _ _ Hloop), bind_emit. simpl.
  split; [reflexivity|]. split; [exact Hatt|]. split; [exact R1|].
  split; [lia|]. split; [exact R2 | exact G4].
Qed.

Lemma gitee_early_no_read : forall out,
  Forall gitee_early_footprint out -> pick stat_path out = [].
Proof.
  intros out H. apply pick_none. eapply Forall_impl; [|exact H]. by_cases_on_event.
Qed.

Lemma gitee_lookup_quiet : forall out,
  Forall gitee_lookup_footprint out ->
  pick stat_path out = [] /\ filter is_attach out = [] /\ filter is_gitee_skip out = [].
Proof.
  intros out H.
  repeat split;
    try (apply filter_none; eapply Forall_impl; [|exact H]; by_cases_on_event);
    try (apply pick_none; eapply Forall_impl; [|exact H]; by_cases_on_event).
Qed.

(** C6: the upload loop of the reconciling adapter never aborts early.
    Whatever the world answers, the loop does not throw and attempts every
    asset in order: it asks for the status of each file, in the order of
    the list; each asset is either sent in one attach call, to the looked
    up release under its base name, or skipped with a warning, and it is
    skipped exactly when [getFileInfo] could not describe it.  When the tag
    reconciliation, the release creation and (with assets) the identifier
    lookup succeed, the run is not fatal and every asset was attempted in
    this way; a fatal run is always the failure of one of these three
    steps, never of an asset.  One iteration, event by event: an asset
    without file information is skipped, a refused attach call is logged
    and counted, and in every case the iteration returns. *)
Theorem gitee_loop_never_aborts : forall w o h,
  let h0 := h ++ [EvLog Info MsgGiteeStart] in
  let rA := gitee_reconcile_tag w o h0 in
  let rB := gitee_create_release w o (h0 ++ events rA) in
  let rL := gitee_lookup_release_id w o ((h0 ++ events rA) ++ events rB) in
  let r := publishGiteeRelease w o h in
  (forall releaseId h', exists c out,
     gitee_upload_assets w o releaseId h' =
       (Resolved c,
        out ++ [EvLog Info (MsgGiteeSummary (successCount c) (skipCount c) (failCount c))]) /\
     gitee_attempted out = gt_assetFiles o /\
     pick stat_path out = gt_assetFiles o /\
     length (filter is_attach out) + length (filter is_gitee_skip out) =
       length (gt_assetFiles o) /\
     length (filter is_gitee_skip out) = length (filter is_file_info_failed out) /\
     Forall (gitee_attach_of o releaseId) out) /\
  (completion rA = Resolved tt ->
   completion rB = Resolved tt ->
   gt_assetFiles o = [] \/ is_rejected (completion rL) = false ->
   completion r = Resolved tt /\
   gitee_attempted (events r) = gt_assetFiles o /\
   pick stat_path (events r) = gt_assetFiles o /\
   length (filter is_attach (events r)) + length (filter is_gitee_skip (events r)) =
     length (gt_assetFiles o)) /\
  (forall e,
     completion r = Rejected e ->
     completion rA = Rejected e \/
     (completion rA = Resolved tt /\ completion rB = Rejected e) \/
     (completion rA = Resolved tt /\ completion rB = Resolved tt /\
      gt_assetFiles o <> [] /\ completion rL = Rejected e)) /\
  (forall releaseId total i filePath c h1,
     let mark := EvLog Info (MsgGiteeProcessingAsset (i + 1) total filePath) in
     let rF := getFileInfo w filePath (h1 ++ [mark]) in
     gitee_upload_one w o releaseId total i filePath c h1 =
     match completion rF with
     | Resolved None =>
         (Resolved (incr_skip c),
          mark :: events rF ++ [EvLog Warning (MsgGiteeSkipAsset filePath)])
     | Resolved (Some info) =>
         let attach := EvGiteeAttachFile (gt_owner o) (gt_repo o) releaseId
                         (gt_token o) info in
         match w_axios w ((h1 ++ [mark]) ++ events rF ++ [attach]) with
         | Resolved _ =>
             (Resolved (incr_success c),
              mark :: events rF ++
              [attach; EvLog Info (MsgGiteeAssetUploaded (fi_name info))])
         | Rejected uploadError =>
             (Resolved (incr_fail c),
              mark :: events rF ++
              [attach; EvLog Error (MsgGiteeAssetFailed filePath uploadError)])
         end
     | Rejected uploadError =>
         (Resolved (incr_fail c),
          mark :: events rF ++ [EvLog Error (MsgGiteeAssetFailed filePath uploadError)])
     end).
Proof.
  intros w o h h0 rA rB rL r.
  split; [intros releaseId h'; apply gitee_upload_assets_complete|].
  split; [|split; [|intros; apply gitee_upload_one_exact]].
  - destruct (gitee_early_projections w o h0) as [[_ [MA _]] _].
    destruct (gitee_early_projections w o (h0 ++ events rA)) as [_ [_ [MB _]]].
    pose proof (gitee_reconcile_tag_footprint w o h0) as FA.
    pose proof (gitee_create_release_footprint w o (h0 ++ events rA)) as FB.
    pose proof (gitee_lookup_release_id_footprint w o ((h0 ++ events rA) ++ events rB)) as FL.
    fold rA in MA, FA. fold rB in MB, FB. fold rL in FL.
    destruct (gitee_early_no_attach o 0%Z FA) as [_ [_ [A3 [A4 _]]]].
    destruct (gitee_early_no_attach o 0%Z FB) as [_ [_ [B3 [B4 _]]]].
    pose proof (gitee_early_no_read FA) as A5.
    pose proof (gitee_early_no_read FB) as B5.
    destruct (gitee_lookup_quiet FL) as [L5 [L3 L4]].
    subst r. rewrite publishGiteeRelease_phases.
    fold h0. fold rA. fold rB.
    rewrite gitee_assets_step_run. fold rL.
    intros HA HB Hok. rewrite HA, HB.
    destruct (gt_assetFiles o) as [|filePath rest] eqn:Hfiles.
    + simpl. split; [reflexivity|].
      unfold gitee_attempted in *. simpl.
      rewrite !pick_app, !filter_app, MA, MB, A3, A4, A5, B3, B4, B5.
      repeat split.
    + destruct Hok as [Hok|Hok]; [discriminate|].
      assert (ML : gitee_attempted (events rL) = []).
      { eapply footprint_pick_nil;
          [apply gitee_lookup_release_id_footprint | apply lookup_footprint_no_mark]. }
      destruct (completion rL) as [releaseId|e]; [|discriminate].
      simpl. split; [reflexivity|].
      match goal with
      | |- context [gitee_upload_assets w o releaseId ?hU] =>
          destruct (gitee_upload_assets_complete w o releaseId hU)
            as [c [out [Hrun [Hatt [Hread [Hsum _]]]]]]; rewrite Hrun
      end.
      rewrite Hfiles in Hatt, Hread, Hsum.
      unfold gitee_attempted in *. simpl.
      rewrite !pick_app, !filter_app, !length_app,
        MA, MB, ML, A3, A4, A5, B3, B4, B5, L3, L4, L5, Hatt, Hread.
      simpl. rewrite !app_nil_r. simpl in Hsum.
      split; [reflexivity|]. split; [reflexivity|]. lia.
  - subst r. rewrite publishGiteeRelease_phases.
    fold h0. fold rA. fold rB.
    rewrite gitee_assets_step_run. fold rL.
    intros e He.
    destruct (completion rA) as [[]|eA]; [|left; simpl in He; congruence].
    right. destruct (completion rB) as [[]|eB];
      [|left; simpl in He; split; [reflexivity | congruence]].
    right. split; [reflexivity|]. split; [reflexivity|].
    destruct (gt_assetFiles o) as [|filePath rest]; [simpl in He; discriminate|].
    split; [discriminate|].
    destruct (completion rL) as [releaseId|eL]; simpl in He; congruence.
Qed.

Lemma gitee_loop_never_aborts_witness :
  (completion (publishGiteeRelease flaky_upload_world
                 (example_gitee_options four_assets) []) = Resolved tt /\
   gitee_attempted (events (publishGiteeRelease flaky_upload_world
                              (example_gitee_options four_assets) [])) = four_assets /\
   pick stat_path (events (publishGiteeRelease flaky_upload_world
                             (example_gitee_options four_assets) [])) = four_assets /\
   length (filter is_attach (events (publishGiteeRelease flaky_upload_world
                                       (example_gitee_options four_assets) []))) = 3 /\
   length (filter is_gitee_skip (events (publishGiteeRelease flaky_upload_world
                                           (example_gitee_options four_assets) []))) = 1) /\
  (completion (publishGiteeRelease probe_error_world
                 (example_gitee_options three_assets) []) = Rejected (http_error 500) /\
   completion (gitee_reconcile_tag probe_error_world (example_gitee_options three_assets)
                 [EvLog Info MsgGiteeStart]) = Rejected (http_error 500)).
Proof.
  split.
  - destruct (proj1 (proj2 (gitee_loop_never_aborts flaky_upload_world
                              (example_gitee_options four_assets) []))
                eq_refl eq_refl (or_intror eq_refl)) as [H1 [H2 [H3 _]]].
    split; [exact H1|]. split; [exact H2|]. split; [exact H3|].
    split; reflexivity.
  - assert (H : completion (publishGiteeRelease probe_error_world
                              (example_gitee_options three_assets) []) =
                Rejected (http_error 500)) by reflexivity.
    split; [exact H|].
    destruct (proj1 (proj2 (proj2 (gitee_loop_never_aborts probe_error_world
                              (example_gitee_options three_assets) [])))
                (http_error 500) H) as [HA|[[HA _]|[HA _]]].
    + exact HA.
    + vm_compute in HA. discriminate.
    + vm_compute in HA. discriminate.
Defined.

(** ** Step 1 of [main] when [glob] refuses a pattern *)

Lemma settings_of_long_pattern :
  settings_of quiet_world long_pattern_inputs = Rejected pattern_too_long.
Proof.
  assert (Hrun : resolveAssetFiles example_fs long_pattern = Rejected pattern_too_long).
  { apply resolveAssetFiles_refused.
    - apply repeat_char_truthy. lia.
    - now apply repeat_char_no_space.
    - apply example_fs_refuses. unfold long_pattern.
      rewrite repeat_char_length, N_nat_Z. reflexivity. }
  unfold settings_of, read_inputs, long_pattern_inputs, bind, lift, ret, completion.
  cbn [in_platforms in_tag in_release_name in_release_body in_draft in_prerelease
       in_asset_files fst snd app].
  change (w_fs quiet_world) with example_fs.
  rewrite Hrun. reflexivity.
Qed.

Lemma main_without_platforms_witness :
  main quiet_world (example_inputs " , ," true) [] =
    (Resolved tt, [EvLog Info MsgWorkflowCompleted]) /\
  main quiet_world long_pattern_inputs [] =
    (Resolved tt,
     [EvLog Error (MsgSyncFailed pattern_too_long);
      EvSetFailed (MsgSyncFailed pattern_too_long)]).
Proof.
  split.
  - exact (@main_without_platforms quiet_world (example_inputs " , ," true) " , ," []
             eq_refl eq_refl).
  - pose proof (@main_without_platforms quiet_world long_pattern_inputs " , ," []
                  eq_refl eq_refl) as H.
    rewrite settings_of_long_pattern in H. exact H.
Defined.
